(** * ws-sure: a chat bot recording personal-finance transactions

    Shallow embedding of the conversation engine (bot.ts), the session
    stores (state.ts and the SessionManager of types.ts), the free-text
    transaction parser (parser.ts), the sliding-window rate limiter
    (rate-limiter.ts), the configuration loader (config.ts), the HTTP
    client of the finance service (sure-api.ts) and the handler of
    incoming messages (index.ts), followed by the properties established
    about them.

    Conventions of the embedding.
    - A JavaScript string is a [string]: a sequence of code units, here
      the code units 0..255 (the Latin-1 range).  White space, line
      terminators, digits and lower-casing are the ECMAScript ones
      restricted to that range.  Literal reply texts are kept as they are
      written in the source (as UTF-8 bytes); they are output only.
    - [Date.now()] and [Date] values are integers (milliseconds) in [Z];
      every operation that reads the clock takes the instant as [now].
    - A JavaScript number that holds a count, an index or a duration is a
      [Z]; an amount is a [JS.num]: a double, given by its sign and the
      exact rational value of its magnitude, [NaN] or an infinity.
      [parseFloat] rounds the decimal it reads to the nearest double, ties
      to the even significand, and overflows to an infinity.
    - A [Map] is a [gmap]; an array is a [list]. *)

From Stdlib Require Import ZArith QArith Qabs Ascii String List Lia.
From stdpp Require Import base option gmap strings list pretty.

Open Scope string_scope.
Open Scope list_scope.
Open Scope Z_scope.

(** ** JavaScript primitives used by the sources *)

Module JS.

Definition chars (s : string) : list ascii := list_ascii_of_string s.
Definition str (l : list ascii) : string := string_of_list_ascii l.

Definition code (c : ascii) : N := N_of_ascii c.

(** WhiteSpace and LineTerminator code units (what [trim], [\s],
    [parseInt] and [parseFloat] skip). *)
Definition isWhiteSpace (c : ascii) : bool :=
  match code c with
  | 9%N | 10%N | 11%N | 12%N | 13%N | 32%N | 160%N => true
  | _ => false
  end.

(** Line terminators: the characters [.] does not match. *)
Definition isLineTerminator (c : ascii) : bool :=
  match code c with
  | 10%N | 13%N => true
  | _ => false
  end.

Definition isDigit (c : ascii) : bool :=
  (48 <=? code c)%N && (code c <=? 57)%N.

Definition digitVal (c : ascii) : N := (code c - 48)%N.

(** Value of a hexadecimal digit, in either letter case. *)
Definition hexVal (c : ascii) : option N :=
  let n := code c in
  if ((48 <=? n) && (n <=? 57))%N then Some (n - 48)%N
  else if ((97 <=? n) && (n <=? 102))%N then Some (n - 87)%N
  else if ((65 <=? n) && (n <=? 70))%N then Some (n - 55)%N
  else None.

Definition lowerChar (c : ascii) : ascii :=
  let n := code c in
  if (((65 <=? n) && (n <=? 90))
      || ((192 <=? n) && (n <=? 222) && negb (n =? 215)))%N
  then ascii_of_N (n + 32)
  else c.

(** [String.prototype.toLowerCase]. *)
Definition toLowerCase (s : string) : string :=
  str (map lowerChar (chars s)).

Fixpoint dropWhile (p : ascii -> bool) (l : list ascii) : list ascii :=
  match l with
  | c :: l' => if p c then dropWhile p l' else l
  | [] => []
  end.

Fixpoint takeWhile (p : ascii -> bool) (l : list ascii) : list ascii :=
  match l with
  | c :: l' => if p c then c :: takeWhile p l' else []
  | [] => []
  end.

Definition trimChars (l : list ascii) : list ascii :=
  rev (dropWhile isWhiteSpace (rev (dropWhile isWhiteSpace l))).

(** [String.prototype.trim]. *)
Definition trim (s : string) : string := str (trimChars (chars s)).

(** [String.prototype.replace] with a one-character string pattern and
    the empty replacement: only the first occurrence goes. *)
Fixpoint removeFirst (x : ascii) (l : list ascii) : list ascii :=
  match l with
  | c :: l' => if Ascii.eqb c x then l' else c :: removeFirst x l'
  | [] => []
  end.

Definition length (s : string) : Z := Z.of_nat (String.length s).

(** *** Integers read by [parseInt] *)

Fixpoint digitsValue (radix : N) (acc : N) (l : list N) : N :=
  match l with
  | d :: l' => digitsValue radix (acc * radix + d)%N l'
  | [] => acc
  end.

Fixpoint takeHex (l : list ascii) : list N :=
  match l with
  | c :: l' => match hexVal c with Some d => d :: takeHex l' | None => [] end
  | [] => []
  end.

Definition takeDec (l : list ascii) : list N :=
  map digitVal (takeWhile isDigit l).

(** A leading sign. *)
Definition readSign (l : list ascii) : bool * list ascii :=
  match l with
  | c :: l' =>
      if Ascii.eqb c "-" then (true, l')
      else if Ascii.eqb c "+" then (false, l')
      else (false, l)
  | [] => (false, [])
  end.

(** A leading [0x] or [0X]. *)
Definition stripHexPrefix (l : list ascii) : option (list ascii) :=
  match l with
  | a :: b :: l' =>
      if (Ascii.eqb a "0" && (Ascii.eqb b "x" || Ascii.eqb b "X"))%bool
      then Some l'
      else None
  | _ => None
  end.

(** [parseInt(s)] without a radix: leading white space is skipped, a sign
    is read, [0x]/[0X] selects base sixteen, and the longest run of
    digits is the value; [None] is [NaN]. *)
Definition parseIntChars (l : list ascii) : option Z :=
  let '(neg, l) := readSign (dropWhile isWhiteSpace l) in
  let '(radix, ds) :=
    match stripHexPrefix l with
    | Some l' => (16%N, takeHex l')
    | None => (10%N, takeDec l)
    end in
  match ds with
  | [] => None
  | _ =>
      let v := Z.of_N (digitsValue radix 0 ds) in
      Some (if neg : bool then - v else v)
  end.

Definition parseInt (s : string) : option Z := parseIntChars (chars s).

(** The characters an integer text can start with: white space, a digit
    or a sign. *)
Definition startsNumber (c : ascii) : bool :=
  (isWhiteSpace c || isDigit c || Ascii.eqb c "-" || Ascii.eqb c "+")%bool.

(** *** Numbers read by [parseFloat] *)

Inductive num : Type :=
| NaN
| Inf (neg : bool)
| Fin (neg : bool) (mag : Q).

(** [m * 10^e], in lowest terms. *)
Definition scale10 (m : N) (e : Z) : Q :=
  if (0 <=? e)%Z
  then Qred (Qmake (Z.of_N m * 10 ^ e) 1)
  else Qred (Qmake (Z.of_N m) (Z.to_pos (10 ^ (- e)))).

Fixpoint isPrefix (p l : list ascii) : bool :=
  match p, l with
  | [], _ => true
  | a :: p', b :: l' => Ascii.eqb a b && isPrefix p' l'
  | _ :: _, [] => false
  end.

(** The exponent part [e[+-]ddd] when there is one, otherwise 0. *)
Definition exponentPart (l : list ascii) : Z :=
  match l with
  | c :: l' =>
      if (Ascii.eqb c "e" || Ascii.eqb c "E")%bool then
        let '(neg, l'') := readSign l' in
        match takeDec l'' with
        | [] => 0
        | ds => let v := Z.of_N (digitsValue 10 0 ds) in
                if neg : bool then - v else v
        end
      else 0
  | [] => 0
  end.

(** The fraction part [.ddd] when there is one, and what follows it. *)
Definition readFraction (l : list ascii) : list ascii * list ascii :=
  match l with
  | c :: t =>
      if Ascii.eqb c "."
      then (takeWhile isDigit t, dropWhile isDigit t)
      else ([], l)
  | [] => ([], [])
  end.

(** [n / d] rounded to an integer, a tie going to the even one
    ([0 <= n], [0 < d]). *)
Definition roundHalfEven (n d : Z) : Z :=
  let k := n / d in
  let r := n mod d in
  if 2 * r <? d then k
  else if d <? 2 * r then k + 1
  else if Z.even k then k else k + 1.

(** The exponent [e] of the unit in the last place of the doubles around
    [n / d] ([0 < n], [0 < d]): [2^52 <= (n / d) / 2^e < 2^53], and
    [-1074] at least, where the subnormal numbers are. *)
Definition ulpExponent (n d : Z) : Z :=
  let e := Z.log2 n - Z.log2 d - 52 in
  let e := if n * 2 ^ Z.max 0 (- e) <? 2 ^ 52 * (d * 2 ^ Z.max 0 e)
           then e - 1 else e in
  Z.max e (-1074).

(** The Number value of a rational magnitude [q >= 0] with the sign
    [neg]: the double nearest to it (IEEE 754 binary64, round to nearest,
    ties to even), an infinity from [2^1024 - 2^970] on. *)
Definition toDouble (neg : bool) (q : Q) : num :=
  let n := Qnum q in
  let d := Zpos (Qden q) in
  if n <=? 0 then Fin neg 0
  else
    let e := ulpExponent n d in
    let m := roundHalfEven (n * 2 ^ Z.max 0 (- e)) (d * 2 ^ Z.max 0 e) in
    if (971 <? e) || ((e =? 971) && (m =? 2 ^ 53)) then Inf neg
    else if 0 <=? e then Fin neg (Qmake (m * 2 ^ e) 1)
    else Fin neg (Qred (Qmake m (Z.to_pos (2 ^ (- e))))).

(** The finite doubles are the numbers [m * 2^e] with a significand [m]
    below [2^53] and [-1074 <= e <= 971]; [dyadic m e] is that number,
    over the denominator [2^1074]. *)
Definition dyadic (m e : Z) : Q :=
  Qmake (m * 2 ^ (e + 1074)) (Z.to_pos (2 ^ 1074)).

(** [x] is the magnitude of a finite double. *)
Definition isDouble (x : Q) : Prop :=
  ∃ m e, 0 <= m < 2 ^ 53 ∧ -1074 <= e <= 971 ∧ (x == dyadic m e)%Q.

(** [r] is a rounding to nearest of the magnitude [v]: the positive
    infinity from [2^1024 - 2^970] on (half way from the largest double
    to [2^1024]); below that a finite double, without sign, such that no
    double is nearer to [v]. *)
Definition rounds (v : Q) (r : num) : Prop :=
  match r with
  | NaN => False
  | Inf neg => neg = false ∧ (dyadic (2 ^ 54 - 1) 970 <= v)%Q
  | Fin neg x =>
      neg = false ∧ isDouble x ∧ (v < dyadic (2 ^ 54 - 1) 970)%Q
      ∧ ∀ y, isDouble y → (Qabs (x - v) <= Qabs (y - v))%Q
  end.

(** [parseFloat(s)]: the longest prefix that is a decimal literal, as a
    double. *)
Definition parseFloatChars (l : list ascii) : num :=
  let '(neg, l) := readSign (dropWhile isWhiteSpace l) in
  if isPrefix (chars "Infinity") l then Inf neg
  else
    let ip := takeWhile isDigit l in
    let l1 := dropWhile isDigit l in
    let '(fp, l2) := readFraction l1 in
    match ip ++ fp with
    | [] => NaN
    | ds =>
        toDouble neg (scale10 (digitsValue 10 0 (map digitVal ds))
                              (exponentPart l2 - Z.of_nat (List.length fp)))
    end.

Definition parseFloat (s : string) : num := parseFloatChars (chars s).

Definition isNaN (x : num) : bool :=
  match x with NaN => true | _ => false end.

(** [Math.abs]. *)
Definition abs (x : num) : num :=
  match x with
  | NaN => NaN
  | Inf _ => Inf false
  | Fin _ q => Fin false q
  end.

(** Unary minus. *)
Definition neg (x : num) : num :=
  match x with
  | NaN => NaN
  | Inf b => Inf (negb b)
  | Fin b q => Fin (negb b) q
  end.

(** [x < 0]. *)
Definition ltZero (x : num) : bool :=
  match x with
  | NaN => false
  | Inf b => b
  | Fin b q => b && negb (Qeq_bool q 0)
  end.

(** A number [Math.abs] can return: not NaN and without the sign
    ([+0] and [+Infinity] are such numbers, [-0] is not). *)
Definition isMagnitude (x : num) : bool :=
  match x with
  | NaN => false
  | Inf b | Fin b _ => negb b
  end.

(** A double quote and a line feed, for the reply texts. *)
Definition dq : string := String (ascii_of_nat 34) EmptyString.
Definition nl : string := String (ascii_of_nat 10) EmptyString.

(** A thrown error: its [message] and, for an HTTP failure, the
    [response.data.message] of the reply when there is one. *)
Record Error : Type := mkError {
  message : string;
  responseDataMessage : option string
}.

(** How a call ends: with a value, or with a thrown error. *)
Inductive completion (A : Type) : Type :=
| Normal (a : A)
| Throw (e : Error).
Arguments Normal {A} a.
Arguments Throw {A} e.

(** [a || b] on strings that may be undefined: the empty string is falsy. *)
Definition orElse (a : option string) (b : string) : string :=
  match a with
  | Some (String c r) => String c r
  | _ => b
  end.

End JS.

(** ** rate-limiter.ts *)

Module RateLimiter.

Record t : Type := mk {
  userAttempts : gmap string (list Z);
  maxAttempts : Z;
  windowMs : Z;
  (** period of the cleanup timer while it is armed *)
  cleanupInterval : option Z
}.

Definition defaultMaxAttempts : Z := 5.
Definition defaultWindowMs : Z := 60000.

(** [new RateLimiter(maxAttempts, windowMs)]. *)
Definition constructor (maxAttempts windowMs : Z) : JS.completion t :=
  JS.Normal (mk ∅ maxAttempts windowMs (Some (windowMs * 2))).

(** [attempts.filter((t) => now - t < this.windowMs)]. *)
Definition recent (rl : t) (now : Z) (attempts : list Z) : list Z :=
  filter (λ t, now - t < windowMs rl) attempts.

Definition isAllowed (now : Z) (userId : string) (rl : t) : bool * t :=
  let attempts := default [] (userAttempts rl !! userId) in
  let recentAttempts := recent rl now attempts in
  if Z.of_nat (List.length recentAttempts) >=? maxAttempts rl
  then (false, rl)
  else (true,
        mk (<[userId := recentAttempts ++ [now]]> (userAttempts rl))
           (maxAttempts rl) (windowMs rl) (cleanupInterval rl)).

Definition getRemaining (now : Z) (userId : string) (rl : t) : Z :=
  let attempts := default [] (userAttempts rl !! userId) in
  let recentAttempts := recent rl now attempts in
  Z.max 0 (maxAttempts rl - Z.of_nat (List.length recentAttempts)).

Definition reset (userId : string) (rl : t) : t :=
  mk (delete userId (userAttempts rl))
     (maxAttempts rl) (windowMs rl) (cleanupInterval rl).

Definition resetAll (rl : t) : t :=
  mk ∅ (maxAttempts rl) (windowMs rl) (cleanupInterval rl).

Definition cleanup (now : Z) (rl : t) : t :=
  mk (omap (λ attempts,
            match recent rl now attempts with
            | [] => None
            | recentAttempts => Some recentAttempts
            end) (userAttempts rl))
     (maxAttempts rl) (windowMs rl) (cleanupInterval rl).

(** [destroy]: the timer is cleared and the history dropped. *)
Definition destroy (rl : t) : t :=
  mk ∅ (maxAttempts rl) (windowMs rl) None.

(** *** Call sequences

    A client of the limiter is a sequence of timed calls of its public
    methods and of the cleanup timer; the log keeps the outcome of every
    [isAllowed] and every reset. *)

Inductive call : Type :=
| IsAllowed (userId : string)
| GetRemaining (userId : string)
| Reset (userId : string)
| ResetAll
| Cleanup.

Inductive event : Type :=
| Attempt (at_ : Z) (who : string) (admitted : bool)
| Forgot (who : string)
| ForgotAll.

Definition exec (st : list event * t) (c : Z * call) : list event * t :=
  let '(log, rl) := st in
  match c with
  | (now, IsAllowed u) =>
      let '(b, rl') := isAllowed now u rl in (log ++ [Attempt now u b], rl')
  | (now, GetRemaining u) => (log, rl)
  | (now, Reset u) => (log ++ [Forgot u], reset u rl)
  | (now, ResetAll) => (log ++ [ForgotAll], resetAll rl)
  | (now, Cleanup) => (log, cleanup now rl)
  end.

Definition run (rl : t) (calls : list (Z * call)) : list event * t :=
  fold_left exec calls ([], rl).

(** The history of [u] after one more event. *)
Definition record (u : string) (acc : list Z) (e : event) : list Z :=
  match e with
  | Attempt now v b =>
      if decide (v = u ∧ b = true) then acc ++ [now] else acc
  | Forgot v => if decide (v = u) then [] else acc
  | ForgotAll => []
  end.

(** Timestamps of the admitted attempts of [u] in a log since the history
    of [u] was last reset, oldest first. *)
Definition admittedTimes (u : string) (log : list event) : list Z :=
  fold_left (record u) log [].

(** The clock never runs backwards along the sequence. *)
Fixpoint nondecreasing (ts : list Z) : Prop :=
  match ts with
  | a :: (b :: _) as ts' => a <= b ∧ nondecreasing ts'
  | _ => True
  end.

(** The attempts the limiter holds for an identity:
    [this.userAttempts.get(userId) || []]. *)
Definition stored (rl : t) (u : string) : list Z :=
  default [] (userAttempts rl !! u).

(** How many admitted attempts of [u] in [log] lie inside the window that
    ends at [now]. *)
Definition budgetUsed (w : Z) (u : string) (now : Z) (log : list event) : Z :=
  Z.of_nat (List.length (filter (λ t, now - t < w) (admittedTimes u log))).

(** Every logged outcome is the one the earlier admissions call for. *)
Definition justified (m w : Z) (log : list event) : Prop :=
  ∀ i now u b, log !! i = Some (Attempt now u b) →
    (b = true ↔ budgetUsed w u now (take i log) < m).

(** What the limiter holds agrees with the log on every window that ends
    at [T] or later. *)
Definition agrees (m w : Z) (log : list event) (rl : t) (T : Z) : Prop :=
  maxAttempts rl = m ∧ windowMs rl = w ∧
  ∀ u now, T <= now →
    filter (λ t, now - t < w) (stored rl u)
    = filter (λ t, now - t < w) (admittedTimes u log).

(** The limiter of the tests, [new RateLimiter(3, 1000)]. *)
Definition limiter3 : t := mk ∅ 3 1000 (Some (1000 * 2)).

(** A burst of five attempts, a cleanup, and one attempt after the window. *)
Definition burst : list (Z * call) :=
  [(0, IsAllowed "u"); (1, IsAllowed "u"); (2, GetRemaining "u");
   (3, IsAllowed "u"); (4, IsAllowed "u"); (5, IsAllowed "u");
   (2500, Cleanup); (2600, IsAllowed "u")].

End RateLimiter.

(** ** Regular expressions, as the backtracking matcher runs them

    Only the constructs of the four patterns of parser.ts: a character
    class, sequence, greedy [?], greedy [+] and lazy [+?] over a class, and
    the two capture groups.  Every pattern is anchored at both ends. *)

Module Regex.

Inductive gid : Type := G1 | G2.

Record caps : Type := Caps {
  g1 : option (list ascii);
  g2 : option (list ascii)
}.

Definition setGroup (i : gid) (v : list ascii) (c : caps) : caps :=
  match i with
  | G1 => Caps (Some v) (g2 c)
  | G2 => Caps (g1 c) (Some v)
  end.

Inductive t : Type :=
| Cls (p : ascii -> bool)
| Seq (r1 r2 : t)
| Opt (r : t)
| PlusGreedy (p : ascii -> bool)
| PlusLazy (p : ascii -> bool)
| Grp (i : gid) (r : t).

(** Greedy [p+]: take as many as possible, give back one at a time. *)
Fixpoint plusGreedy (p : ascii -> bool) (s : list ascii)
    (k : list ascii -> option caps) : option caps :=
  match s with
  | a :: s' =>
      if p a then
        match plusGreedy p s' k with
        | Some r => Some r
        | None => k s'
        end
      else None
  | [] => None
  end.

(** Lazy [p+?]: take one, try the rest, take one more on failure. *)
Fixpoint plusLazy (p : ascii -> bool) (s : list ascii)
    (k : list ascii -> option caps) : option caps :=
  match s with
  | a :: s' =>
      if p a then
        match k s' with
        | Some r => Some r
        | None => plusLazy p s' k
        end
      else None
  | [] => None
  end.

(** [run r s c k]: match [r] at the head of [s], then continue with [k]
    on what is left; the first alternative that lets [k] succeed wins. *)
Fixpoint run (r : t) (s : list ascii) (c : caps)
    (k : list ascii -> caps -> option caps) : option caps :=
  match r with
  | Cls p =>
      match s with
      | a :: s' => if p a then k s' c else None
      | [] => None
      end
  | Seq r1 r2 => run r1 s c (fun s' c' => run r2 s' c' k)
  | Opt r1 =>
      match run r1 s c k with
      | Some res => Some res
      | None => k s c
      end
  | PlusGreedy p => plusGreedy p s (fun s' => k s' c)
  | PlusLazy p => plusLazy p s (fun s' => k s' c)
  | Grp i r1 =>
      run r1 s c
        (fun s' c' =>
           k s' (setGroup i (firstn (List.length s - List.length s') s) c'))
  end.

Definition atEnd (s : list ascii) (c : caps) : option caps :=
  match s with
  | [] => Some c
  | _ :: _ => None
  end.

(** [s.match(/^r$/)]. *)
Definition exec (r : t) (s : list ascii) : option caps :=
  run r s (Caps None None) atEnd.

Definition isChar (x : ascii) (a : ascii) : bool := Ascii.eqb a x.

(** [.]: any character but a line terminator. *)
Definition dot (a : ascii) : bool := negb (JS.isLineTerminator a).

(** The words the captured text of a pattern can be: the declarative
    reading of a pattern, with the groups it sets. *)
Inductive matches : t -> list ascii -> caps -> caps -> Prop :=
| M_Cls p a c : p a = true -> matches (Cls p) [a] c c
| M_Seq r1 r2 w1 w2 c c1 c2 :
    matches r1 w1 c c1 -> matches r2 w2 c1 c2 ->
    matches (Seq r1 r2) (w1 ++ w2) c c2
| M_OptSome r w c c' : matches r w c c' -> matches (Opt r) w c c'
| M_OptNone r c : matches (Opt r) [] c c
| M_PlusGreedy p w c :
    w <> [] -> Forall (fun a => p a = true) w -> matches (PlusGreedy p) w c c
| M_PlusLazy p w c :
    w <> [] -> Forall (fun a => p a = true) w -> matches (PlusLazy p) w c c
| M_Grp i r w c c' : matches r w c c' -> matches (Grp i r) w c (setGroup i w c').

(** A pattern without capture groups. *)
Fixpoint groupFree (r : t) : bool :=
  match r with
  | Cls _ | PlusGreedy _ | PlusLazy _ => true
  | Seq r1 r2 => groupFree r1 && groupFree r2
  | Opt r1 => groupFree r1
  | Grp _ _ => false
  end.

(** The characters a pattern can consume. *)
Fixpoint alphabet (r : t) (a : ascii) : bool :=
  match r with
  | Cls p | PlusGreedy p | PlusLazy p => p a
  | Seq r1 r2 => alphabet r1 a || alphabet r2 a
  | Opt r1 => alphabet r1 a
  | Grp _ r1 => alphabet r1 a
  end.

End Regex.

(** ** parser.ts *)

Module Parser.
Import Regex.

Record ParsedTransaction : Type := Parsed {
  amount : JS.num;
  name : string
}.

(** The class removed by the sanitation step: less-than, greater-than,
    double quote, apostrophe and backtick. *)
Definition isDangerous (a : ascii) : bool :=
  match JS.code a with
  | 60%N | 62%N | 34%N | 39%N | 96%N => true
  | _ => false
  end.

(** The global replacement of that class by nothing. *)
Definition sanitise (l : list ascii) : list ascii :=
  List.filter (fun a => negb (isDangerous a)) l.

Definition validateInput (input : string) : option (list ascii) :=
  match input with
  | EmptyString => None
  | _ =>
      let trimmed := JS.trimChars (JS.chars input) in
      let maxLength := 500%nat in
      if ((List.length trimmed =? 0)%nat || (maxLength <? List.length trimmed)%nat)%bool
      then None
      else
        let sanitized := sanitise trimmed in
        if (List.length sanitized =? 0)%nat then None else Some sanitized
  end.

(** [-?\d+(?:\.\d{1,2})?] *)
Definition number : Regex.t :=
  Seq (Opt (Cls (isChar "-")))
    (Seq (PlusGreedy JS.isDigit)
       (Opt (Seq (Cls (isChar "."))
               (Seq (Cls JS.isDigit) (Opt (Cls JS.isDigit)))))).

(** [\$?-?\d+(?:\.\d{1,2})?] *)
Definition dollarNumber : Regex.t := Seq (Opt (Cls (isChar "$"))) number.

(** [/^(-?\d+(?:\.\d{1,2})?)\s+(.+)$/] *)
Definition pattern0 : Regex.t :=
  Seq (Grp G1 number) (Seq (PlusGreedy JS.isWhiteSpace) (Grp G2 (PlusGreedy dot))).

(** [/^(\$?-?\d+(?:\.\d{1,2})?)\s+(.+)$/] *)
Definition pattern1 : Regex.t :=
  Seq (Grp G1 dollarNumber)
    (Seq (PlusGreedy JS.isWhiteSpace) (Grp G2 (PlusGreedy dot))).

(** [/^(.+?)\s+(-?\d+(?:\.\d{1,2})?)$/] *)
Definition pattern2 : Regex.t :=
  Seq (Grp G1 (PlusLazy dot)) (Seq (PlusGreedy JS.isWhiteSpace) (Grp G2 number)).

(** [/^(.+?)\s+(\$?-?\d+(?:\.\d{1,2})?)$/] *)
Definition pattern3 : Regex.t :=
  Seq (Grp G1 (PlusLazy dot))
    (Seq (PlusGreedy JS.isWhiteSpace) (Grp G2 dollarNumber)).

(** The array [patterns]; each entry carries its position, which is how
    the loop body recognises [patterns[2]] and [patterns[3]]. *)
Definition patterns : list (nat * Regex.t) :=
  [(0%nat, pattern0); (1%nat, pattern1); (2%nat, pattern2); (3%nat, pattern3)].

Definition group (o : option (list ascii)) : list ascii := default [] o.

(** [s.replace('$', '').replace(',', '')] *)
Definition stripAmount (s : list ascii) : list ascii :=
  JS.removeFirst "," (JS.removeFirst "$" s).

(** The body of the loop for one pattern that matched. *)
Definition candidate (i : nat) (m : caps) : option ParsedTransaction :=
  let amountStr := stripAmount (group (g1 m)) in
  let name := JS.trimChars (group (g2 m)) in
  let '(amountStr, name) :=
    if ((i =? 2)%nat || (i =? 3)%nat)%bool
    then (stripAmount (group (g2 m)), JS.trimChars (group (g1 m)))
    else (amountStr, name) in
  let amount := JS.parseFloatChars amountStr in
  if (negb (JS.isNaN amount)
      && (0 <? List.length name)%nat && (List.length name <=? 255)%nat)%bool
  then Some (Parsed (JS.abs amount) (JS.str name))
  else None.

(** [for (const pattern of patterns) ...], over any list of patterns. *)
Fixpoint tryPatterns (ps : list (nat * Regex.t)) (validated : list ascii)
    : option ParsedTransaction :=
  match ps with
  | (i, pattern) :: ps' =>
      match Regex.exec pattern validated with
      | Some m =>
          match candidate i m with
          | Some res => Some res
          | None => tryPatterns ps' validated
          end
      | None => tryPatterns ps' validated
      end
  | [] => None
  end.

Definition parseTransactionDetails (input : string) : option ParsedTransaction :=
  match validateInput input with
  | None => None
  | Some validated => tryPatterns patterns validated
  end.

(** The same function with the first pattern taken out of the array. *)
Definition parseWithoutPattern0 (input : string) : option ParsedTransaction :=
  match validateInput input with
  | None => None
  | Some validated => tryPatterns (tl patterns) validated
  end.

(** The same function with the second pattern taken out of the array. *)
Definition parseWithoutPattern1 (input : string) : option ParsedTransaction :=
  match validateInput input with
  | None => None
  | Some validated =>
      tryPatterns [(0%nat, pattern0); (2%nat, pattern2); (3%nat, pattern3)]
        validated
  end.

(** *** Well-formed inputs

    An amount text is an optional [$], an optional minus sign, the
    integer digits [ip] and, when [fp] is not empty, a point and the
    fraction digits [fp]. *)
Definition amountText (dollar minus : bool) (ip fp : list ascii) : list ascii :=
  (if dollar then ["$"%char] else [])
  ++ (if minus then ["-"%char] else [])
  ++ ip ++ match fp with [] => [] | _ => "."%char :: fp end.

(** The magnitude the digits denote. *)
Definition decimalValue (ip fp : list ascii) : Q :=
  JS.scale10 (JS.digitsValue 10 0 (map JS.digitVal (ip ++ fp)))
    (- Z.of_nat (List.length fp)).

(** At least one integer digit, at most two fraction digits. *)
Definition amountOk (ip fp : list ascii) : bool :=
  (0 <? List.length ip)%nat && forallb JS.isDigit ip
  && forallb JS.isDigit fp && (List.length fp <=? 2)%nat.

(** The white space between the amount and the name. *)
Definition gapOk (ws : list ascii) : bool :=
  (0 <? List.length ws)%nat && forallb JS.isWhiteSpace ws.

(** A name: 1 to 255 characters, no line terminator, none of the
    characters the sanitation removes, no white space at either end. *)
Definition nameOk (name : list ascii) : bool :=
  (0 <? List.length name)%nat && (List.length name <=? 255)%nat
  && forallb (fun a => negb (JS.isLineTerminator a) && negb (isDangerous a)) name
  && negb (JS.isWhiteSpace (hd " "%char name))
  && negb (JS.isWhiteSpace (List.last name " "%char)).




(** The characters before the first white space. *)
Definition firstWord (l : list ascii) : list ascii :=
  JS.takeWhile (fun a => negb (JS.isWhiteSpace a)) l.

(** The text is an amount text: an optional [$], an optional minus sign,
    digits and, optionally, a point and one or two digits. *)
Definition isAmountText (t : list ascii) : bool :=
  let t :=
    match t with
    | c :: r => if Ascii.eqb c "$" then r else t
    | [] => t
    end in
  let t :=
    match t with
    | c :: r => if Ascii.eqb c "-" then r else t
    | [] => t
    end in
  (0 <? List.length (JS.takeWhile JS.isDigit t))%nat
  && match JS.dropWhile JS.isDigit t with
     | [] => true
     | c :: fp =>
         Ascii.eqb c "." && (0 <? List.length fp)%nat
         && (List.length fp <=? 2)%nat && forallb JS.isDigit fp
     end.

(** The input reads as an amount followed by a name: its first word is
    an amount text, and what follows the white space after it holds no
    line terminator and, trimmed, has 1 to 255 characters. *)
Definition readsAmountFirst (v : list ascii) : bool :=
  let rest :=
    JS.dropWhile JS.isWhiteSpace
      (JS.dropWhile (fun a => negb (JS.isWhiteSpace a)) v) in
  isAmountText (firstWord v)
  && forallb dot rest
  && (0 <? List.length (JS.trimChars rest))%nat
  && (List.length (JS.trimChars rest) <=? 255)%nat.

Definition spaces (l : list ascii) : Prop :=
  Forall (λ x, JS.isWhiteSpace x = true) l.


(** A text whose first and last characters are not white space. *)
Definition solid (l : list ascii) : Prop :=
  (∃ a l', l = a :: l' ∧ JS.isWhiteSpace a = false)
  ∧ (∃ l' z, l = l' ++ [z] ∧ JS.isWhiteSpace z = false).

End Parser.

(** ** types.ts: the data model *)

Module Types.

Inductive ConversationState : Type :=
| IDLE | SELECT_TYPE | SELECT_ACCOUNT | ENTER_DETAILS | SELECT_CATEGORY.

Inductive TransactionType : Type := expense | income.

Inductive Nature : Type :=
| natureIncome | natureExpense | natureInflow | natureOutflow.

Definition natureOf (ty : TransactionType) : Nature :=
  match ty with
  | expense => natureExpense
  | income => natureIncome
  end.

End Types.
Export Types.

Module Category.
Record t : Type := mk {
  id : string;
  name : string;
  classification : string;
  color : option string;
  icon : option string
}.
End Category.

Module Account.
Record t : Type := mk {
  id : string;
  name : string;
  account_type : string;
  balance : option string;
  currency : option string
}.
End Account.

Module Tag.
Record t : Type := mk {
  id : string;
  name : string;
  color : option string
}.
End Tag.

Module Transaction.
Record t : Type := mk {
  id : string;
  date : string;
  amount : string;
  currency : string;
  name : string;
  notes : option string;
  classification : string;
  account : option Account.t;
  category : option Category.t;
  tags : option (list Tag.t);
  created_at : string;
  updated_at : string
}.
End Transaction.

(** The fields the bot fills from the session with a non-null assertion
    ([account_id], [name]) are optional here: they are [undefined] at run
    time when the session does not hold them. *)
Module CreateTransactionParams.
Record t : Type := mk {
  account_id : option string;
  date : string;
  amount : JS.num;
  name : option string;
  category_id : option string;
  notes : option string;
  nature : option Nature
}.
End CreateTransactionParams.

Module UserSession.
Record t : Type := mk {
  state : ConversationState;
  transactionType : option TransactionType;
  accountId : option string;
  amount : option JS.num;
  name : option string;
  categories : option (list Category.t);
  accounts : option (list Account.t);
  createdAt : Z;
  lastActivityAt : Z
}.

(** [Partial<UserSession>]: the fields an update carries. *)
Record partial : Type := mkPartial {
  p_state : option ConversationState;
  p_transactionType : option TransactionType;
  p_accountId : option string;
  p_amount : option JS.num;
  p_name : option string;
  p_categories : option (list Category.t);
  p_accounts : option (list Account.t);
  p_createdAt : option Z;
  p_lastActivityAt : option Z
}.

Definition noUpdates : partial :=
  mkPartial None None None None None None None None None.

Definition over {A} (new old : option A) : option A :=
  match new with
  | Some v => Some v
  | None => old
  end.

(** [{ ...session, ...updates }] *)
Definition spread (session : t) (updates : partial) : t :=
  mk (default (state session) (p_state updates))
     (over (p_transactionType updates) (transactionType session))
     (over (p_accountId updates) (accountId session))
     (over (p_amount updates) (amount session))
     (over (p_name updates) (name session))
     (over (p_categories updates) (categories session))
     (over (p_accounts updates) (accounts session))
     (default (createdAt session) (p_createdAt updates))
     (default (lastActivityAt session) (p_lastActivityAt updates)).

Definition withLastActivityAt (now : Z) (session : t) : t :=
  mk (state session) (transactionType session) (accountId session)
     (amount session) (name session) (categories session)
     (accounts session) (createdAt session) now.

(** [{ state: IDLE, createdAt: new Date(), lastActivityAt: new Date() }] *)
Definition fresh (now : Z) : t :=
  mk IDLE None None None None None None now now.

End UserSession.

(** ** types.ts: class SessionManager *)

Module SessionManager.

Record t : Type := mk {
  sessions : gmap string UserSession.t;
  sessionTimeoutMs : Z;
  (** period of the cleanup timer while it is armed *)
  cleanupInterval : option Z
}.

Definition defaultSessionTimeoutMs : Z := 30 * 60 * 1000.

Definition constructor (sessionTimeoutMs : Z) : t :=
  mk ∅ sessionTimeoutMs None.

Definition startCleanupInterval (sm : t) : t :=
  match cleanupInterval sm with
  | Some _ => sm
  | None => mk (sessions sm) (sessionTimeoutMs sm) (Some (sessionTimeoutMs sm))
  end.

Definition stopCleanupInterval (sm : t) : t :=
  mk (sessions sm) (sessionTimeoutMs sm) None.

Definition getOrCreateSession (now : Z) (userId : string) (sm : t)
    : UserSession.t * t :=
  match sessions sm !! userId with
  | None =>
      let session := UserSession.fresh now in
      (session,
       mk (<[userId := session]> (sessions sm))
          (sessionTimeoutMs sm) (cleanupInterval sm))
  | Some session =>
      let session := UserSession.withLastActivityAt now session in
      (session,
       mk (<[userId := session]> (sessions sm))
          (sessionTimeoutMs sm) (cleanupInterval sm))
  end.

Definition getSession (now : Z) (userId : string) (sm : t)
    : option UserSession.t * t :=
  match sessions sm !! userId with
  | Some session =>
      let session := UserSession.withLastActivityAt now session in
      (Some session,
       mk (<[userId := session]> (sessions sm))
          (sessionTimeoutMs sm) (cleanupInterval sm))
  | None => (None, sm)
  end.

Definition updateSession (now : Z) (userId : string)
    (updates : UserSession.partial) (sm : t) : UserSession.t * t :=
  let '(session, sm) := getOrCreateSession now userId sm in
  let session :=
    UserSession.withLastActivityAt now (UserSession.spread session updates) in
  (session,
   mk (<[userId := session]> (sessions sm))
      (sessionTimeoutMs sm) (cleanupInterval sm)).

Definition resetSession (userId : string) (sm : t) : t :=
  mk (delete userId (sessions sm)) (sessionTimeoutMs sm) (cleanupInterval sm).

(** A session is expired at [now] when
    [now - session.lastActivityAt.getTime() > this.sessionTimeoutMs]. *)
Definition expired (sm : t) (now : Z) (session : UserSession.t) : bool :=
  now - UserSession.lastActivityAt session >? sessionTimeoutMs sm.

Definition clearExpiredSessions (now : Z) (sm : t) : t :=
  mk (filter (λ kv, expired sm now kv.2 = false) (sessions sm))
     (sessionTimeoutMs sm) (cleanupInterval sm).

Definition getActiveSessions (sm : t) : Z := Z.of_nat (size (sessions sm)).

Definition clearAll (sm : t) : t :=
  mk ∅ (sessionTimeoutMs sm) (cleanupInterval sm).

Definition destroy (sm : t) : t := clearAll (stopCleanupInterval sm).

End SessionManager.

(** ** state.ts: the module-level session map and the list renderers *)

Module State.

(** [getSession]: creates on first access and does not stamp the session. *)
Definition getSession (now : Z) (userId : string)
    (sessions : gmap string UserSession.t)
    : UserSession.t * gmap string UserSession.t :=
  match sessions !! userId with
  | Some session => (session, sessions)
  | None =>
      (UserSession.fresh now, <[userId := UserSession.fresh now]> sessions)
  end.

Definition updateSession (now : Z) (userId : string)
    (updates : UserSession.partial) (sessions : gmap string UserSession.t)
    : UserSession.t * gmap string UserSession.t :=
  let '(session, sessions) := getSession now userId sessions in
  let updated :=
    UserSession.withLastActivityAt now (UserSession.spread session updates) in
  (updated, <[userId := updated]> sessions).

Definition resetSession (now : Z) (userId : string)
    (sessions : gmap string UserSession.t) : gmap string UserSession.t :=
  <[userId := UserSession.fresh now]> sessions.

(** [l.forEach((x, i) => ...)] with the number shown for each entry:
    position [i] is shown as [start + i + 1]. *)
Fixpoint numbered {A} (start : nat) (l : list A) : list (nat * A) :=
  match l with
  | x :: l' => (S start, x) :: numbered (S start) l'
  | [] => []
  end.

Definition expenseCategories (categories : list Category.t) : list Category.t :=
  List.filter (fun c => String.eqb (Category.classification c) "expense") categories.

Definition incomeCategories (categories : list Category.t) : list Category.t :=
  List.filter (fun c => String.eqb (Category.classification c) "income") categories.

Definition categoryLine (e : nat * Category.t) : string :=
  pretty e.1 +:+ ". " +:+ Category.name e.2 +:+ JS.nl.

Definition concat (l : list string) : string := fold_right String.append "" l.

(** The numbers [formatCategoriesList] prints next to the categories. *)
Definition shownCategories (categories : list Category.t)
    : list (nat * Category.t) :=
  numbered 0 (expenseCategories categories)
  ++ numbered (List.length (expenseCategories categories))
       (incomeCategories categories).

Definition formatCategoriesList (categories : list Category.t) : string :=
  let expenseCategories := expenseCategories categories in
  let incomeCategories := incomeCategories categories in
  let message := "📁 *Select a category:*" +:+ JS.nl +:+ JS.nl in
  let message :=
    if (0 <? List.length expenseCategories)%nat
    then message +:+ "*Expenses:*" +:+ JS.nl
         +:+ concat (map categoryLine (numbered 0 expenseCategories))
    else message in
  let message :=
    if (0 <? List.length incomeCategories)%nat
    then
      let startIndex := List.length expenseCategories in
      message +:+ JS.nl +:+ "*Income:*" +:+ JS.nl
      +:+ concat (map categoryLine (numbered startIndex incomeCategories))
    else message in
  message +:+ JS.nl +:+ "Reply with the number or type the category name."
  +:+ JS.nl +:+ JS.nl +:+ "_Type " +:+ JS.dq +:+ "/back" +:+ JS.dq
  +:+ " to return to main menu._".

Definition accountLine (e : nat * Account.t) : string :=
  let balance :=
    match Account.balance e.2 with
    | Some (String c r) => " (" +:+ String c r +:+ ")"
    | _ => ""
    end in
  pretty e.1 +:+ ". " +:+ Account.name e.2 +:+ balance +:+ JS.nl.

Definition formatAccountsList (accounts : list Account.t) : string :=
  match accounts with
  | [] => "❌ No accounts found. Please create an account in Sure.am first."
  | _ =>
      "🏦 *Select an account:*" +:+ JS.nl +:+ JS.nl
      +:+ concat (map accountLine (numbered 0 accounts))
      +:+ JS.nl +:+ "Reply with the number." +:+ JS.nl +:+ JS.nl
      +:+ "_Type " +:+ JS.dq +:+ "/back" +:+ JS.dq
      +:+ " to return to main menu._"
  end.

End State.

(** ** Collaborators of the engine

    The platform's locale and date rendering, and the HTTP client of the
    finance service (class SureAPI), are taken as given. *)

Module Platform.
Record t : Type := mk {
  (** [new Intl.NumberFormat('en-US', {style: 'currency', currency}).format] *)
  currencyFormat : string -> JS.num -> string;
  (** [new Date(s).toLocaleDateString()] *)
  toLocaleDateString : string -> string;
  (** [new Date(now).toISOString().split('T')[0]] *)
  isoDate : Z -> string
}.
End Platform.

Module SureAPI.
Record t : Type := mk {
  (** [None] stands for a reply that is not an array *)
  getCategories : JS.completion (option (list Category.t));
  getAccounts : JS.completion (option (list Account.t));
  getTransactions : Z -> JS.completion (list Transaction.t);
  createTransaction : CreateTransactionParams.t -> JS.completion unit
}.
End SureAPI.

(** ** parser.ts: the renderers *)

Module Format.

Fixpoint join (sep : string) (l : list string) : string :=
  match l with
  | [] => ""
  | [x] => x
  | x :: l' => x +:+ sep +:+ join sep l'
  end.

(** A text given line by line. *)
Definition lines (l : list string) : string := join JS.nl l.

Definition quoted (s : string) : string := JS.dq +:+ s +:+ JS.dq.

Definition formatCurrency (pf : Platform.t) (amount : JS.num) : string :=
  Platform.currencyFormat pf "USD" amount.

Definition transactionLine (pf : Platform.t) (e : nat * Transaction.t) : string :=
  let amount := JS.parseFloat (Transaction.amount e.2) in
  let sign := if JS.ltZero amount then "" else "+" in
  let date := Platform.toLocaleDateString pf (Transaction.date e.2) in
  pretty e.1 +:+ ". " +:+ sign +:+ formatCurrency pf amount +:+ " - "
  +:+ Transaction.name e.2 +:+ JS.nl +:+ "   " +:+ date +:+ " | "
  +:+ JS.orElse (Category.name <$> Transaction.category e.2) "Uncategorized".

Definition formatTransactionList (pf : Platform.t)
    (transactions : list Transaction.t) : string :=
  match transactions with
  | [] => "No transactions found."
  | _ =>
      "📋 *Recent Transactions*" +:+ JS.nl +:+ JS.nl
      +:+ join (JS.nl +:+ JS.nl)
            (map (transactionLine pf) (State.numbered 0 transactions))
  end.

End Format.

(** ** bot.ts: the conversation engine *)

Module Bot.
Import Format.

Record t : Type := mk {
  sureApi : SureAPI.t;
  categories : list Category.t;
  accounts : list Account.t
}.

Definition constructor (sureApi : SureAPI.t) : t := mk sureApi [] [].

Definition initialize (bot : t) : JS.completion t :=
  match SureAPI.getCategories (sureApi bot) with
  | JS.Throw e => JS.Throw e
  | JS.Normal cats =>
      match SureAPI.getAccounts (sureApi bot) with
      | JS.Throw e => JS.Throw e
      | JS.Normal accs => JS.Normal (mk (sureApi bot) (default [] cats) (default [] accs))
      end
  end.

(** What one call of [handleMessage] does: the reply, the session map it
    leaves, and the transaction handed to [createTransaction], if any. *)
Record outcome : Type := Out {
  reply : string;
  sessions : gmap string UserSession.t;
  submitted : option CreateTransactionParams.t
}.

(** Which branch of a selection step assigned the selected entry. *)
Inductive selection (A : Type) : Type :=
| ByIndex (x : A)
| ByName (x : A)
| NoMatch.
Arguments ByIndex {A} x.
Arguments ByName {A} x.
Arguments NoMatch {A}.

Definition selected {A} (s : selection A) : option A :=
  match s with
  | ByIndex x | ByName x => Some x
  | NoMatch => None
  end.

(** [!isNaN(index) && index >= 0 && index < length] *)
Definition indexInRange (index : option Z) (len : nat) : bool :=
  match index with
  | Some i => (0 <=? i) && (i <? Z.of_nat len)
  | None => false
  end.

Definition getMainMenu : string :=
  lines ["🏠 *Main Menu*"; ""; "Commands:"; "• *new* - Add transaction";
         "• */recent* - View recent transactions";
         "• */accounts* - List accounts"; "• */help* - Show this message"].

Definition getHelpMessage : string :=
  lines ["📚 *Sure.am WhatsApp Bot Help*"; ""; "*Commands:*";
         "• *new* or */add* - Add a new transaction";
         "• */recent* - View recent transactions";
         "• */accounts* - List your accounts";
         "• */back* - Go back to main menu";
         "• */cancel* - Cancel current operation";
         "• */help* - Show this message"; "";
         "*How to add a transaction:*";
         "1. Type " +:+ quoted "new";
         "2. Select Expense or Income"; "3. Select an account";
         "4. Enter amount and name (e.g., " +:+ quoted "25.50 Store" +:+ ")";
         "5. Select a category"; ""; "*Tips:*";
         "• Amounts can be formatted as " +:+ quoted "25.50" +:+ " or "
           +:+ quoted "$25.50";
         "• You can put the name before or after the amount";
         "• Type " +:+ quoted "/back"
           +:+ " at any time to return to main menu"].

Definition cancelled : string :=
  "❌ Cancelled. Type " +:+ quoted "new" +:+ " to add a transaction.".

Definition backHint : string :=
  "_Type " +:+ quoted "/back" +:+ " to return to main menu._".

Definition invalidSelection : string :=
  "❌ Invalid selection. Please reply with a number from the list.".

(** [error.response?.data?.message || error.message] *)
Definition errorText (error : JS.Error) : string :=
  JS.orElse (JS.responseDataMessage error) (JS.message error).

Definition failedToCreate (error : JS.Error) : string :=
  lines ["❌ Failed to create transaction. Please try again."; "";
         "Error: " +:+ errorText error].

Definition getRecentTransactions (pf : Platform.t) (bot : t) : string :=
  match SureAPI.getTransactions (sureApi bot) 5 with
  | JS.Normal transactions => formatTransactionList pf transactions
  | JS.Throw error => "❌ Failed to fetch transactions: " +:+ errorText error
  end.

Definition listAccountLine (e : nat * Account.t) : string :=
  let balance :=
    match Account.balance e.2 with
    | Some (String c r) => " - " +:+ String c r
    | _ => ""
    end in
  pretty e.1 +:+ ". " +:+ Account.name e.2 +:+ balance +:+ JS.nl.

Definition listAccounts (bot : t) : string :=
  match accounts bot with
  | [] => "❌ No accounts found."
  | _ =>
      "🏦 *Your Accounts:*" +:+ JS.nl +:+ JS.nl
      +:+ State.concat (map listAccountLine (State.numbered 0 (accounts bot)))
  end.

Definition oneOf (text : string) (words : list string) : bool :=
  existsb (String.eqb text) words.

Definition handleIdle (pf : Platform.t) (bot : t) (now : Z)
    (userId message : string) (sessions : gmap string UserSession.t)
    : outcome :=
  let text := JS.toLowerCase (JS.trim message) in
  if oneOf text ["new"; "/add"; "add"] then
    match accounts bot with
    | [] =>
        Out "❌ No accounts found. Please create an account in Sure.am first."
            sessions None
    | _ =>
        let '(_, sessions) :=
          State.updateSession now userId
            (UserSession.mkPartial (Some SELECT_TYPE) None None None None
               None None None None) sessions in
        Out (lines ["💰 *New Transaction*"; ""; "1. Expense"; "2. Income"; "";
                    "Reply with 1 or 2."; ""; backHint])
            sessions None
    end
  else if oneOf text ["/recent"; "recent"] then
    Out (getRecentTransactions pf bot) sessions None
  else if oneOf text ["/accounts"; "accounts"] then
    Out (listAccounts bot) sessions None
  else Out getMainMenu sessions None.

Definition handleSelectType (bot : t) (now : Z)
    (userId message : string) (sessions : gmap string UserSession.t)
    : outcome :=
  let text := JS.toLowerCase (JS.trim message) in
  if oneOf text ["1"; "expense"; "expenses"] then
    let '(_, sessions) :=
      State.updateSession now userId
        (UserSession.mkPartial (Some SELECT_ACCOUNT) (Some expense) None None
           None None (Some (accounts bot)) None None) sessions in
    Out (State.formatAccountsList (accounts bot)) sessions None
  else if oneOf text ["2"; "income"] then
    let '(_, sessions) :=
      State.updateSession now userId
        (UserSession.mkPartial (Some SELECT_ACCOUNT) (Some income) None None
           None None (Some (accounts bot)) None None) sessions in
    Out (State.formatAccountsList (accounts bot)) sessions None
  else Out "Please reply with *1* (Expense) or *2* (Income)." sessions None.

(** The selection step of [handleSelectAccount], on the list it uses. *)
Definition selectAccount (accounts : list Account.t) (text : string)
    : selection Account.t :=
  let index := (fun n => n - 1) <$> JS.parseInt text in
  if indexInRange index (List.length accounts) then
    match accounts !! Z.to_nat (default 0 index) with
    | Some a => ByIndex a
    | None => NoMatch
    end
  else
    match List.find (fun a => String.eqb (JS.toLowerCase (Account.name a))
                                (JS.toLowerCase text)) accounts with
    | Some a => ByName a
    | None => NoMatch
    end.

(** [session.accounts || this.accounts] *)
Definition accountsInUse (bot : t) (session : UserSession.t) : list Account.t :=
  match UserSession.accounts session with
  | Some snapshot => snapshot
  | None => accounts bot
  end.

Definition handleSelectAccount (bot : t) (now : Z)
    (userId message : string) (sessions : gmap string UserSession.t)
    : outcome :=
  let '(session, sessions) := State.getSession now userId sessions in
  let text := JS.trim message in
  let accounts := accountsInUse bot session in
  match selected (selectAccount accounts text) with
  | None => Out invalidSelection sessions None
  | Some selectedAccount =>
      let prompt :=
        match UserSession.transactionType session with
        | Some expense =>
            lines ["📝 Enter amount and name."; "";
                   "Example: `25.50 Trader Joe's`"]
        | _ =>
            lines ["📝 Enter amount and name."; ""; "Example: `1500 Salary`"]
        end in
      let '(_, sessions) :=
        State.updateSession now userId
          (UserSession.mkPartial (Some ENTER_DETAILS) None
             (Some (Account.id selectedAccount)) None None None None None None)
          sessions in
      Out (prompt +:+ JS.nl +:+ JS.nl +:+ "Account: *"
           +:+ Account.name selectedAccount +:+ "*" +:+ JS.nl +:+ JS.nl
           +:+ backHint)
          sessions None
  end.

Definition handleEnterDetails (bot : t) (now : Z)
    (userId message : string) (sessions : gmap string UserSession.t)
    : outcome :=
  match Parser.parseTransactionDetails message with
  | None =>
      Out (lines ["❌ Couldn't parse that. Please use format:";
                  "`25.50 Store Name`"])
          sessions None
  | Some parsed =>
      let '(_, sessions) :=
        State.updateSession now userId
          (UserSession.mkPartial (Some SELECT_CATEGORY) None None
             (Some (Parser.amount parsed)) (Some (Parser.name parsed))
             (Some (categories bot)) None None None)
          sessions in
      Out (State.formatCategoriesList (categories bot)) sessions None
  end.

(** The selection step of [handleSelectCategory], on the list it uses. *)
Definition selectCategory (categories : list Category.t) (text : string)
    : selection Category.t :=
  let index := (fun n => n - 1) <$> JS.parseInt text in
  if indexInRange index (List.length categories) then
    match categories !! Z.to_nat (default 0 index) with
    | Some c => ByIndex c
    | None => NoMatch
    end
  else
    match List.find (fun c => String.eqb (JS.toLowerCase (Category.name c))
                                (JS.toLowerCase text)) categories with
    | Some c => ByName c
    | None => NoMatch
    end.

(** The selection step both handlers spell out, over any list of named
    entries. *)
Definition selectFrom {A} (nameOf : A → string) (items : list A)
    (text : string) : selection A :=
  let index := (fun n => n - 1) <$> JS.parseInt text in
  if indexInRange index (List.length items) then
    match items !! Z.to_nat (default 0 index) with
    | Some x => ByIndex x
    | None => NoMatch
    end
  else
    match List.find (fun x => String.eqb (JS.toLowerCase (nameOf x))
                                (JS.toLowerCase text)) items with
    | Some x => ByName x
    | None => NoMatch
    end.

(** The name begins with a digit that is the number of a list entry. *)
Definition beginsWithInRangeDigit (name : string) (len : nat) : bool :=
  match JS.chars name with
  | c :: _ =>
      JS.isDigit c && (1 <=? JS.digitVal c)%N
      && (JS.digitVal c <=? N.of_nat len)%N
  | [] => false
  end.

(** The date of the transaction and the reset after the awaited call read
    the clock at the same instant [now]. *)
Definition handleSelectCategory (pf : Platform.t) (bot : t) (now : Z)
    (userId message : string) (sessions : gmap string UserSession.t)
    : outcome :=
  let '(session, sessions) := State.getSession now userId sessions in
  let text := JS.trim message in
  match selected (selectCategory (categories bot) text) with
  | None => Out invalidSelection sessions None
  | Some selectedCategory =>
      let stored := default JS.NaN (UserSession.amount session) in
      let amount :=
        match UserSession.transactionType session with
        | Some expense => JS.neg (JS.abs stored)
        | _ => JS.abs stored
        end in
      let account :=
        List.find (fun a => bool_decide (Some (Account.id a)
                                         = UserSession.accountId session))
          (accounts bot) in
      let accountName := JS.orElse (Account.name <$> account) "Unknown" in
      let params :=
        CreateTransactionParams.mk
          (UserSession.accountId session)
          (Platform.isoDate pf now)
          amount
          (UserSession.name session)
          (Some (Category.id selectedCategory))
          None
          (natureOf <$> UserSession.transactionType session) in
      match SureAPI.createTransaction (sureApi bot) params with
      | JS.Normal _ =>
          let sessions := State.resetSession now userId sessions in
          let sign := if JS.ltZero amount then "-" else "+" in
          Out (lines ["✅ *Transaction added!*"; "";
                      sign +:+ formatCurrency pf (JS.abs amount) +:+ " - "
                        +:+ default "undefined" (UserSession.name session);
                      "Category: " +:+ Category.name selectedCategory;
                      "Account: " +:+ accountName; "";
                      "Type " +:+ quoted "new" +:+ " to add another."])
              sessions (Some params)
      | JS.Throw error =>
          Out (failedToCreate error) sessions (Some params)
      end
  end.

(** [handleMessage(userId, message)] at the instant [now].  The [default]
    branch of the [switch] is not represented: [ConversationState] has no
    sixth value. *)
Definition handleMessage (pf : Platform.t) (bot : t) (now : Z)
    (userId message : string) (sessions : gmap string UserSession.t)
    : outcome :=
  let '(session, sessions) := State.getSession now userId sessions in
  let text := JS.toLowerCase (JS.trim message) in
  if oneOf text ["/cancel"; "cancel"] then
    Out cancelled (State.resetSession now userId sessions) None
  else if oneOf text ["/back"; "back"; "menu"] then
    Out getMainMenu (State.resetSession now userId sessions) None
  else if oneOf text ["/help"; "help"] then
    Out getHelpMessage sessions None
  else
    match UserSession.state session with
    | IDLE => handleIdle pf bot now userId message sessions
    | SELECT_TYPE => handleSelectType bot now userId message sessions
    | SELECT_ACCOUNT => handleSelectAccount bot now userId message sessions
    | ENTER_DETAILS => handleEnterDetails bot now userId message sessions
    | SELECT_CATEGORY => handleSelectCategory pf bot now userId message sessions
    end.

End Bot.

(** ** index.ts: the objects the process holds and its cleanup timer *)

Module Index.

Record process : Type := mk {
  (** the map [sessions] of state.ts, which [bot.handleMessage] uses *)
  sessions : gmap string UserSession.t;
  (** [const sessionManager = new SessionManager()] *)
  sessionManager : SessionManager.t;
  (** [const rateLimiter = new RateLimiter(30, 60000)] *)
  rateLimiter : RateLimiter.t
}.

(** The callback of the timer armed by [sessionManager.startCleanupInterval()]. *)
Definition cleanupTick (now : Z) (p : process) : process :=
  mk (sessions p)
     (SessionManager.clearExpiredSessions now (sessionManager p))
     (rateLimiter p).

(** A message reaching [bot.handleMessage(sender, text)]. *)
Definition deliver (pf : Platform.t) (bot : Bot.t) (now : Z)
    (sender text : string) (p : process) : Bot.outcome * process :=
  let out := Bot.handleMessage pf bot now sender text (sessions p) in
  (out, mk (Bot.sessions out) (sessionManager p) (rateLimiter p)).

End Index.

(** ** Concrete data used in the examples *)

Module Scenario.

Definition salary : Category.t := Category.mk "c1" "Salary" "income" None None.
Definition food : Category.t := Category.mk "c2" "Food" "expense" None None.
Definition rent : Category.t := Category.mk "c3" "Rent" "expense" None None.

Definition cash : Account.t :=
  Account.mk "a1" "Cash" "depository" (Some "10") None.
Definition bank : Account.t := Account.mk "a2" "Bank" "depository" None None.
Definition downing : Account.t :=
  Account.mk "a3" "10 Downing St" "property" None None.

Definition threeAccounts : list Account.t := [cash; bank; downing].

(** A platform whose renderings are left blank. *)
Definition plainPlatform : Platform.t :=
  Platform.mk (fun _ _ => "") id (fun _ => "").

(** A finance service that accepts every transaction. *)
Definition accepting : SureAPI.t :=
  SureAPI.mk (JS.Normal None) (JS.Normal None)
    (fun _ => JS.Normal []) (fun _ => JS.Normal tt).

(** A finance service that refuses every transaction. *)
Definition refusing : SureAPI.t :=
  SureAPI.mk (JS.Normal None) (JS.Normal None)
    (fun _ => JS.Normal [])
    (fun _ => JS.Throw (JS.mkError "Failed to create transaction: timeout" None)).

(** A session waiting for the category, holding the category list it was
    shown. *)
Definition awaitingCategory (shown : list Category.t) : UserSession.t :=
  UserSession.mk SELECT_CATEGORY (Some expense) (Some "a1")
    (Some (JS.Fin false (Qmake 51 2))) (Some "Coffee")
    (Some shown) (Some [cash]) 0 0.

(** A session waiting for the account, holding the account list it was
    shown. *)
Definition awaitingAccount (shown : list Account.t) : UserSession.t :=
  UserSession.mk SELECT_ACCOUNT (Some expense) None None None
    None (Some shown) 0 0.

(** A flow left at its first question at instant 0. *)
Definition abandoned : UserSession.t :=
  UserSession.mk SELECT_TYPE None None None None None None 0 0.

(** The process as index.ts sets it up, with one abandoned flow in the
    session map of state.ts. *)
Definition process0 : Index.process :=
  Index.mk {["u" := abandoned]}
    (SessionManager.startCleanupInterval
       (SessionManager.constructor SessionManager.defaultSessionTimeoutMs))
    (RateLimiter.mk ∅ 30 60000 (Some (60000 * 2))).

End Scenario.

(** ** Conversations: the messages of a process, one after the other *)

Module Conversation.

(** The position of a state in the flow of one transaction. *)
Definition stage (s : ConversationState) : nat :=
  match s with
  | IDLE => 0
  | SELECT_TYPE => 1
  | SELECT_ACCOUNT => 2
  | ENTER_DETAILS => 3
  | SELECT_CATEGORY => 4
  end.

(** The account a session holds is one of the accounts it was shown. *)
Definition offered (s : UserSession.t) : Prop :=
  ∃ shown a, UserSession.accounts s = Some shown ∧ In a shown
             ∧ UserSession.accountId s = Some (Account.id a).

(** At every stage the session holds the answers of the stages before. *)
Definition complete (s : UserSession.t) : Prop :=
  match UserSession.state s with
  | IDLE | SELECT_TYPE => True
  | SELECT_ACCOUNT =>
      is_Some (UserSession.transactionType s)
      ∧ is_Some (UserSession.accounts s)
  | ENTER_DETAILS =>
      is_Some (UserSession.transactionType s) ∧ offered s
  | SELECT_CATEGORY =>
      is_Some (UserSession.transactionType s) ∧ offered s
      ∧ (∃ x, UserSession.amount s = Some x ∧ JS.isMagnitude x = true)
      ∧ (∃ name, UserSession.name s = Some name
                 ∧ (1 <= String.length name <= 255)%nat)
  end.

(** The object [handleSelectCategory] hands to [createTransaction] for the
    session [s] and the category [c] at the instant [now]. *)
Definition paramsFor (pf : Platform.t) (now : Z) (s : UserSession.t)
    (c : Category.t) : CreateTransactionParams.t :=
  CreateTransactionParams.mk
    (UserSession.accountId s)
    (Platform.isoDate pf now)
    (match UserSession.transactionType s with
     | Some expense => JS.neg (JS.abs (default JS.NaN (UserSession.amount s)))
     | _ => JS.abs (default JS.NaN (UserSession.amount s))
     end)
    (UserSession.name s)
    (Some (Category.id c))
    None
    (natureOf <$> UserSession.transactionType s).

(** A transaction as the engine fills it: an account, a name of 1 to 255
    characters, a category, and an amount with the sign of its nature.
    For an income the amount is a magnitude [x] (a number without sign);
    for an expense it is [-x]: below zero, or [-0] when [x] is 0. *)
Definition wellFormed (p : CreateTransactionParams.t) : Prop :=
  is_Some (CreateTransactionParams.account_id p)
  ∧ (∃ name, CreateTransactionParams.name p = Some name
             ∧ (1 <= String.length name <= 255)%nat)
  ∧ is_Some (CreateTransactionParams.category_id p)
  ∧ ∃ x, JS.isMagnitude x = true
         ∧ ((CreateTransactionParams.nature p = Some natureExpense
             ∧ CreateTransactionParams.amount p = JS.neg x)
            ∨ (CreateTransactionParams.nature p = Some natureIncome
               ∧ CreateTransactionParams.amount p = x)).

(** The list of accounts was printed, by [formatAccountsList], in one of
    the replies. *)
Definition listed (outs : list Bot.outcome) (shown : list Account.t) : Prop :=
  ∃ out, In out outs ∧ Bot.reply out = State.formatAccountsList shown.

(** One incoming message: the instant it is handled, the engine that
    handles it (start() builds a new one after a reconnect), the sender
    and the text. *)
Record message : Type := Msg {
  at_ : Z;
  bot : Bot.t;
  sender : string;
  text : string
}.

(** [bot.handleMessage(sender, text)] on the session map of state.ts; the
    outcomes are collected, the latest last. *)
Definition step (pf : Platform.t)
    (st : list Bot.outcome * gmap string UserSession.t) (m : message)
    : list Bot.outcome * gmap string UserSession.t :=
  let out := Bot.handleMessage pf (bot m) (at_ m) (sender m) (text m) st.2 in
  (st.1 ++ [out], Bot.sessions out).

(** A process from its start: the session map is empty. *)
Definition run (pf : Platform.t) (ms : list message)
    : list Bot.outcome * gmap string UserSession.t :=
  fold_left (step pf) ms ([], ∅).


End Conversation.

(** ** config.ts *)

Module Config.

(** The environment variables [loadConfig] reads; [None] is a variable
    that is not set. *)
Record env : Type := Env {
  SURE_BASE_URL : option string;
  SURE_API_KEY : option string;
  LOG_LEVEL : option string;
  ALLOWED_PHONE_NUMBERS : option string
}.

Record t : Type := mk {
  sureBaseUrl : string;
  sureApiKey : string;
  allowedPhoneNumbers : list string;
  logLevel : string
}.

(** What [loadConfig] writes to the logger. *)
Inductive logLine : Type :=
| LogError (text : string)
| LogWarn (text : string).

Definition validLogLevels : list string :=
  ["fatal"; "error"; "warn"; "info"; "debug"; "trace"].

(** [!x] on a string that may be undefined. *)
Definition falsy (x : option string) : bool :=
  match x with
  | Some (String _ _) => false
  | _ => true
  end.

(** [l.split(sep)] with a one-character separator. *)
Fixpoint splitChars (sep : ascii) (l : list ascii) : list (list ascii) :=
  match l with
  | [] => [[]]
  | c :: l' =>
      if Ascii.eqb c sep then [] :: splitChars sep l'
      else
        match splitChars sep l' with
        | w :: ws => (c :: w) :: ws
        | [] => [[c]]
        end
  end.

Definition split (sep : ascii) (s : string) : list string :=
  map JS.str (splitChars sep (JS.chars s)).

(** [s.replace(/[^0-9]/g, '')] *)
Definition digitsOf (s : string) : string :=
  JS.str (List.filter JS.isDigit (JS.chars s)).

(** The entries of ALLOWED_PHONE_NUMBERS: split at the commas, trimmed,
    the empty ones dropped. *)
Definition entries (e : env) : list string :=
  List.filter (fun n => (0 <? String.length n)%nat)
    (map JS.trim (split "," (JS.orElse (ALLOWED_PHONE_NUMBERS e) ""))).

(** The loop over the entries: the errors pushed and the numbers pushed,
    each in the order of the entries. *)
Fixpoint checkNumbers (nums : list string) : list string * list string :=
  match nums with
  | [] => ([], [])
  | num :: rest =>
      let cleaned := digitsOf num in
      let '(errors, allowed) := checkNumbers rest in
      if (String.length cleaned =? 0)%nat
      then (("Invalid phone number format: " +:+ num) :: errors, allowed)
      else (errors, cleaned :: allowed)
  end.

Definition noNumbersWarning : string :=
  "⚠️  No ALLOWED_PHONE_NUMBERS configured - bot will ignore all messages".

Definition loadConfig (e : env) : list logLine * JS.completion t :=
  let sureBaseUrl := JS.trim <$> SURE_BASE_URL e in
  let errors :=
    if falsy sureBaseUrl then ["SURE_BASE_URL is required"] else [] in
  let sureApiKey := JS.trim <$> SURE_API_KEY e in
  let errors :=
    errors ++ (if falsy sureApiKey then ["SURE_API_KEY is required"] else []) in
  let logLevel := JS.orElse (LOG_LEVEL e) "info" in
  let errors :=
    errors ++
    (if existsb (String.eqb logLevel) validLogLevels then []
     else ["LOG_LEVEL must be one of: " +:+ Format.join ", " validLogLevels
           +:+ ". Got: " +:+ logLevel]) in
  let '(phoneErrors, allowedPhoneNumbers) := checkNumbers (entries e) in
  let errors := errors ++ phoneErrors in
  match errors with
  | _ :: _ =>
      let message :=
        "Configuration validation failed:" +:+ JS.nl
        +:+ Format.join JS.nl (map (fun e => "  - " +:+ e) errors) in
      ([LogError message], JS.Throw (JS.mkError message None))
  | [] =>
      (match allowedPhoneNumbers with
       | [] => [LogWarn noNumbersWarning]
       | _ => []
       end,
       JS.Normal (mk (default "" sureBaseUrl) (default "" sureApiKey)
                    allowedPhoneNumbers logLevel))
  end.

End Config.

(** ** sure-api.ts: class SureAPI, over the HTTP layer

    The HTTP layer (axios and the service behind it) is taken as given:
    for every request it answers with the data of the response or fails
    with an error.  Every method returns the requests it issued together
    with how it ends. *)

Module Http.

(** [error.response] *)
Record AxiosResponse : Type := Response {
  status : Z;
  statusText : string;
  (** [response.data?.message] *)
  dataMessage : option string
}.

(** An error caught by a method: one raised by the HTTP layer, or a plain
    [Error] of the method's own checks, which has no [response]. *)
Record AxiosError : Type := Error {
  message : string;
  response : option AxiosResponse
}.

Inductive result (A : Type) : Type :=
| Ok (data : A)
| Failed (e : AxiosError).
Arguments Ok {A} data.
Arguments Failed {A} e.

(** [response.data] as the list methods read it: an object whose field of
    the expected name holds an array, an array, or anything else that is
    not null. *)
Inductive listing (A : Type) : Type :=
| Wrapped (l : list A)
| Bare (l : list A)
| Neither.
Arguments Wrapped {A} l.
Arguments Bare {A} l.
Arguments Neither {A}.

Inductive request : Type :=
| GET (path : string) (limit : option JS.num)
| POST (path : string) (transaction : CreateTransactionParams.t)
| DELETE (path : string).

Record t : Type := mk {
  getAccounts : result (listing Account.t);
  getCategories : result (listing Category.t);
  getTransactions : JS.num -> result (listing Transaction.t);
  postTransaction : CreateTransactionParams.t -> result Transaction.t;
  deleteTransaction : string -> result unit;
  (** [!isNaN(new Date(s).getTime())] *)
  dateParses : string -> bool
}.

End Http.

Module Client.

Record t : Type := mk {
  baseUrl : string;
  apiKey : string;
  requestTimeout : Z;
  http : Http.t
}.

Definition constructor (http : Http.t) (baseUrl apiKey : string)
    : JS.completion t :=
  match baseUrl with
  | EmptyString => JS.Throw (JS.mkError "baseUrl is required" None)
  | _ =>
      match apiKey with
      | EmptyString => JS.Throw (JS.mkError "apiKey is required" None)
      | _ => JS.Normal (mk baseUrl apiKey 30000 http)
      end
  end.

(** [new Error(text)], as a method's own check throws it. *)
Definition plain (text : string) : Http.AxiosError := Http.Error text None.

Definition formatErrorMessage (error : Http.AxiosError) : string :=
  match Http.response error with
  | Some r =>
      match Http.dataMessage r with
      | Some (String c m) => String c m
      | _ =>
          match Http.statusText r with
          | String c m => String c m
          | EmptyString => Http.message error
          end
      end
  | None => Http.message error
  end.

(** [response.data.field || response.data]; [None] is a value that is not
    an array. *)
Definition listed {A} (d : Http.listing A) : option (list A) :=
  match d with
  | Http.Wrapped l | Http.Bare l => Some l
  | Http.Neither => None
  end.

Definition getAccounts (c : t)
    : list Http.request * JS.completion (option (list Account.t)) :=
  ([Http.GET "/api/v1/accounts" None],
   match Http.getAccounts (http c) with
   | Http.Ok d => JS.Normal (listed d)
   | Http.Failed error =>
       JS.Throw (JS.mkError ("Failed to fetch accounts: "
                             +:+ formatErrorMessage error) None)
   end).

Definition getCategories (c : t)
    : list Http.request * JS.completion (option (list Category.t)) :=
  ([Http.GET "/api/v1/categories" None],
   match Http.getCategories (http c) with
   | Http.Ok d => JS.Normal (listed d)
   | Http.Failed error =>
       JS.Throw (JS.mkError ("Failed to fetch categories: "
                             +:+ formatErrorMessage error) None)
   end).

(** [Number.isInteger(x)] *)
Definition isInteger (x : JS.num) : bool :=
  match x with
  | JS.Fin _ q => (Qden (Qred q) =? 1)%positive
  | _ => false
  end.

(** [x < n] and [x > n] for an integer [n]; both are false on NaN. *)
Definition ltInt (x : JS.num) (n : Z) : bool :=
  match x with
  | JS.NaN => false
  | JS.Inf neg => neg
  | JS.Fin neg q =>
      negb (Qle_bool (inject_Z n) (if neg then Qopp q else q))
  end.

Definition gtInt (x : JS.num) (n : Z) : bool :=
  match x with
  | JS.NaN => false
  | JS.Inf neg => negb neg
  | JS.Fin neg q =>
      negb (Qle_bool (if neg then Qopp q else q) (inject_Z n))
  end.

Definition limitError : string := "Limit must be an integer between 1 and 100".

Definition getTransactions (c : t) (limit : JS.num)
    : list Http.request * JS.completion (option (list Transaction.t)) :=
  let failed error :=
    JS.Throw (JS.mkError ("Failed to fetch transactions: "
                          +:+ formatErrorMessage error) None) in
  if (negb (isInteger limit) || ltInt limit 1 || gtInt limit 100)%bool
  then ([], failed (plain limitError))
  else
    ([Http.GET "/api/v1/transactions" (Some limit)],
     match Http.getTransactions (http c) limit with
     | Http.Ok d => JS.Normal (listed d)
     | Http.Failed error => failed error
     end).

(** The checks of [createTransaction], in their order: the message of the
    first one that fails. *)
Definition invalid (c : t) (params : CreateTransactionParams.t)
    : option string :=
  if Config.falsy (CreateTransactionParams.account_id params)
  then Some "account_id is required"
  else
    match CreateTransactionParams.date params with
    | EmptyString => Some "date is required"
    | _ =>
        if Config.falsy (CreateTransactionParams.name params)
        then Some "name is required"
        else if (255 <? String.length
                          (default "" (CreateTransactionParams.name params)))%nat
        then Some "name must be 255 characters or less"
        else if Http.dateParses (http c) (CreateTransactionParams.date params)
        then None
        else Some "date must be a valid ISO 8601 date"
    end.

(** The [catch] block of [createTransaction]. *)
Definition createFailed (error : Http.AxiosError) : JS.Error :=
  if JS.isPrefix (JS.chars "Failed to fetch") (JS.chars (Http.message error))
  then JS.mkError (Http.message error)
         (Http.response error ≫= Http.dataMessage)
  else
    let message :=
      JS.orElse (Http.response error ≫= Http.dataMessage)
        (formatErrorMessage error) in
    JS.mkError ("Failed to create transaction: " +:+ message) None.

Definition createTransaction (c : t) (params : CreateTransactionParams.t)
    : list Http.request * JS.completion Transaction.t :=
  match invalid c params with
  | Some text => ([], JS.Throw (createFailed (plain text)))
  | None =>
      ([Http.POST "/api/v1/transactions" params],
       match Http.postTransaction (http c) params with
       | Http.Ok data => JS.Normal data
       | Http.Failed error => JS.Throw (createFailed error)
       end)
  end.

Definition deleteTransaction (c : t) (id : string)
    : list Http.request * JS.completion unit :=
  let failed error :=
    JS.Throw (JS.mkError ("Failed to delete transaction: "
                          +:+ formatErrorMessage error) None) in
  match id with
  | EmptyString => ([], failed (plain "Transaction ID is required"))
  | _ =>
      ([Http.DELETE ("/api/v1/transactions/" +:+ id)],
       match Http.deleteTransaction (http c) id with
       | Http.Ok _ => JS.Normal tt
       | Http.Failed error => failed error
       end)
  end.

End Client.

(** ** index.ts: the handler of incoming messages

    The body of the loop of the [messages.upsert] handler, for one
    message.  The socket is taken as given; log lines are not
    represented. *)

Module Socket.
Record t : Type := mk {
  (** [socket.sendMessage(jid, { text })]: the id of the message sent,
      [sent?.key?.id], or an error *)
  sendMessage : string -> string -> JS.completion (option string)
}.
End Socket.

Module Inbox.

(** [msg.message] *)
Record content : Type := Content {
  conversation : option string;
  extendedText : option string
}.

Record WAMessage : Type := WA {
  message : option content;
  (** [msg.key.id] *)
  keyId : option string;
  (** [msg.key.remoteJid] *)
  remoteJid : option string
}.

(** What the handler shares between messages: the ids of the messages it
    sent, the limiter, and the session map of state.ts. *)
Record state : Type := St {
  sentMessageIds : gset string;
  rateLimiter : RateLimiter.t;
  sessions : gmap string UserSession.t
}.

(** What [start] set up. *)
Record setup : Type := Setup {
  config : Config.t;
  pf : Platform.t;
  bot : Bot.t;
  botReady : bool;
  socket : Socket.t
}.

(** The instants at which the clock is read while one message is handled:
    by [isAllowed], by [getRemaining], and by the engine. *)
Record clock : Type := Clock {
  atLimit : Z;
  atRemaining : Z;
  atHandle : Z
}.

(** [if (sent?.key?.id) sentMessageIds.add(sent.key.id)] *)
Definition remember (id : option string) (st : state) : state :=
  match id with
  | Some (String c r) =>
      St ({[String c r]} ∪ sentMessageIds st) (rateLimiter st) (sessions st)
  | _ => st
  end.

Definition errorText : string := "❌ An error occurred. Please try again.".

(** The [catch] block, after the attempts to send in [sends]. *)
Definition onError (w : setup) (msg : WAMessage) (sends : list (string * string))
    (st : state) : list (string * string) * state :=
  match remoteJid msg with
  | Some (String c r) =>
      let sender := String c r in
      match Socket.sendMessage (socket w) sender errorText with
      | JS.Normal id => (sends ++ [(sender, errorText)], remember id st)
      | JS.Throw _ => (sends ++ [(sender, errorText)], st)
      end
  | _ => (sends, st)
  end.

(** One reply inside the [try] block: the attempts to send, in order, and
    the state left. *)
Definition send (w : setup) (msg : WAMessage) (jid text : string) (st : state)
    : list (string * string) * state :=
  match Socket.sendMessage (socket w) jid text with
  | JS.Normal id => ([(jid, text)], remember id st)
  | JS.Throw _ => onError w msg [(jid, text)] st
  end.

(** [sender.split('@')[0].replace(/[^0-9]/g, '')] *)
Definition phoneNumberOf (sender : string) : string :=
  Config.digitsOf (hd "" (Config.split "@" sender)).

(** [config.allowedPhoneNumbers.length > 0
     && !config.allowedPhoneNumbers.includes(phoneNumber)] *)
Definition unauthorized (w : setup) (phoneNumber : string) : bool :=
  (0 <? List.length (Config.allowedPhoneNumbers (config w)))%nat
  && negb (existsb (String.eqb phoneNumber)
             (Config.allowedPhoneNumbers (config w))).

Definition tooManyRequests (remaining : Z) : string :=
  "⚠️ Too many requests. Please wait a moment. (Remaining: "
  +:+ pretty remaining +:+ " messages in next minute)".

Definition notConfigured : string :=
  "⚠️ Sure.am not configured. Please check .env file.".

(** [msg.message?.conversation || msg.message?.extendedTextMessage?.text || ''] *)
Definition textOf (c : content) : string :=
  JS.orElse (conversation c) (JS.orElse (extendedText c) "").

(** One call of [bot.handleMessage]: its arguments and what it did. *)
Record engineCall : Type := Call {
  callUser : string;
  callText : string;
  callResult : Bot.outcome
}.

(** The body of the loop for one message: the attempts to send, in
    order, the state left, and the calls of [bot.handleMessage]. *)
Definition handle (w : setup) (c : clock) (msg : WAMessage) (st : state)
    : list (string * string) * state * list engineCall :=
  match message msg with
  | None => ([], st, [])
  | Some body =>
      if match keyId msg with
         | Some (String a r) =>
             bool_decide (String a r ∈ sentMessageIds st)
         | _ => false
         end
      then
        ([], St (sentMessageIds st ∖ {[default "" (keyId msg)]})
                (rateLimiter st) (sessions st), [])
      else
        match remoteJid msg with
        | Some (String a r) =>
            let sender := String a r in
            let phoneNumber := phoneNumberOf sender in
            if (String.length phoneNumber =? 0)%nat then ([], st, [])
            else if unauthorized w phoneNumber then ([], st, [])
            else
              let '(allowed, limiter) :=
                RateLimiter.isAllowed (atLimit c) phoneNumber (rateLimiter st) in
              let st := St (sentMessageIds st) limiter (sessions st) in
              if negb allowed then
                let remaining :=
                  RateLimiter.getRemaining (atRemaining c) phoneNumber limiter in
                (send w msg sender (tooManyRequests remaining) st, [])
              else
                match textOf body with
                | EmptyString => ([], st, [])
                | text =>
                    if negb (botReady w)
                    then (send w msg sender notConfigured st, [])
                    else
                      let out :=
                        Bot.handleMessage (pf w) (bot w) (atHandle c) sender
                          text (sessions st) in
                      (send w msg sender (Bot.reply out)
                         (St (sentMessageIds st) (rateLimiter st)
                             (Bot.sessions out)),
                       [Call sender text out])
                end
        | _ => ([], st, [])
        end
  end.

(** The attempts to send and the state left. *)
Definition onMessage (w : setup) (c : clock) (msg : WAMessage) (st : state)
    : list (string * string) * state :=
  (handle w c msg st).1.

(** The calls of [bot.handleMessage]. *)
Definition engineCalls (w : setup) (c : clock) (msg : WAMessage) (st : state)
    : list engineCall :=
  (handle w c msg st).2.

(** The identity [isAllowed] is asked about for a message, when the
    handler gets that far: the message has a body, is not one the handler
    sent, and its sender has a number that the allow-list lets through. *)
Definition attempt (w : setup) (msg : WAMessage) (st : state) : option string :=
  match message msg with
  | None => None
  | Some _ =>
      if match keyId msg with
         | Some (String a r) =>
             bool_decide (String a r ∈ sentMessageIds st)
         | _ => false
         end
      then None
      else
        match remoteJid msg with
        | Some (String a r) =>
            let phoneNumber := phoneNumberOf (String a r) in
            if (String.length phoneNumber =? 0)%nat then None
            else if unauthorized w phoneNumber then None
            else Some phoneNumber
        | _ => None
        end
  end.

(** The attempt the limiter admits for a message, with its instant: the
    only messages that go on to the text check and the engine. *)
Definition admitted (w : setup) (c : clock) (msg : WAMessage) (st : state)
    : list (Z * string) :=
  match attempt w msg st with
  | Some phoneNumber =>
      if (RateLimiter.isAllowed (atLimit c) phoneNumber (rateLimiter st)).1
      then [(atLimit c, phoneNumber)]
      else []
  | None => []
  end.

(** The admitted attempts of a sequence of messages handled from the
    state [st], in order. *)
Fixpoint journal (ms : list (setup * clock * WAMessage)) (st : state)
    : list (Z * string) :=
  match ms with
  | [] => []
  | (w, c, msg) :: ms' =>
      admitted w c msg st ++ journal ms' (onMessage w c msg st).2
  end.

(** The messages of a process, one after the other, from its start: no
    message sent yet, the limiter [new RateLimiter(30, 60000)], no
    session.  The attempts to send are collected in order. *)
Definition start : state :=
  St ∅ (RateLimiter.mk ∅ 30 60000 (Some (60000 * 2))) ∅.

Definition step (acc : list (string * string) * state)
    (m : setup * clock * WAMessage) : list (string * string) * state :=
  let '(w, c, msg) := m in
  let '(sends, st) := onMessage w c msg acc.2 in
  (acc.1 ++ sends, st).

Definition run (ms : list (setup * clock * WAMessage))
    : list (string * string) * state :=
  fold_left step ms ([], start).

End Inbox.

(** ** A conversation used in the examples *)

Module Dialogue.
Import Scenario.

(** An engine that knows one account and two categories. *)
Definition shopBot : Bot.t := Bot.mk accepting [food; salary] [cash].

(** One expense entered from start to end. *)
Definition lunch : list Conversation.message :=
  [Conversation.Msg 1 shopBot "u" "new";
   Conversation.Msg 2 shopBot "u" "1";
   Conversation.Msg 3 shopBot "u" "1";
   Conversation.Msg 4 shopBot "u" "12.50 Lunch";
   Conversation.Msg 5 shopBot "u" "1"].

(** A platform that prints the day of the message. *)
Definition calendar : Platform.t :=
  Platform.mk (fun _ _ => "") id (fun _ => "2024-05-01").

(** A service that takes every request, and knows that day. *)
Definition service : Http.t :=
  Http.mk (Http.Ok (Http.Bare [cash])) (Http.Ok (Http.Wrapped [food; salary]))
    (fun _ => Http.Ok (Http.Bare []))
    (fun p => Http.Ok (Transaction.mk "t1" (CreateTransactionParams.date p) ""
                         "USD" "" None "" None None None "" ""))
    (fun _ => Http.Ok tt)
    (String.eqb "2024-05-01").

Definition client : Client.t :=
  Client.mk "https://sure.example" "key" 30000 service.

(** A socket that sends everything and numbers nothing, and one that
    gives every message sent the id [m1]. *)
Definition quiet : Socket.t := Socket.mk (fun _ _ => JS.Normal None).
Definition numbering : Socket.t := Socket.mk (fun _ _ => JS.Normal (Some "m1")).

(** The handler as [start] sets it up, for two allowed numbers. *)
Definition desk : Inbox.setup :=
  Inbox.Setup (Config.mk "https://sure.example" "key"
                 ["15550109999"; "4915112345678"] "info")
    calendar shopBot true numbering.

Definition noon : Inbox.clock := Inbox.Clock 100 100 100.

Definition hello (jid : string) : Inbox.WAMessage :=
  Inbox.WA (Some (Inbox.Content (Some "new") None)) (Some "k1") (Some jid).

End Dialogue.

(** * Properties *)

(** Case analysis over the 256 code units. *)
Ltac each_char c := destruct c as [[] [] [] [] [] [] [] []].

(** ** Strings and numbers *)

Section JSFacts.

Lemma chars_str l : JS.chars (JS.str l) = l.
Proof. apply list_ascii_of_string_of_list_ascii. Qed.

Lemma str_chars s : JS.str (JS.chars s) = s.
Proof. apply string_of_list_ascii_of_string. Qed.

Lemma lowerChar_white c : JS.isWhiteSpace (JS.lowerChar c) = JS.isWhiteSpace c.
Proof. each_char c; reflexivity. Qed.

Lemma lowerChar_minus c : Ascii.eqb (JS.lowerChar c) "-" = Ascii.eqb c "-".
Proof. each_char c; reflexivity. Qed.

Lemma lowerChar_plus c : Ascii.eqb (JS.lowerChar c) "+" = Ascii.eqb c "+".
Proof. each_char c; reflexivity. Qed.

Lemma lowerChar_zero c : Ascii.eqb (JS.lowerChar c) "0" = Ascii.eqb c "0".
Proof. each_char c; reflexivity. Qed.

Lemma lowerChar_x c :
  (Ascii.eqb (JS.lowerChar c) "x" || Ascii.eqb (JS.lowerChar c) "X")%bool
  = (Ascii.eqb c "x" || Ascii.eqb c "X")%bool.
Proof. each_char c; reflexivity. Qed.

Lemma lowerChar_hexVal c : JS.hexVal (JS.lowerChar c) = JS.hexVal c.
Proof. each_char c; reflexivity. Qed.

Lemma lowerChar_isDigit c : JS.isDigit (JS.lowerChar c) = JS.isDigit c.
Proof. each_char c; reflexivity. Qed.

Lemma lowerChar_digit c : JS.isDigit c = true → JS.lowerChar c = c.
Proof. each_char c; first [reflexivity | discriminate]. Qed.

Lemma dropWhile_all p (pre l : list ascii) :
  Forall (λ x, p x = true) pre → JS.dropWhile p (pre ++ l) = JS.dropWhile p l.
Proof. induction 1 as [|a pre Ha _ IH]; [done |]. simpl. by rewrite Ha. Qed.

Lemma dropWhile_stop p a (l : list ascii) :
  p a = false → JS.dropWhile p (a :: l) = a :: l.
Proof. intros Ha. simpl. by rewrite Ha. Qed.

Lemma dropWhile_whole p (l : list ascii) :
  Forall (λ x, p x = true) l → JS.dropWhile p l = [].
Proof. induction 1 as [|a l Ha _ IH]; [done |]. simpl. by rewrite Ha. Qed.

Lemma takeWhile_all p (pre l : list ascii) :
  Forall (λ x, p x = true) pre →
  JS.takeWhile p (pre ++ l) = pre ++ JS.takeWhile p l.
Proof. induction 1 as [|a pre Ha _ IH]; [done |]. simpl. by rewrite Ha, IH. Qed.

Lemma takeWhile_whole p (l : list ascii) :
  Forall (λ x, p x = true) l → JS.takeWhile p l = l.
Proof. induction 1 as [|a l Ha _ IH]; [done |]. simpl. by rewrite Ha, IH. Qed.

Lemma removeFirst_absent x (l : list ascii) :
  Forall (λ a, Ascii.eqb a x = false) l → JS.removeFirst x l = l.
Proof. induction 1 as [|a l Ha _ IH]; [done |]. simpl. by rewrite Ha, IH. Qed.

Lemma dropWhile_white_lower l :
  JS.dropWhile JS.isWhiteSpace (map JS.lowerChar l)
  = map JS.lowerChar (JS.dropWhile JS.isWhiteSpace l).
Proof.
  induction l as [|c l IH]; [reflexivity |]. simpl.
  rewrite lowerChar_white. destruct (JS.isWhiteSpace c); [exact IH | reflexivity].
Qed.

Lemma readSign_lower l :
  JS.readSign (map JS.lowerChar l)
  = ((JS.readSign l).1, map JS.lowerChar (JS.readSign l).2).
Proof.
  destruct l as [|c l]; [reflexivity |]. simpl.
  rewrite lowerChar_minus, lowerChar_plus.
  destruct (Ascii.eqb c "-"); [reflexivity |].
  destruct (Ascii.eqb c "+"); reflexivity.
Qed.

Lemma stripHexPrefix_lower l :
  JS.stripHexPrefix (map JS.lowerChar l) = map JS.lowerChar <$> JS.stripHexPrefix l.
Proof.
  destruct l as [|a [|b l]]; try reflexivity. simpl.
  rewrite lowerChar_zero, lowerChar_x.
  destruct (_ && _)%bool; reflexivity.
Qed.

Lemma takeHex_lower l : JS.takeHex (map JS.lowerChar l) = JS.takeHex l.
Proof.
  induction l as [|c l IH]; [reflexivity |]. simpl.
  rewrite lowerChar_hexVal, IH. reflexivity.
Qed.

Lemma takeDec_lower l : JS.takeDec (map JS.lowerChar l) = JS.takeDec l.
Proof.
  unfold JS.takeDec. induction l as [|c l IH]; [reflexivity |]. simpl.
  rewrite lowerChar_isDigit. destruct (JS.isDigit c) eqn:Hc; [| reflexivity].
  simpl. rewrite IH, (lowerChar_digit c Hc). reflexivity.
Qed.

(** [parseInt] does not see the letter case. *)
Lemma parseInt_toLowerCase s : JS.parseInt (JS.toLowerCase s) = JS.parseInt s.
Proof.
  unfold JS.parseInt, JS.toLowerCase. rewrite chars_str.
  unfold JS.parseIntChars.
  rewrite dropWhile_white_lower, readSign_lower.
  destruct (JS.readSign _) as [neg l]; simpl.
  rewrite stripHexPrefix_lower.
  destruct (JS.stripHexPrefix l) as [l'|]; simpl.
  - by rewrite takeHex_lower.
  - by rewrite takeDec_lower.
Qed.

Lemma parseIntChars_head c l k :
  JS.parseIntChars (c :: l) = Some k → JS.startsNumber c = true.
Proof.
  each_char c; try (intros _; reflexivity);
    unfold JS.parseIntChars; simpl; destruct l; simpl; discriminate.
Qed.

(** *** Rounding to a double *)

(** [roundHalfEven T U] is an integer nearest to [T / U]. *)
Lemma roundHalfEven_nearest T U :
  0 <= T → 0 < U →
  0 <= JS.roundHalfEven T U
  ∧ T / U <= JS.roundHalfEven T U <= T / U + 1
  ∧ ∀ j, Z.abs (JS.roundHalfEven T U * U - T) <= Z.abs (j * U - T).
Proof.
  intros HT HU. unfold JS.roundHalfEven.
  pose proof (Z.div_mod T U ltac:(lia)) as Hdm.
  pose proof (Z.mod_pos_bound T U HU) as Hr.
  pose proof (Z.div_pos T U HT HU) as Hk.
  set (k := T / U) in *. set (r := T mod U) in *.
  assert (Hj : ∀ j, j <= k → Z.abs (j * U - T) >= r) by (intros j Hj; nia).
  assert (Hj' : ∀ j, k + 1 <= j → Z.abs (j * U - T) >= U - r)
    by (intros j Hj'; nia).
  assert (Hall : ∀ j, Z.abs (j * U - T) >= r ∨ Z.abs (j * U - T) >= U - r).
  { intros j.
    destruct (Z_le_gt_dec j k); [left; by apply Hj | right; apply Hj'; lia]. }
  assert (Hk0 : Z.abs (k * U - T) = r) by nia.
  assert (Hk1 : Z.abs ((k + 1) * U - T) = U - r) by nia.
  destruct (Z.ltb_spec (2 * r) U).
  { split; [lia |]. split; [lia |]. intros j. rewrite Hk0.
    destruct (Hall j); lia. }
  destruct (Z.ltb_spec U (2 * r)).
  { split; [lia |]. split; [lia |]. intros j. rewrite Hk1.
    destruct (Hall j); lia. }
  destruct (Z.even k).
  { split; [lia |]. split; [lia |]. intros j. rewrite Hk0.
    destruct (Hall j); lia. }
  split; [lia |]. split; [lia |]. intros j. rewrite Hk1.
  destruct (Hall j); lia.
Qed.

Lemma roundHalfEven_up T U :
  0 < U → JS.roundHalfEven T U = T / U + 1 → U <= 2 * (T mod U).
Proof.
  intros HU. unfold JS.roundHalfEven.
  destruct (Z.ltb_spec (2 * (T mod U)) U); [lia |]. done.
Qed.

Lemma roundHalfEven_odd T U :
  0 < U → Z.even (T / U) = false → U <= 2 * (T mod U) →
  JS.roundHalfEven T U = T / U + 1.
Proof.
  intros HU Hodd Hr. unfold JS.roundHalfEven.
  destruct (Z.ltb_spec (2 * (T mod U)) U); [lia |].
  destruct (Z.ltb_spec U (2 * (T mod U))); [done |].
  by rewrite Hodd.
Qed.

(** Only the quotient matters. *)
Lemma roundHalfEven_scale c T U :
  0 < c → 0 < U → JS.roundHalfEven (T * c) (U * c) = JS.roundHalfEven T U.
Proof.
  intros Hc HU. unfold JS.roundHalfEven.
  rewrite Z.div_mul_cancel_r, Z.mul_mod_distr_r by lia.
  pose proof (Z.mod_pos_bound T U HU) as Hr.
  set (k := T / U). set (r := T mod U) in *.
  destruct (Z.ltb_spec (2 * (r * c)) (U * c)), (Z.ltb_spec (2 * r) U);
    [done | nia | nia |].
  destruct (Z.ltb_spec (U * c) (2 * (r * c))), (Z.ltb_spec U (2 * r));
    [done | nia | nia | done].
Qed.

Lemma pow2_scale e :
  -1074 <= e →
  2 ^ Z.max 0 (- e) * 2 ^ (1074 - Z.max 0 (- e)) = 2 ^ 1074
  ∧ 2 ^ Z.max 0 e * 2 ^ (1074 - Z.max 0 (- e)) = 2 ^ (e + 1074)
  ∧ 0 < 2 ^ (1074 - Z.max 0 (- e)).
Proof.
  intros He. rewrite <- !Z.pow_add_r by lia.
  split; [f_equal; lia |]. split; [f_equal; lia |].
  apply Z.pow_pos_nonneg; lia.
Qed.

(** The exponent chosen for [n / d] leaves a significand below [2^53],
    and one of [2^52] at least above the subnormal range. *)
Lemma ulpExponent_bounds n d :
  0 < n → 0 < d →
  let e := JS.ulpExponent n d in
  let U := d * 2 ^ (e + 1074) in
  let T := n * 2 ^ 1074 in
  -1074 <= e ∧ T < 2 ^ 53 * U ∧ (-1074 < e → 2 ^ 52 * U <= T).
Proof.
  intros Hn Hd. cbv zeta. unfold JS.ulpExponent.
  pose proof (Z.log2_spec n Hn) as [Hn1 Hn2].
  pose proof (Z.log2_spec d Hd) as [Hd1 Hd2].
  pose proof (Z.log2_nonneg n) as Hln. pose proof (Z.log2_nonneg d) as Hld.
  set (ln := Z.log2 n) in *. set (ld := Z.log2 d) in *.
  set (e0 := ln - ld - 52).
  set (D := 2 ^ 1074).
  assert (HD : 0 < D) by (by apply Z.pow_pos_nonneg).
  assert (F1 : ∀ e, e0 <= e → -1074 <= e →
                    n * D < 2 ^ 53 * (d * 2 ^ (e + 1074))).
  { intros e H0 H1.
    assert (HE : 0 < 2 ^ (e + 1074)) by (apply Z.pow_pos_nonneg; lia).
    assert (H2 : 2 ^ Z.succ ln * D <= 2 ^ 53 * (2 ^ ld * 2 ^ (e + 1074))).
    { unfold D. rewrite <- !Z.pow_add_r by lia. apply Z.pow_le_mono_r; lia. }
    assert (n * D < 2 ^ Z.succ ln * D) by (by apply Z.mul_lt_mono_pos_r).
    assert (2 ^ ld * 2 ^ (e + 1074) <= d * 2 ^ (e + 1074))
      by (apply Z.mul_le_mono_nonneg_r; lia).
    lia. }
  assert (F2 : -1074 <= e0 - 1 → 2 ^ 52 * (d * 2 ^ (e0 - 1 + 1074)) <= n * D).
  { intros H1.
    assert (HE : 0 < 2 ^ (e0 - 1 + 1074)) by (apply Z.pow_pos_nonneg; lia).
    assert (H2 : 2 ^ 52 * (2 ^ Z.succ ld * 2 ^ (e0 - 1 + 1074)) = 2 ^ ln * D).
    { unfold D. rewrite <- !Z.pow_add_r by lia. f_equal. lia. }
    assert (2 ^ ln * D <= n * D) by (apply Z.mul_le_mono_nonneg_r; lia).
    assert (d * 2 ^ (e0 - 1 + 1074) < 2 ^ Z.succ ld * 2 ^ (e0 - 1 + 1074))
      by (by apply Z.mul_lt_mono_pos_r).
    lia. }
  assert (F3 : -1074 <= e0 →
               (n * 2 ^ Z.max 0 (- e0) < 2 ^ 52 * (d * 2 ^ Z.max 0 e0)
                ↔ n * D < 2 ^ 52 * (d * 2 ^ (e0 + 1074)))).
  { intros H1. destruct (pow2_scale e0 H1) as (Ha & Hb & Hc).
    fold D in Ha. rewrite <- Ha, <- Hb.
    set (c := 2 ^ (1074 - Z.max 0 (- e0))) in *.
    rewrite (Z.mul_lt_mono_pos_r c) by done.
    replace (n * (2 ^ Z.max 0 (- e0) * c))
      with (n * 2 ^ Z.max 0 (- e0) * c) by lia.
    replace (2 ^ 52 * (d * (2 ^ Z.max 0 e0 * c)))
      with (2 ^ 52 * (d * 2 ^ Z.max 0 e0) * c) by lia.
    done. }
  destruct (Z.ltb_spec (n * 2 ^ Z.max 0 (- e0))
                       (2 ^ 52 * (d * 2 ^ Z.max 0 e0))) as [Hc|Hc].
  - destruct (Z.max_spec (e0 - 1) (-1074)) as [[Hm ->]|[Hm ->]].
    + split; [lia |]. split; [apply F1; lia | lia].
    + split; [lia |]. split; [| intros _; by apply F2].
      apply F3 in Hc; [| lia].
      replace (e0 + 1074) with (Z.succ (e0 - 1 + 1074)) in Hc by lia.
      rewrite Z.pow_succ_r in Hc by lia. lia.
  - destruct (Z.max_spec e0 (-1074)) as [[Hm ->]|[Hm ->]].
    + split; [lia |]. split; [apply F1; lia | lia].
    + split; [lia |]. split; [apply F1; lia |]. intros _.
      apply Z.nlt_ge. intros Hlt. apply F3 in Hlt; [lia | lia].
Qed.

Lemma Qabs_diff a p q :
  Qabs (Qmake a p - q)
  = Qmake (Z.abs (a * Zpos (Qden q) - Qnum q * Zpos p)) (p * Qden q).
Proof.
  destruct q as [n d]. unfold Qminus, Qplus, Qopp, Qabs. cbn [Qnum Qden].
  f_equal. f_equal. lia.
Qed.

Lemma dyadic_closer a b p q :
  Z.abs (a * Zpos (Qden q) - Qnum q * Zpos p)
  <= Z.abs (b * Zpos (Qden q) - Qnum q * Zpos p) →
  (Qabs (Qmake a p - q) <= Qabs (Qmake b p - q))%Q.
Proof.
  intros H. rewrite !Qabs_diff. unfold Qle. cbn [Qnum Qden].
  apply Z.mul_le_mono_nonneg_r; [lia | done].
Qed.

(** [toDouble] rounds to nearest, and overflows from [2^1024 - 2^970]
    on. *)
Lemma toDouble_rounds q : 0 <= Qnum q → JS.rounds q (JS.toDouble false q).
Proof.
  destruct q as [n d]. cbn [Qnum]. intros Hn.
  unfold JS.toDouble. cbn [Qnum Qden]. cbv zeta.
  assert (HD : 0 < 2 ^ 1074) by (by apply Z.pow_pos_nonneg).
  assert (HP : Zpos (Z.to_pos (2 ^ 1074)) = 2 ^ 1074) by (by apply Z2Pos.id).
  destruct (Z.leb_spec n 0) as [Hz|Hpos].
  { assert (n = 0) as -> by lia.
    split; [done |]. split.
    { exists 0, 0. split; [by split |]. split; [lia |].
      by unfold JS.dyadic, Qeq. }
    split.
    { unfold Qlt, JS.dyadic. cbn [Qnum Qden]. rewrite Z.mul_0_l.
      apply Z.mul_pos_pos; [| done].
      apply Z.mul_pos_pos; [done | by apply Z.pow_pos_nonneg]. }
    intros y _. apply Qle_trans with 0%Q; [| apply Qabs_nonneg].
    by unfold Qle. }
  pose proof (ulpExponent_bounds n (Zpos d) Hpos eq_refl) as (He & Hlt & Hge).
  set (e := JS.ulpExponent n (Zpos d)) in *.
  destruct (pow2_scale e He) as (Hs1 & Hs2 & Hc).
  rewrite <- (roundHalfEven_scale (2 ^ (1074 - Z.max 0 (- e))))
    by (done || (apply Z.mul_pos_pos; [done | apply Z.pow_pos_nonneg; lia])).
  rewrite <- !Z.mul_assoc, Hs1, Hs2. clear Hs1 Hs2 Hc.
  set (T := n * 2 ^ 1074) in *.
  set (U := Z.pos d * 2 ^ (e + 1074)) in *.
  assert (HE : 0 < 2 ^ (e + 1074)) by (apply Z.pow_pos_nonneg; lia).
  assert (HU : 0 < U) by (subst U; apply Z.mul_pos_pos; done).
  assert (HT : 0 <= T) by (subst T; apply Z.mul_nonneg_nonneg; lia).
  pose proof (roundHalfEven_nearest T U HT HU) as (Hm0 & Hm & Hnear).
  pose proof (roundHalfEven_up T U HU) as Hup.
  pose proof (roundHalfEven_odd T U HU) as Hodd.
  set (m := JS.roundHalfEven T U) in *.
  set (E := 2 ^ (e + 1074)) in *.
  assert (Hk : T / U < 2 ^ 53) by (apply Z.div_lt_upper_bound; lia).
  assert (Hdm : T = U * (T / U) + T mod U) by (apply Z.div_mod; lia).
  assert (Hr : 0 <= T mod U < U) by (by apply Z.mod_pos_bound).
  set (A := 2 ^ 2044).
  assert (HA : 0 < A) by (by apply Z.pow_pos_nonneg).
  assert (Hsmall : e <= 970 → E <= A).
  { intros ?. apply Z.pow_le_mono_r; lia. }
  assert (Hmid : e = 971 → E = 2 * A).
  { intros He'. unfold E, A. rewrite He'.
    change (971 + 1074) with (Z.succ 2044). by rewrite Z.pow_succ_r. }
  assert (Hlarge : 972 <= e → 4 * A <= E).
  { intros ?. unfold A, E. change 4 with (2 ^ 2).
    rewrite <- Z.pow_add_r by lia. apply Z.pow_le_mono_r; lia. }
  assert (Hthr : JS.dyadic (2 ^ 54 - 1) 970
                 = Qmake ((2 ^ 54 - 1) * A) (Z.to_pos (2 ^ 1074))) by done.
  clearbody A.
  assert (Hn53 : T / U = 2 ^ 53 - 1 → U <= 2 * (T mod U) → m = 2 ^ 53).
  { intros Hq Hh. subst m. rewrite Hodd; [lia | by rewrite Hq | done]. }
  assert (Hfin : e <= 971 → (e = 971 → m ≠ 2 ^ 53) →
                 ∀ x, (x == JS.dyadic m e)%Q →
                      JS.rounds (Qmake n d) (JS.Fin false x)).
  { intros He971 Hm53 x Hx.
    split; [done |]. split.
    { destruct (Z.eq_dec m (2 ^ 53)) as [Hm1|Hm1].
      - exists (2 ^ 52), (e + 1). split; [done |]. split; [lia |].
        rewrite Hx, Hm1. unfold JS.dyadic, Qeq. cbn [Qnum Qden]. f_equal.
        replace (e + 1 + 1074) with (Z.succ (e + 1074)) by lia.
        rewrite Z.pow_succ_r by lia. lia.
      - exists m, e. split; [lia |]. split; [lia | done]. }
    split.
    { rewrite Hthr. unfold Qlt. cbn [Qnum Qden]. rewrite HP. fold T.
      apply Z.nle_gt. intros Hc.
      destruct (Z_le_gt_dec e 970) as [Hc1|Hc1].
      { specialize (Hsmall Hc1). subst U. nia. }
      assert (e = 971) as Hc' by lia. specialize (Hmid Hc').
      apply (Hm53 Hc'), Hn53.
      - assert (2 ^ 53 - 1 <= T / U); [| lia].
        apply Z.div_le_lower_bound; [done |]. subst U. nia.
      - assert (Hq : T / U = 2 ^ 53 - 1).
        { assert (2 ^ 53 - 1 <= T / U); [| lia].
          apply Z.div_le_lower_bound; [done |]. subst U. nia. }
        rewrite Hq in Hdm. subst U. nia. }
    intros y (m' & e' & Hm' & He' & Hy).
    rewrite Hy, Hx. unfold JS.dyadic. apply dyadic_closer.
    cbn [Qnum Qden]. rewrite HP. fold T E.
    replace (m * E * Z.pos d) with (m * U) by (subst U; lia).
    destruct (Z_le_gt_dec e e') as [Hc|Hc].
    - replace (e' + 1074) with ((e' - e) + (e + 1074)) by lia.
      rewrite Z.pow_add_r by lia. fold E.
      replace (m' * (2 ^ (e' - e) * E) * Z.pos d)
        with (m' * 2 ^ (e' - e) * U) by (subst U; lia).
      apply Hnear.
    - specialize (Hge ltac:(lia)).
      assert (HE' : 2 * 2 ^ (e' + 1074) <= E).
      { rewrite <- Z.pow_succ_r by lia. apply Z.pow_le_mono_r; lia. }
      assert (0 < 2 ^ (e' + 1074)) by (apply Z.pow_pos_nonneg; lia).
      specialize (Hnear (2 ^ 52)).
      assert (m' * 2 ^ (e' + 1074) * Z.pos d < 2 ^ 52 * U); [| lia].
      assert (m' * (2 ^ (e' + 1074) * Z.pos d)
              < 2 ^ 53 * (2 ^ (e' + 1074) * Z.pos d))
        by (apply Z.mul_lt_mono_pos_r; lia).
      assert (2 * 2 ^ (e' + 1074) * Z.pos d <= E * Z.pos d)
        by (apply Z.mul_le_mono_nonneg_r; lia).
      subst U. lia. }
  assert (Hinf : 972 <= e ∨ (e = 971 ∧ m = 2 ^ 53) →
                 JS.rounds (Qmake n d) (JS.Inf false)).
  { intros Hc. split; [done |].
    rewrite Hthr. unfold Qle. cbn [Qnum Qden]. rewrite HP. fold T.
    destruct Hc as [Hc|[Hc Hm1]].
    - specialize (Hlarge Hc). specialize (Hge ltac:(lia)). subst U. nia.
    - specialize (Hmid Hc). assert (m = T / U + 1) as Hm2 by lia.
      specialize (Hup Hm2). subst U. nia. }
  destruct (Z.ltb_spec 971 e) as [Hc1|Hc1]; [apply Hinf; lia |].
  destruct (Z.eqb_spec e 971) as [Hc2|Hc2],
           (Z.eqb_spec m (2 ^ 53)) as [Hc3|Hc3];
    cbn [orb andb]; [apply Hinf; lia | | |].
  all: destruct (Z.leb_spec 0 e) as [Hc4|Hc4]; apply Hfin; try done; try lia.
  all: try (rewrite Qred_correct).
  all: unfold JS.dyadic, Qeq; cbn [Qnum Qden]; rewrite HP.
  all: try (rewrite Z2Pos.id by (apply Z.pow_pos_nonneg; lia)).
  all: rewrite <- ?Z.mul_assoc, <- ?Z.pow_add_r by lia.
  all: try (rewrite Z.mul_1_r); do 2 f_equal; lia.
Qed.

(** The rounding of [parseFloat] on some decimals: [2^53 + 1] is a tie
    and goes to the even significand; 0.1 is the double
    [3602879701896397 / 2^55]; 12.50 is exact; a one followed by 400
    zeros overflows; [-1e-400] underflows to a zero that keeps its sign;
    no digit at all is [NaN]. *)
Lemma parseFloat_examples :
  JS.parseFloat "9007199254740993" = JS.Fin false (Qmake 9007199254740992 1)
  ∧ JS.parseFloat "0.1"
    = JS.Fin false (Qmake 3602879701896397 36028797018963968)
  ∧ JS.parseFloat "12.50" = JS.Fin false (Qmake 25 2)
  ∧ JS.parseFloatChars ("1"%char :: repeat "0"%char 400) = JS.Inf false
  ∧ JS.parseFloat "-1e-400" = JS.Fin true (Qmake 0 1)
  ∧ JS.parseFloat "abc" = JS.NaN.
Proof. by vm_compute. Qed.

End JSFacts.

(** ** The rate limiter *)

Section RateLimiterFacts.
Import RateLimiter.

Lemma isAllowed_true_iff now u rl :
  (isAllowed now u rl).1 = true
  ↔ Z.of_nat (List.length (recent rl now (stored rl u))) < maxAttempts rl.
Proof.
  unfold isAllowed, stored.
  destruct (Z.geb_spec (Z.of_nat (List.length
    (recent rl now (default [] (userAttempts rl !! u))))) (maxAttempts rl));
    simpl; split; intros; try discriminate; try lia; reflexivity.
Qed.

Lemma isAllowed_rejected now u rl :
  (isAllowed now u rl).1 = false → (isAllowed now u rl).2 = rl.
Proof.
  unfold isAllowed.
  destruct (_ >=? _); simpl; [reflexivity | discriminate].
Qed.

Lemma isAllowed_admitted now u rl :
  (isAllowed now u rl).1 = true →
  maxAttempts (isAllowed now u rl).2 = maxAttempts rl
  ∧ windowMs (isAllowed now u rl).2 = windowMs rl
  ∧ stored (isAllowed now u rl).2 u = recent rl now (stored rl u) ++ [now]
  ∧ ∀ v, v ≠ u → stored (isAllowed now u rl).2 v = stored rl v.
Proof.
  unfold isAllowed, stored.
  destruct (_ >=? _); simpl; [discriminate |].
  intros _. repeat split.
  - by rewrite lookup_insert_eq.
  - intros v Hv. by rewrite lookup_insert_ne.
Qed.

Lemma stored_cleanup now rl u :
  stored (cleanup now rl) u = recent rl now (stored rl u).
Proof.
  unfold stored, cleanup; simpl. rewrite lookup_omap.
  destruct (userAttempts rl !! u) as [l|]; simpl; [| reflexivity].
  destruct (recent rl now l); reflexivity.
Qed.

Lemma stored_reset u rl v :
  stored (reset u rl) v = if decide (u = v) then [] else stored rl v.
Proof.
  unfold stored, reset; simpl. destruct (decide (u = v)) as [-> | Hne].
  - by rewrite lookup_delete_eq.
  - by rewrite lookup_delete_ne.
Qed.

(** Looking through a window on what an earlier window kept. *)
Lemma window_shrinks (w now now' : Z) (l : list Z) :
  now <= now' →
  filter (λ t, now' - t < w) (filter (λ t, now - t < w) l)
  = filter (λ t, now' - t < w) l.
Proof. intros H. apply list_filter_filter_l. intros t; lia. Qed.

Lemma filter_none (P : Z → Prop) `{∀ t, Decision (P t)} (l : list Z) :
  (∀ t, t ∈ l → ¬ P t) → filter P l = [].
Proof.
  induction l as [|a l IH]; intros Hl; [done |].
  rewrite filter_cons. destruct (decide (P a)) as [Ha|_].
  - exfalso. apply (Hl a); [left | done].
  - apply IH. intros t Ht. apply Hl. by right.
Qed.

Lemma admittedTimes_snoc u log e :
  admittedTimes u (log ++ [e]) = record u (admittedTimes u log) e.
Proof. unfold admittedTimes. by rewrite fold_left_app. Qed.

(** An admitted attempt in the history of [u] is an admitted entry of [u]
    in the log. *)
Lemma admittedTimes_logged u log t :
  t ∈ admittedTimes u log → ∃ j, log !! j = Some (Attempt t u true).
Proof.
  induction log as [|e log IH] using rev_ind.
  - intros H. by apply elem_of_nil in H.
  - rewrite admittedTimes_snoc. intros H.
    assert (Hold : t ∈ admittedTimes u log →
                   ∃ j, (log ++ [e]) !! j = Some (Attempt t u true)).
    { intros Ht. destruct (IH Ht) as [j Hj]. exists j.
      by apply lookup_app_l_Some. }
    destruct e as [now v b | v |]; simpl in H.
    + destruct (decide (v = u ∧ b = true)) as [[-> ->]|_]; [| by apply Hold].
      apply elem_of_app in H as [H|H]; [by apply Hold |].
      apply list_elem_of_singleton in H as ->.
      exists (List.length log). by rewrite list_lookup_middle.
    + destruct (decide (v = u)); [by apply elem_of_nil in H | by apply Hold].
    + by apply elem_of_nil in H.
Qed.

Lemma justified_snoc_attempt m w log now u b :
  justified m w log →
  (b = true ↔ budgetUsed w u now log < m) →
  justified m w (log ++ [Attempt now u b]).
Proof.
  intros Hj He i now' u' b' Hx.
  destruct (decide (i < List.length log)%nat) as [Hi|Hi].
  - rewrite lookup_app_l in Hx by done.
    rewrite take_app_le by lia. by apply Hj.
  - assert (i = List.length log) as ->.
    { apply lookup_lt_Some in Hx. rewrite length_app in Hx. simpl in Hx. lia. }
    rewrite list_lookup_middle in Hx by done.
    injection Hx as <- <- <-. rewrite take_app_length. exact He.
Qed.

Lemma justified_snoc_other m w log e :
  justified m w log → (∀ now u b, e ≠ Attempt now u b) →
  justified m w (log ++ [e]).
Proof.
  intros Hj He i now u b Hx.
  destruct (decide (i < List.length log)%nat) as [Hi|Hi].
  - rewrite lookup_app_l in Hx by done.
    rewrite take_app_le by lia. by apply Hj.
  - assert (i = List.length log) as ->.
    { apply lookup_lt_Some in Hx. rewrite length_app in Hx. simpl in Hx. lia. }
    rewrite list_lookup_middle in Hx by done.
    injection Hx as ->. by destruct (He now u b).
Qed.

(** One call keeps the limiter in agreement with the log. *)
Lemma exec_keeps m w log rl T now c :
  agrees m w log rl T → justified m w log → T <= now →
  agrees m w (exec (log, rl) (now, c)).1 (exec (log, rl) (now, c)).2 now
  ∧ justified m w (exec (log, rl) (now, c)).1.
Proof.
  intros (Hm & Hw & Hag) Hj HT.
  destruct c as [u | u | u | |]; simpl.
  - pose proof (isAllowed_true_iff now u rl) as Hiff.
    pose proof (isAllowed_rejected now u rl) as Hrej.
    pose proof (isAllowed_admitted now u rl) as Hadm.
    destruct (isAllowed now u rl) as [b rl']; simpl in *.
    assert (Hused : Z.of_nat (List.length (recent rl now (stored rl u)))
                    = budgetUsed w u now log).
    { unfold budgetUsed, recent. rewrite Hw. by rewrite (Hag u now HT). }
    split.
    + destruct b.
      * destruct (Hadm eq_refl) as (Hm' & Hw' & Hu & Hv).
        split; [congruence | split; [congruence |]].
        intros v now' Hnow'. rewrite admittedTimes_snoc; simpl.
        destruct (decide (u = v ∧ true = true)) as [[-> _]|Hne].
        -- rewrite Hu. unfold recent. rewrite Hw, !filter_app.
           rewrite window_shrinks by done. by rewrite Hag by lia.
        -- rewrite Hv by (intros ->; by apply Hne). apply Hag; lia.
      * rewrite (Hrej eq_refl). split; [done | split; [done |]].
        intros v now' Hnow'. rewrite admittedTimes_snoc; simpl.
        destruct (decide _) as [[_ ?]|_]; [discriminate |].
        apply Hag; lia.
    + apply justified_snoc_attempt; [done |]. rewrite <- Hused, <- Hm. exact Hiff.
  - split; [| done]. split; [done | split; [done |]].
    intros v now' Hnow'. apply Hag; lia.
  - split; [| by apply justified_snoc_other].
    split; [done | split; [done |]].
    intros v now' Hnow'. rewrite admittedTimes_snoc, stored_reset; simpl.
    destruct (decide (u = v)); [done | apply Hag; lia].
  - split; [| by apply justified_snoc_other].
    split; [done | split; [done |]].
    intros v now' Hnow'. rewrite admittedTimes_snoc. unfold stored; simpl.
    by rewrite lookup_empty.
  - split; [| done]. split; [done | split; [done |]].
    intros v now' Hnow'. rewrite stored_cleanup. unfold recent. rewrite Hw.
    rewrite window_shrinks by done. apply Hag; lia.
Qed.

Lemma run_keeps m w calls : ∀ log rl T,
  agrees m w log rl T → justified m w log →
  nondecreasing (T :: map fst calls) →
  justified m w (fold_left exec calls (log, rl)).1.
Proof.
  induction calls as [|[now c] calls IH]; intros log rl T Hag Hj Hnd; [done |].
  change (fold_left exec ((now, c) :: calls) (log, rl))
    with (fold_left exec calls (exec (log, rl) (now, c))).
  assert (T <= now ∧ nondecreasing (now :: map fst calls)) as [HT Hnd'].
  { simpl in Hnd. simpl. destruct Hnd. split; [lia | done]. }
  destruct (exec_keeps m w log rl T now c Hag Hj HT) as [Hag' Hj'].
  destruct (exec (log, rl) (now, c)) as [log' rl'].
  by apply (IH log' rl' now).
Qed.

Lemma budget_positive m w log i now u :
  justified m w log → log !! i = Some (Attempt now u true) → 0 < m.
Proof.
  intros Hj Hi. destruct (Hj i now u true Hi) as [He _].
  specialize (He eq_refl). unfold budgetUsed in He. lia.
Qed.

(** C4.  Along every sequence of calls on a limiter created with
    [maxAttempts = m] and [windowMs = w], with a clock that does not run
    backwards: an [isAllowed] call returns true exactly when the number of
    attempts of that identity admitted before it (since the identity's
    history was last reset) and still inside the trailing window is below
    [m]; a rejected call leaves the limiter as it was, an admitted call
    records its timestamp after the attempts still in the window; and once
    every admitted attempt of an identity has left the window, its next
    call is admitted, however many rejected calls came in between. *)
Theorem isAllowed_sliding_window (m w : Z) (calls : list (Z * call)) :
  nondecreasing (map fst calls) →
  let log := (run (mk ∅ m w (Some (w * 2))) calls).1 in
  (∀ i now u b, log !! i = Some (Attempt now u b) →
     (b = true ↔ budgetUsed w u now (take i log) < m))
  ∧ (∀ rl now u, (isAllowed now u rl).1 = false → (isAllowed now u rl).2 = rl)
  ∧ (∀ rl now u, (isAllowed now u rl).1 = true →
       stored (isAllowed now u rl).2 u = recent rl now (stored rl u) ++ [now])
  ∧ (∀ i now u b, log !! i = Some (Attempt now u b) →
       admittedTimes u (take i log) ≠ [] →
       (∀ t, t ∈ admittedTimes u (take i log) → w <= now - t) →
       b = true).
Proof.
  intros Hnd log.
  assert (Hj : justified m w log).
  { unfold log, run.
    apply (run_keeps m w calls [] _ (hd 0 (map fst calls))).
    - split; [done | split; [done |]]. intros u now _.
      unfold stored; simpl. by rewrite lookup_empty.
    - intros i now u b Hi. by rewrite lookup_nil in Hi.
    - destruct calls as [|[now c] calls']; [done |]. simpl in *. split; [lia | done]. }
  split; [exact Hj |].
  split; [intros rl now u; apply isAllowed_rejected |].
  split; [intros rl now u H; by destruct (isAllowed_admitted now u rl H) as (_ & _ & ? & _) |].
  intros i now u b Hi Hne Hold.
  apply (Hj i now u b Hi).
  assert (Hm : 0 < m).
  { destruct (admittedTimes u (take i log)) as [|t ts] eqn:Hts; [done |].
    assert (Ht : t ∈ admittedTimes u (take i log)) by (rewrite Hts; left).
    apply admittedTimes_logged in Ht as [j Hj'].
    apply lookup_take_Some in Hj' as [Hj' _].
    exact (budget_positive m w log j t u Hj Hj'). }
  unfold budgetUsed.
  replace (filter (λ t, now - t < w) (admittedTimes u (take i log)))
    with (@nil Z); [simpl; lia |].
  symmetry. apply filter_none. intros t Ht. specialize (Hold t Ht). lia.
Qed.

(** The limiter of the tests on a burst: three admissions, two rejections,
    and an admission again once the window has passed. *)
Lemma isAllowed_sliding_window_witness :
  nondecreasing (map fst burst)
  ∧ (run limiter3 burst).1
    = [Attempt 0 "u" true; Attempt 1 "u" true; Attempt 3 "u" true;
       Attempt 4 "u" false; Attempt 5 "u" false; Attempt 2600 "u" true]
  ∧ ∀ i now u b, (run limiter3 burst).1 !! i = Some (Attempt now u b) →
      (b = true ↔ budgetUsed 1000 u now (take i (run limiter3 burst).1) < 3).
Proof.
  assert (H : nondecreasing (map fst burst)) by (simpl; lia).
  split; [exact H |]. split; [reflexivity |].
  exact (proj1 (isAllowed_sliding_window 3 1000 burst H)).
Defined.

(** A limiter without budget rejects every attempt and records nothing. *)
Lemma isAllowed_without_budget now u rl :
  maxAttempts rl < 1 → isAllowed now u rl = (false, rl).
Proof.
  intros Hm. unfold isAllowed.
  destruct (Z.geb_spec (Z.of_nat (List.length
    (recent rl now (default [] (userAttempts rl !! u))))) (maxAttempts rl));
    [reflexivity | lia].
Qed.

(** C8, as the code has it.  Constructing a limiter never fails: whatever
    the arguments, also with [maxAttempts < 1] or [windowMs <= 0], the
    constructor returns a limiter that holds them as given and has no
    attempt recorded. *)
Theorem constructor_accepts_everything (maxAttempts windowMs : Z) :
  ∃ rl, RateLimiter.constructor maxAttempts windowMs = JS.Normal rl
        ∧ RateLimiter.maxAttempts rl = maxAttempts
        ∧ RateLimiter.windowMs rl = windowMs
        ∧ RateLimiter.userAttempts rl = ∅.
Proof. eexists. repeat split. Qed.

(** C8 as stated fails: with [maxAttempts = 0] and [windowMs = -1] the
    constructor does not throw. *)
Lemma constructor_accepts_bad_arguments :
  0 < 1 ∧ -1 <= 0
  ∧ ¬ (∃ e, RateLimiter.constructor 0 (-1) = JS.Throw e)
  ∧ ∃ rl, RateLimiter.constructor 0 (-1) = JS.Normal rl.
Proof.
  split; [lia |]. split; [lia |]. split.
  - intros [e He]. discriminate He.
  - by eexists.
Qed.

End RateLimiterFacts.

(** ** The backtracking matcher against the words of a pattern *)

Section RegexFacts.
Import Regex.

Lemma plusGreedy_sound p s k res :
  plusGreedy p s k = Some res →
  ∃ w s', s = w ++ s' ∧ w ≠ [] ∧ Forall (λ a, p a = true) w ∧ k s' = Some res.
Proof.
  revert res. induction s as [|a s IH]; intros res; simpl; [discriminate |].
  destruct (p a) eqn:Ha; [| discriminate].
  destruct (plusGreedy p s k) as [r|] eqn:Hrec.
  - intros [= <-]. destruct (IH r eq_refl) as (w & s' & -> & _ & Hw & Hk).
    exists (a :: w), s'. repeat split; [done | by constructor | done].
  - intros Hk. exists [a], s. repeat split; [done | by repeat constructor | done].
Qed.

Lemma plusLazy_sound p s k res :
  plusLazy p s k = Some res →
  ∃ w s', s = w ++ s' ∧ w ≠ [] ∧ Forall (λ a, p a = true) w ∧ k s' = Some res.
Proof.
  revert res. induction s as [|a s IH]; intros res; simpl; [discriminate |].
  destruct (p a) eqn:Ha; [| discriminate].
  destruct (k s) as [r|] eqn:Hk.
  - intros [= <-]. exists [a], s. repeat split; [done | by repeat constructor | done].
  - intros Hrec. destruct (IH res Hrec) as (w & s' & -> & _ & Hw & Hk').
    exists (a :: w), s'. repeat split; [done | by constructor | done].
Qed.

Lemma firstn_consumed (w s' : list ascii) :
  firstn (List.length (w ++ s') - List.length s') (w ++ s') = w.
Proof.
  rewrite length_app.
  replace (List.length w + List.length s' - List.length s')%nat
    with (List.length w) by lia.
  apply take_app_length.
Qed.

(** Whatever the matcher returns comes from a word of the pattern at the
    head of the input, followed by a successful continuation. *)
Lemma run_sound r : ∀ s c k res,
  run r s c k = Some res →
  ∃ w s' c', s = w ++ s' ∧ matches r w c c' ∧ k s' c' = Some res.
Proof.
  induction r as [p | r1 IH1 r2 IH2 | r IH | p | p | i r IH];
    intros s c k res; simpl.
  - destruct s as [|a s]; [discriminate |].
    destruct (p a) eqn:Ha; [| discriminate].
    intros Hk. exists [a], s, c. repeat split; [by constructor | done].
  - intros H. apply IH1 in H as (w1 & s1 & c1 & -> & Hm1 & H).
    apply IH2 in H as (w2 & s2 & c2 & -> & Hm2 & H).
    exists (w1 ++ w2), s2, c2. split; [by rewrite app_assoc |].
    split; [by econstructor | done].
  - destruct (run r s c k) as [r0|] eqn:Hr.
    + intros [= <-]. apply IH in Hr as (w & s' & c' & -> & Hm & Hk).
      exists w, s', c'. split; [done |]. split; [by apply M_OptSome | done].
    + intros Hk. exists [], s, c. split; [done |]. split; [apply M_OptNone | done].
  - intros H. apply plusGreedy_sound in H as (w & s' & -> & Hne & Hw & Hk).
    exists w, s', c. repeat split; [by constructor | done].
  - intros H. apply plusLazy_sound in H as (w & s' & -> & Hne & Hw & Hk).
    exists w, s', c. repeat split; [by constructor | done].
  - intros H. apply IH in H as (w & s' & c' & -> & Hm & Hk).
    rewrite firstn_consumed in Hk.
    exists w, s', (setGroup i w c'). repeat split; [by constructor | done].
Qed.




Lemma exec_sound r s m :
  exec r s = Some m → matches r s (Caps None None) m.
Proof.
  unfold exec. intros H. apply run_sound in H as (w & s' & c' & -> & Hm & Hend).
  destruct s'; [| discriminate]. injection Hend as ->.
  by rewrite app_nil_r.
Qed.


End RegexFacts.

(** ** The transaction parser *)

Section ParserFacts.
Import Regex Parser.

(** *** The first two patterns *)

Lemma exec_pattern0_dollar s : Regex.exec pattern0 ("$"%char :: s) = None.
Proof. reflexivity. Qed.

Lemma exec_pattern1_no_dollar s :
  match s with "$"%char :: _ => False | _ => True end →
  Regex.exec pattern1 s = Regex.exec pattern0 s.
Proof.
  intros Hs. unfold Regex.exec, pattern1, pattern0, dollarNumber.
  cbn [run]. destruct s as [|a s]; [reflexivity |].
  destruct (isChar "$" a) eqn:Ha; [| reflexivity].
  unfold isChar in Ha. apply Ascii.eqb_eq in Ha. subst a. destruct Hs.
Qed.

Lemma pattern1_subsumes_pattern0 s m :
  Regex.exec pattern0 s = Some m → Regex.exec pattern1 s = Some m.
Proof.
  intros H. rewrite exec_pattern1_no_dollar; [done |].
  destruct s as [|a s]; [done |].
  destruct (Ascii.eqb_spec a "$") as [-> | Hne].
  - by rewrite exec_pattern0_dollar in H.
  - each_char a; try exact I. by destruct Hne.
Qed.

Lemma tryPatterns_without_pattern0 validated :
  tryPatterns (tl patterns) validated = tryPatterns patterns validated.
Proof.
  unfold patterns. cbn [tl tryPatterns].
  destruct (Regex.exec pattern0 validated) as [m|] eqn:H0; [| reflexivity].
  rewrite (pattern1_subsumes_pattern0 _ _ H0).
  change (candidate 1 m) with (candidate 0 m).
  destruct (candidate 0 m) eqn:Hc; reflexivity.
Qed.

(** C9, as the code has it.  The second pattern of the array matches
    whenever the first one does, with the same captures: the [$] is
    optional in the second pattern and absent from the first.  Taking the
    first pattern out of the array therefore changes the result of the
    parser on no input. *)
Theorem pattern1_covers_pattern0 :
  (∀ s m, Regex.exec pattern0 s = Some m → Regex.exec pattern1 s = Some m)
  ∧ (∀ m, candidate 1 m = candidate 0 m)
  ∧ (∀ input, parseWithoutPattern0 input = parseTransactionDetails input).
Proof.
  split; [exact pattern1_subsumes_pattern0 |].
  split; [reflexivity |].
  intros input. unfold parseWithoutPattern0, parseTransactionDetails.
  destruct (validateInput input); [| reflexivity].
  apply tryPatterns_without_pattern0.
Qed.

Lemma pattern1_covers_pattern0_witness :
  Regex.exec pattern0 (JS.chars "100 Coffee")
    = Some (Caps (Some (JS.chars "100")) (Some (JS.chars "Coffee")))
  ∧ Regex.exec pattern1 (JS.chars "100 Coffee")
    = Some (Caps (Some (JS.chars "100")) (Some (JS.chars "Coffee"))).
Proof.
  assert (H : Regex.exec pattern0 (JS.chars "100 Coffee")
              = Some (Caps (Some (JS.chars "100")) (Some (JS.chars "Coffee"))))
    by reflexivity.
  split; [exact H | exact (proj1 pattern1_covers_pattern0 _ _ H)].
Defined.

(** C9 as stated fails: on [$50.50 Groceries] the second pattern matches
    and the first does not, and without the second pattern the parser
    returns nothing. *)
Lemma pattern0_misses_dollar_amounts :
  Regex.exec pattern1 (JS.chars "$50.50 Groceries")
    = Some (Caps (Some (JS.chars "$50.50")) (Some (JS.chars "Groceries")))
  ∧ Regex.exec pattern0 (JS.chars "$50.50 Groceries") = None
  ∧ parseTransactionDetails "$50.50 Groceries"
    = Some (Parsed (JS.Fin false (Qmake 101 2)) "Groceries")
  ∧ parseWithoutPattern1 "$50.50 Groceries" = None.
Proof. repeat split. Qed.

(** *** Words of the patterns *)

Lemma matches_groupFree r w c c' :
  matches r w c c' → groupFree r = true → c' = c.
Proof.
  induction 1 as [p a c Ha | r1 r2 w1 w2 c c1 c2 _ IH1 _ IH2
                  | r w c c' _ IH | r c | p w c Hne Hw | p w c Hne Hw
                  | i r w c c' _ IH]; simpl; intros Hg; try done.
  - apply andb_true_iff in Hg as [Hg1 Hg2].
    by rewrite (IH2 Hg2), (IH1 Hg1).
  - by apply IH.
Qed.



Lemma number_alphabet a :
  alphabet number a = true →
  alphabet dollarNumber a = true ∧ Ascii.eqb a "$" = false.
Proof. each_char a; first [by split | discriminate]. Qed.

(** Shape of a match of the two amount-first patterns. *)
Lemma amount_first_inv X w c m :
  matches (Seq (Grp G1 X) (Seq (PlusGreedy JS.isWhiteSpace) (Grp G2 (PlusGreedy dot))))
    w c m →
  ∃ a sp b c1,
    w = a ++ sp ++ b ∧ matches X a c c1
    ∧ sp ≠ [] ∧ Forall (λ x, JS.isWhiteSpace x = true) sp
    ∧ b ≠ [] ∧ Forall (λ x, dot x = true) b
    ∧ g1 m = Some a ∧ g2 m = Some b.
Proof.
  intros H.
  inversion H as [| ? ? a rest ? c1 ? Hg1 Hrest | | | | |]; subst.
  inversion Hg1 as [| | | | | | ? ? ? ? c1' HX]; subst.
  inversion Hrest as [| ? ? sp b' ? c2 ? Hsp Hg2 | | | | |]; subst.
  inversion Hsp as [| | | | ? ? ? Hne Hws | |]; subst.
  inversion Hg2 as [| | | | | | ? ? ? ? c3 Hb]; subst.
  inversion Hb as [| | | | ? ? ? Hbne Hdot | |]; subst.
  exists a, sp, b', c1'. repeat split; try done.
Qed.

(** Shape of a match of the two name-first patterns. *)
Lemma name_first_inv Y w c m :
  groupFree Y = true →
  matches (Seq (Grp G1 (PlusLazy dot)) (Seq (PlusGreedy JS.isWhiteSpace) (Grp G2 Y)))
    w c m →
  ∃ a sp b,
    w = a ++ sp ++ b
    ∧ a ≠ [] ∧ Forall (λ x, dot x = true) a
    ∧ sp ≠ [] ∧ Forall (λ x, JS.isWhiteSpace x = true) sp
    ∧ matches Y b (setGroup G1 a c) (setGroup G1 a c)
    ∧ g1 m = Some a ∧ g2 m = Some b.
Proof.
  intros HY H.
  inversion H as [| ? ? a rest ? c1 ? Hg1 Hrest | | | | |]; subst.
  inversion Hg1 as [| | | | | | ? ? ? ? c1' Ha]; subst.
  inversion Ha as [| | | | | ? ? ? Hane Hdot |]; subst.
  inversion Hrest as [| ? ? sp b' ? c2 ? Hsp Hg2 | | | | |]; subst.
  inversion Hsp as [| | | | ? ? ? Hne Hws | |]; subst.
  inversion Hg2 as [| | | | | | ? ? ? ? c3 Hb]; subst.
  pose proof (matches_groupFree _ _ _ _ Hb HY) as ->.
  exists a, sp, b'. repeat split; try done.
Qed.

(** *** Lists of characters around white space *)

Lemma spaces_nil : spaces [].
Proof. constructor. Qed.

Lemma Forall_rev_chars (P : ascii → Prop) (l : list ascii) :
  Forall P l → Forall P (rev l).
Proof.
  induction 1 as [|a l Ha _ IH]; simpl; [constructor |].
  apply Forall_app. split; [exact IH | by repeat constructor].
Qed.



Lemma trimChars_padded (pre l post : list ascii) :
  spaces pre → spaces post → solid l →
  JS.trimChars (pre ++ l ++ post) = l.
Proof.
  intros Hpre Hpost [(a & l1 & Hl1 & Ha) (l2 & z & Hl2 & Hz)].
  unfold JS.trimChars.
  assert (E1 : JS.dropWhile JS.isWhiteSpace (pre ++ l ++ post) = l ++ post).
  { rewrite dropWhile_all by done. rewrite Hl1. apply dropWhile_stop, Ha. }
  rewrite E1.
  assert (E2 : JS.dropWhile JS.isWhiteSpace (rev (l ++ post)) = rev l).
  { rewrite rev_app_distr, dropWhile_all by (by apply Forall_rev_chars).
    rewrite Hl2, rev_app_distr. apply dropWhile_stop, Hz. }
  rewrite E2. apply rev_involutive.
Qed.

Lemma trimChars_solid l : solid l → JS.trimChars l = l.
Proof.
  intros H. pose proof (trimChars_padded [] l [] spaces_nil spaces_nil H) as E.
  by rewrite app_nil_r in E.
Qed.

(** *** Well-formed pieces *)

Lemma digit_facts a :
  JS.isDigit a = true →
  JS.isWhiteSpace a = false ∧ alphabet number a = true
  ∧ Ascii.eqb a "-" = false ∧ Ascii.eqb a "+" = false
  ∧ Ascii.eqb a "." = false ∧ Ascii.eqb "I" a = false.
Proof. each_char a; first [discriminate | by repeat split]. Qed.

Lemma amount_alphabet_clean a :
  alphabet dollarNumber a = true →
  isDangerous a = false ∧ Ascii.eqb a "," = false.
Proof. each_char a; first [discriminate | by split]. Qed.


Lemma forallb_Forall (p : ascii → bool) l :
  forallb p l = true → Forall (λ a, p a = true) l.
Proof.
  induction l as [|a l IH]; simpl; [constructor |].
  intros H. apply andb_true_iff in H as [Ha Hl]. constructor; [done | by apply IH].
Qed.

Lemma amountOk_inv ip fp :
  amountOk ip fp = true →
  ip ≠ [] ∧ Forall (λ a, JS.isDigit a = true) ip
  ∧ Forall (λ a, JS.isDigit a = true) fp ∧ (List.length fp <= 2)%nat.
Proof.
  unfold amountOk. intros H.
  apply andb_true_iff in H as [H Hlen].
  apply andb_true_iff in H as [H Hfp].
  apply andb_true_iff in H as [Hpos Hip].
  split; [by destruct ip |].
  split; [by apply forallb_Forall |].
  split; [by apply forallb_Forall | by apply Nat.leb_le].
Qed.


Lemma nameOk_inv name :
  nameOk name = true →
  name ≠ [] ∧ (List.length name <= 255)%nat
  ∧ Forall (λ a, dot a = true) name
  ∧ Forall (λ a, isDangerous a = false) name
  ∧ solid name.
Proof.
  unfold nameOk. intros H.
  apply andb_true_iff in H as [H Hlast].
  apply andb_true_iff in H as [H Hfirst].
  apply andb_true_iff in H as [H Hall].
  apply andb_true_iff in H as [Hpos Hlen].
  assert (Hne : name ≠ []) by (destruct name; [discriminate | done]).
  apply forallb_Forall in Hall.
  split; [done |]. split; [by apply Nat.leb_le |].
  split; [| split; [| split]].
  - eapply Forall_impl; [exact Hall |]. intros a Ha. simpl in Ha.
    apply andb_true_iff in Ha as [Ha _]. exact Ha.
  - eapply Forall_impl; [exact Hall |]. intros a Ha. simpl in Ha.
    apply andb_true_iff in Ha as [_ Ha]. by apply negb_true_iff in Ha.
  - destruct name as [|a l]; [done |]. exists a, l. split; [done |].
    by apply negb_true_iff in Hfirst.
  - exists (removelast name), (List.last name " "%char). split.
    + by apply app_removelast_last.
    + by apply negb_true_iff in Hlast.
Qed.

Lemma amountText_alphabet dollar minus ip fp :
  amountOk ip fp = true →
  Forall (λ a, alphabet dollarNumber a = true) (amountText dollar minus ip fp)
  ∧ Forall (λ a, alphabet number a = true) (amountText false minus ip fp).
Proof.
  intros H. apply amountOk_inv in H as (_ & Hip & Hfp & _).
  assert (Hd : ∀ l, Forall (λ a, JS.isDigit a = true) l →
               Forall (λ a, alphabet number a = true) l).
  { intros l Hl. eapply Forall_impl; [exact Hl |]. intros a Ha.
    by destruct (digit_facts a Ha) as (_ & ? & _). }
  assert (Hn : Forall (λ a, alphabet number a = true) (amountText false minus ip fp)).
  { unfold amountText. simpl. apply Forall_app. split.
    - destruct minus; by repeat constructor.
    - apply Forall_app. split; [by apply Hd |].
      destruct fp; [constructor |]. constructor; [reflexivity | by apply Hd]. }
  split; [| exact Hn].
  unfold amountText in *. apply Forall_app. split.
  - destruct dollar; by repeat constructor.
  - simpl in Hn. eapply Forall_impl; [exact Hn |]. intros a Ha.
    by destruct (number_alphabet a Ha).
Qed.



Lemma Qred_nonneg q : 0 <= Qnum q → 0 <= Qnum (Qred q).
Proof.
  intros H. pose proof (Qred_correct q) as Heq. unfold Qeq in Heq.
  assert (0 <= Qnum (Qred q) * Zpos (Qden q)); [| nia].
  rewrite Heq. apply Z.mul_nonneg_nonneg; lia.
Qed.

Lemma decimalValue_nonneg ip fp : 0 <= Qnum (decimalValue ip fp).
Proof.
  unfold decimalValue, JS.scale10.
  destruct (0 <=? _); apply Qred_nonneg; cbn [Qnum]; [| lia].
  apply Z.mul_nonneg_nonneg; [lia |]. apply Z.pow_nonneg. lia.
Qed.

(** [parseFloat] on an amount without its [$]. *)
Lemma parseFloat_amountText minus ip fp :
  amountOk ip fp = true →
  JS.parseFloatChars (amountText false minus ip fp)
  = JS.toDouble minus (decimalValue ip fp).
Proof.
  intros H. apply amountOk_inv in H as (Hne & Hip & Hfp & _).
  destruct ip as [|d ip]; [done |].
  pose proof (Forall_inv Hip) as Hd.
  destruct (digit_facts d Hd) as (Hsp & _ & Hm & Hp & Hdot & HI).
  set (frac := match fp with [] => [] | _ => "."%char :: fp end).
  assert (Hsign : JS.readSign (JS.dropWhile JS.isWhiteSpace
                    (amountText false minus (d :: ip) fp))
                  = (minus, (d :: ip) ++ frac)).
  { destruct minus.
    - reflexivity.
    - change (amountText false false (d :: ip) fp) with (d :: ip ++ frac).
      rewrite dropWhile_stop by done. unfold JS.readSign. by rewrite Hm, Hp. }
  unfold JS.parseFloatChars. rewrite Hsign.
  assert (Hinf : JS.isPrefix (JS.chars "Infinity") ((d :: ip) ++ frac) = false).
  { change (JS.isPrefix (JS.chars "Infinity") ((d :: ip) ++ frac))
      with (Ascii.eqb "I" d
            && JS.isPrefix (JS.chars "nfinity") (ip ++ frac))%bool.
    by rewrite HI. }
  rewrite Hinf.
  assert (Ht : JS.takeWhile JS.isDigit ((d :: ip) ++ frac) = d :: ip).
  { assert (Hf0 : JS.takeWhile JS.isDigit frac = [])
      by (unfold frac; by destruct fp).
    by rewrite takeWhile_all, Hf0, app_nil_r. }
  assert (Hdr : JS.dropWhile JS.isDigit ((d :: ip) ++ frac) = frac).
  { rewrite dropWhile_all by done. unfold frac. by destruct fp. }
  rewrite Ht, Hdr.
  assert (Hfr : JS.readFraction frac = (fp, [])).
  { unfold frac. destruct fp as [|f fp]; [reflexivity |].
    unfold JS.readFraction.
    change (Ascii.eqb "." ".") with true. cbv iota.
    by rewrite takeWhile_whole, dropWhile_whole. }
  rewrite Hfr. unfold decimalValue.
  change (JS.exponentPart []) with 0.
  reflexivity.
Qed.

(** *** Validation of a clean input *)









(** *** What [trim] leaves, and the texts the amount patterns accept *)

Lemma dropWhile_split p (l : list ascii) :
  l = JS.takeWhile p l ++ JS.dropWhile p l
  ∧ Forall (λ x, p x = true) (JS.takeWhile p l)
  ∧ (JS.dropWhile p l = [] ∨ ∃ a r, JS.dropWhile p l = a :: r ∧ p a = false).
Proof.
  induction l as [|a l (IH1 & IH2 & IH3)]; simpl.
  - split; [done | split; [constructor | by left]].
  - destruct (p a) eqn:Ha.
    + split; [simpl; by f_equal | split; [by constructor | exact IH3]].
    + split; [done | split; [constructor | right; by exists a, l]].
Qed.


(** What [trim] cuts off is white space, and what it leaves has none at
    either end. *)
Lemma trimChars_shape l :
  ∃ pre post, l = pre ++ JS.trimChars l ++ post ∧ spaces pre ∧ spaces post
              ∧ (JS.trimChars l = [] ∨ solid (JS.trimChars l)).
Proof.
  unfold JS.trimChars.
  destruct (dropWhile_split JS.isWhiteSpace l) as (Hl & Hpre & Hd).
  destruct (dropWhile_split JS.isWhiteSpace (rev (JS.dropWhile JS.isWhiteSpace l)))
    as (Hr & Hpost & Hr').
  set (d := JS.dropWhile JS.isWhiteSpace l) in *.
  set (r := JS.dropWhile JS.isWhiteSpace (rev d)) in *.
  set (tw := JS.takeWhile JS.isWhiteSpace (rev d)) in *.
  assert (Hd2 : d = rev r ++ rev tw).
  { rewrite <- rev_app_distr, <- Hr. by rewrite rev_involutive. }
  exists (JS.takeWhile JS.isWhiteSpace l), (rev tw).
  split; [by rewrite <- Hd2 |]. split; [done |].
  split; [by apply Forall_rev_chars |].
  destruct Hr' as [Hr0 | (z & r' & Hrz & Hz)]; [left; by rewrite Hr0 |].
  right. rewrite Hrz in *. simpl in *. split.
  - destruct Hd as [Hd0 | (a & d' & Hda & Ha)].
    + rewrite Hd0 in Hd2. by destruct (rev r').
    + rewrite Hda in Hd2. destruct (rev r') as [|b l']; simpl in *.
      * injection Hd2 as -> _. by exists z, [].
      * injection Hd2 as -> _. by exists b, (l' ++ [z]).
  - by exists (rev r'), z.
Qed.

Lemma trimChars_idem l : JS.trimChars (JS.trimChars l) = JS.trimChars l.
Proof.
  destruct (trimChars_shape l) as (_ & _ & _ & _ & _ & [-> | Hs]); [done |].
  by apply trimChars_solid.
Qed.

Lemma trimChars_Forall (P : ascii → Prop) l :
  Forall P l → Forall P (JS.trimChars l).
Proof.
  intros H. destruct (trimChars_shape l) as (pre & post & Hl & _).
  rewrite Hl in H. apply Forall_app in H as [_ H].
  by apply Forall_app in H as [H _].
Qed.

Lemma trimChars_length l : (List.length (JS.trimChars l) <= List.length l)%nat.
Proof.
  destruct (trimChars_shape l) as (pre & post & Hl & _).
  rewrite Hl at 2. rewrite !length_app. lia.
Qed.



Lemma trim_trim s : JS.trim (JS.trim s) = JS.trim s.
Proof. unfold JS.trim. by rewrite chars_str, trimChars_idem. Qed.

Lemma Forall_forallb (p : ascii → bool) l :
  Forall (λ a, p a = true) l → forallb p l = true.
Proof. induction 1 as [|a l Ha _ IH]; simpl; [done | by rewrite Ha, IH]. Qed.

(** Every text the amount patterns accept is an amount text. *)
Lemma number_inv w c c' :
  matches number w c c' →
  ∃ minus ip fp, w = amountText false minus ip fp ∧ amountOk ip fp = true.
Proof.
  unfold number. intros H.
  repeat match goal with
  | H : matches (Seq _ _) _ _ _ |- _ => inversion H; subst; clear H
  | H : matches (Opt _) _ _ _ |- _ => inversion H; subst; clear H
  | H : matches (Cls _) _ _ _ |- _ => inversion H; subst; clear H
  | H : matches (PlusGreedy _) _ _ _ |- _ => inversion H; subst; clear H
  end;
  repeat match goal with
  | H : isChar _ _ = true |- _ => apply Ascii.eqb_eq in H; subst
  end;
  match goal with
  | Hne : ?ip ≠ [], Hd : Forall _ ?ip |- _ =>
      assert (Hip : ((0 <? List.length ip)%nat && forallb JS.isDigit ip)%bool = true)
        by (rewrite (Forall_forallb _ _ Hd); destruct ip; [done | done])
  end.
  all: unfold amountOk, amountText.
  all: first
    [ solve [ exists true; eexists _, [_; _]; split; [simpl; reflexivity |];
              rewrite Hip; simpl;
              by repeat match goal with
                        | H : JS.isDigit _ = true |- _ => rewrite H; clear H
                        end ]
    | solve [ exists true; eexists _, [_]; split; [simpl; reflexivity |];
              rewrite Hip; simpl;
              by repeat match goal with
                        | H : JS.isDigit _ = true |- _ => rewrite H; clear H
                        end ]
    | solve [ exists true; eexists _, []; split;
              [simpl; by rewrite ?app_nil_r | by rewrite Hip] ]
    | solve [ exists false; eexists _, [_; _]; split; [simpl; reflexivity |];
              rewrite Hip; simpl;
              by repeat match goal with
                        | H : JS.isDigit _ = true |- _ => rewrite H; clear H
                        end ]
    | solve [ exists false; eexists _, [_]; split; [simpl; reflexivity |];
              rewrite Hip; simpl;
              by repeat match goal with
                        | H : JS.isDigit _ = true |- _ => rewrite H; clear H
                        end ]
    | solve [ exists false; eexists _, []; split;
              [simpl; by rewrite ?app_nil_r | by rewrite Hip] ] ].
Qed.

Lemma dollarNumber_inv w c c' :
  matches dollarNumber w c c' →
  ∃ dollar minus ip fp,
    w = amountText dollar minus ip fp ∧ amountOk ip fp = true.
Proof.
  unfold dollarNumber. intros H.
  inversion H as [| ? ? w1 w2 ? c1 ? Hd Hn | | | | |]; subst.
  destruct (number_inv _ _ _ Hn) as (minus & ip & fp & -> & Hok).
  inversion Hd as [| | ? ? ? ? Hc | | | |]; subst.
  - inversion Hc as [? a ? Ha | | | | | |]; subst.
    apply Ascii.eqb_eq in Ha. subst. by exists true, minus, ip, fp.
  - by exists false, minus, ip, fp.
Qed.

Lemma validateInput_trimmed input :
  validateInput input
  = let trimmed := JS.trimChars (JS.chars input) in
    if ((List.length trimmed =? 0)%nat || (500 <? List.length trimmed)%nat)%bool
    then None
    else if (List.length (sanitise trimmed) =? 0)%nat then None
         else Some (sanitise trimmed).
Proof. by destruct input. Qed.

(** *** The amount as the loop body reads it *)

Lemma abs_toDouble neg q : JS.abs (JS.toDouble neg q) = JS.toDouble false q.
Proof.
  unfold JS.toDouble. cbv zeta.
  destruct (Qnum q <=? 0); [done |].
  destruct (_ || _)%bool; [done |].
  by destruct (0 <=? _).
Qed.


Lemma isMagnitude_toDouble q : JS.isMagnitude (JS.toDouble false q) = true.
Proof.
  unfold JS.toDouble. cbv zeta.
  destruct (Qnum q <=? 0); [done |].
  destruct (_ || _)%bool; [done |].
  by destruct (0 <=? _).
Qed.

Lemma stripAmount_amountText dollar minus ip fp :
  amountOk ip fp = true →
  stripAmount (amountText dollar minus ip fp) = amountText false minus ip fp.
Proof.
  intros H. destruct (amountText_alphabet dollar minus ip fp H) as [_ Hn].
  assert (H1 : JS.removeFirst "$" (amountText dollar minus ip fp)
               = amountText false minus ip fp).
  { destruct dollar; [reflexivity |]. apply removeFirst_absent.
    eapply Forall_impl; [exact Hn |]. intros a Ha. by destruct (number_alphabet a Ha). }
  unfold stripAmount. rewrite H1. apply removeFirst_absent.
  eapply Forall_impl; [exact Hn |]. intros a Ha.
  destruct (number_alphabet a Ha) as [Hd _]. by destruct (amount_alphabet_clean a Hd).
Qed.

Lemma amount_read dollar minus ip fp :
  amountOk ip fp = true →
  JS.parseFloatChars (stripAmount (amountText dollar minus ip fp))
  = JS.toDouble minus (decimalValue ip fp).
Proof.
  intros H. rewrite stripAmount_amountText by done. by apply parseFloat_amountText.
Qed.

(** *** The patterns on well-formed inputs *)










(** *** Inputs that read both ways *)

(** What one pattern that matched hands back. *)
Lemma candidate_amount_first i a b m res :
  (i = 0 ∨ i = 1)%nat → g1 m = Some a → g2 m = Some b →
  candidate i m = Some res →
  JS.isNaN (JS.parseFloatChars (stripAmount a)) = false
  ∧ (1 <= List.length (JS.trimChars b) <= 255)%nat
  ∧ res = Parsed (JS.abs (JS.parseFloatChars (stripAmount a)))
            (JS.str (JS.trimChars b)).
Proof.
  intros Hi Ha Hb. unfold candidate. rewrite Ha, Hb. simpl.
  assert (((i =? 2)%nat || (i =? 3)%nat)%bool = false) as ->
    by (destruct Hi as [-> | ->]; done).
  destruct (JS.isNaN _); simpl; [done |].
  destruct (0 <? _)%nat eqn:H0; simpl; [|done].
  destruct (_ <=? 255)%nat eqn:H1; simpl; [|done].
  intros [= <-]. apply Nat.ltb_lt in H0. apply Nat.leb_le in H1.
  split; [done | split; [lia | done]].
Qed.
















(** An input that reads both ways is read as an amount followed by a
    name: the name [12 apples] before the amount [5] gives the amount 12
    and the name [apples 5]. *)
Lemma parse_prefers_amount_first :
  readsAmountFirst (JS.chars "12 apples 5") = true
  ∧ parseTransactionDetails "12 apples 5"
    = Some (Parsed (JS.Fin false (Qmake 12 1)) "apples 5").
Proof. by vm_compute. Qed.

End ParserFacts.

(** ** The conversation engine *)

Section BotFacts.
Import Scenario.

(** A message that parses as an integer is none of the global commands. *)
Lemma number_is_no_command s k :
  JS.parseInt s = Some k →
  Bot.oneOf (JS.toLowerCase s) ["/cancel"; "cancel"] = false
  ∧ Bot.oneOf (JS.toLowerCase s) ["/back"; "back"; "menu"] = false
  ∧ Bot.oneOf (JS.toLowerCase s) ["/help"; "help"] = false.
Proof.
  unfold JS.parseInt. destruct s as [|c s]; [discriminate |].
  intros H. apply parseIntChars_head in H.
  unfold JS.toLowerCase. simpl.
  each_char c; try discriminate H; repeat split.
Qed.

Lemma selectAccount_selectFrom accounts text :
  Bot.selectAccount accounts text = Bot.selectFrom Account.name accounts text.
Proof. reflexivity. Qed.

Lemma selectCategory_selectFrom categories text :
  Bot.selectCategory categories text
  = Bot.selectFrom Category.name categories text.
Proof. reflexivity. Qed.

Section SelectFrom.
Context {A : Type} (nameOf : A → string).

Lemma selectFrom_index (items : list A) text k :
  JS.parseInt text = Some k → 1 <= k <= Z.of_nat (List.length items) →
  ∃ x, items !! Z.to_nat (k - 1) = Some x
       ∧ Bot.selectFrom nameOf items text = Bot.ByIndex x.
Proof.
  intros Hk Hr. unfold Bot.selectFrom. rewrite Hk. simpl.
  destruct (Z.leb_spec 0 (k - 1)); [| lia].
  destruct (Z.ltb_spec (k - 1) (Z.of_nat (List.length items))); [| lia].
  simpl.
  destruct (lookup_lt_is_Some_2 items (Z.to_nat (k - 1))) as [x Hx]; [lia |].
  exists x. by rewrite Hx.
Qed.

Lemma selectFrom_name (items : list A) text x :
  Bot.selectFrom nameOf items text = Bot.ByName x →
  JS.parseInt text = None
  ∨ ∃ k, JS.parseInt text = Some k ∧ (k < 1 ∨ Z.of_nat (List.length items) < k).
Proof.
  unfold Bot.selectFrom. destruct (JS.parseInt text) as [k|]; [| by left].
  simpl. intros H. right. exists k. split; [done |].
  destruct (Z.leb_spec 0 (k - 1)); [| lia].
  destruct (Z.ltb_spec (k - 1) (Z.of_nat (List.length items))); [| lia].
  simpl in H. destruct (items !! _); discriminate.
Qed.

Lemma selectFrom_numeric_name (items : list A) text x k :
  JS.parseInt (nameOf x) = Some k → 1 <= k <= Z.of_nat (List.length items) →
  JS.toLowerCase text = JS.toLowerCase (nameOf x) →
  ∃ y, items !! Z.to_nat (k - 1) = Some y
       ∧ Bot.selectFrom nameOf items text = Bot.ByIndex y.
Proof.
  intros Hk Hr Hlow. apply selectFrom_index; [| done].
  by rewrite <- parseInt_toLowerCase, Hlow, parseInt_toLowerCase.
Qed.

End SelectFrom.

Lemma account_chosen_by_number pf bot now userId message sessions s k :
  sessions !! userId = Some s →
  UserSession.state s = SELECT_ACCOUNT →
  JS.parseInt (JS.trim message) = Some k →
  1 <= k <= Z.of_nat (List.length (Bot.accountsInUse bot s)) →
  ∃ a, Bot.accountsInUse bot s !! Z.to_nat (k - 1) = Some a
       ∧ UserSession.accountId <$>
           (Bot.sessions (Bot.handleMessage pf bot now userId message sessions)
              !! userId)
         = Some (Some (Account.id a)).
Proof.
  intros Hs Hst Hk Hr.
  destruct (selectFrom_index Account.name (Bot.accountsInUse bot s)
              (JS.trim message) k Hk Hr) as (a & Ha & Hsel).
  exists a. split; [done |].
  destruct (number_is_no_command _ _ Hk) as (H1 & H2 & H3).
  unfold Bot.handleMessage, State.getSession. rewrite Hs, H1, H2, H3, Hst.
  unfold Bot.handleSelectAccount, State.getSession. rewrite Hs.
  rewrite selectAccount_selectFrom, Hsel. simpl.
  unfold State.updateSession, State.getSession. rewrite Hs. simpl.
  by rewrite lookup_insert_eq.
Qed.

Lemma category_chosen_by_number pf bot now userId message sessions s k :
  sessions !! userId = Some s →
  UserSession.state s = SELECT_CATEGORY →
  JS.parseInt (JS.trim message) = Some k →
  1 <= k <= Z.of_nat (List.length (Bot.categories bot)) →
  ∃ c, Bot.categories bot !! Z.to_nat (k - 1) = Some c
       ∧ CreateTransactionParams.category_id <$>
           Bot.submitted (Bot.handleMessage pf bot now userId message sessions)
         = Some (Some (Category.id c)).
Proof.
  intros Hs Hst Hk Hr.
  destruct (selectFrom_index Category.name (Bot.categories bot)
              (JS.trim message) k Hk Hr) as (c & Hc & Hsel).
  exists c. split; [done |].
  destruct (number_is_no_command _ _ Hk) as (H1 & H2 & H3).
  unfold Bot.handleMessage, State.getSession. rewrite Hs, H1, H2, H3, Hst.
  unfold Bot.handleSelectCategory, State.getSession. rewrite Hs.
  rewrite selectCategory_selectFrom, Hsel. simpl.
  destruct (SureAPI.createTransaction _ _); reflexivity.
Qed.

(** C10, as the code has it.  In SELECT_ACCOUNT (on the account list in
    use) and in SELECT_CATEGORY (on the engine's category list), an input
    whose [parseInt] is a number [k] between 1 and the length of the list
    selects the [k]-th entry, whatever follows the digits; an entry is
    selected by name only when [parseInt] of the input is [NaN] or out of
    range; so an entry whose name has an in-range integer prefix ([parseInt]
    of the name lies between 1 and the length of the list) is never selected
    by typing its name, in any letter case: the entry at that position is
    selected instead. *)
Theorem selection_prefers_parsed_index :
  (∀ pf bot now userId message sessions s k,
     sessions !! userId = Some s →
     UserSession.state s = SELECT_ACCOUNT →
     JS.parseInt (JS.trim message) = Some k →
     1 <= k <= Z.of_nat (List.length (Bot.accountsInUse bot s)) →
     ∃ a, Bot.accountsInUse bot s !! Z.to_nat (k - 1) = Some a
          ∧ Bot.selectAccount (Bot.accountsInUse bot s) (JS.trim message)
            = Bot.ByIndex a
          ∧ UserSession.accountId <$>
              (Bot.sessions (Bot.handleMessage pf bot now userId message sessions)
                 !! userId)
            = Some (Some (Account.id a)))
  ∧ (∀ pf bot now userId message sessions s k,
       sessions !! userId = Some s →
       UserSession.state s = SELECT_CATEGORY →
       JS.parseInt (JS.trim message) = Some k →
       1 <= k <= Z.of_nat (List.length (Bot.categories bot)) →
       ∃ c, Bot.categories bot !! Z.to_nat (k - 1) = Some c
            ∧ Bot.selectCategory (Bot.categories bot) (JS.trim message)
              = Bot.ByIndex c
            ∧ CreateTransactionParams.category_id <$>
                Bot.submitted (Bot.handleMessage pf bot now userId message sessions)
              = Some (Some (Category.id c)))
  ∧ (∀ accounts text a,
       Bot.selectAccount accounts text = Bot.ByName a →
       JS.parseInt text = None
       ∨ ∃ k, JS.parseInt text = Some k
              ∧ (k < 1 ∨ Z.of_nat (List.length accounts) < k))
  ∧ (∀ categories text c,
       Bot.selectCategory categories text = Bot.ByName c →
       JS.parseInt text = None
       ∨ ∃ k, JS.parseInt text = Some k
              ∧ (k < 1 ∨ Z.of_nat (List.length categories) < k))
  ∧ (∀ accounts text a k,
       JS.parseInt (Account.name a) = Some k →
       1 <= k <= Z.of_nat (List.length accounts) →
       JS.toLowerCase text = JS.toLowerCase (Account.name a) →
       ∃ b, accounts !! Z.to_nat (k - 1) = Some b
            ∧ Bot.selectAccount accounts text = Bot.ByIndex b)
  ∧ (∀ categories text c k,
       JS.parseInt (Category.name c) = Some k →
       1 <= k <= Z.of_nat (List.length categories) →
       JS.toLowerCase text = JS.toLowerCase (Category.name c) →
       ∃ d, categories !! Z.to_nat (k - 1) = Some d
            ∧ Bot.selectCategory categories text = Bot.ByIndex d).
Proof.
  split; [| split; [| split; [| split; [| split]]]].
  - intros pf bot now userId message sessions s k Hs Hst Hk Hr.
    destruct (account_chosen_by_number pf bot now userId message sessions s k
                Hs Hst Hk Hr) as (a & Ha & Hid).
    exists a. split; [done |]. split; [| done].
    destruct (selectFrom_index Account.name _ _ _ Hk Hr) as (a' & Ha' & Hsel).
    rewrite selectAccount_selectFrom, Hsel. congruence.
  - intros pf bot now userId message sessions s k Hs Hst Hk Hr.
    destruct (category_chosen_by_number pf bot now userId message sessions s k
                Hs Hst Hk Hr) as (c & Hc & Hid).
    exists c. split; [done |]. split; [| done].
    destruct (selectFrom_index Category.name _ _ _ Hk Hr) as (c' & Hc' & Hsel).
    rewrite selectCategory_selectFrom, Hsel. congruence.
  - intros accounts text a. rewrite selectAccount_selectFrom. apply selectFrom_name.
  - intros categories text c. rewrite selectCategory_selectFrom. apply selectFrom_name.
  - intros accounts text a k. rewrite selectAccount_selectFrom.
    apply selectFrom_numeric_name.
  - intros categories text c k. rewrite selectCategory_selectFrom.
    apply selectFrom_numeric_name.
Qed.

(** [1abc] selects the first account, and typing the name [3rd account]
    selects the third entry of the list. *)
Lemma selection_prefers_parsed_index_witness :
  JS.parseInt (JS.trim " 1abc ") = Some 1
  ∧ Bot.selectAccount threeAccounts (JS.trim " 1abc ") = Bot.ByIndex cash
  ∧ Bot.selectAccount threeAccounts "3rd account" = Bot.ByIndex downing.
Proof.
  destruct selection_prefers_parsed_index as (H1 & _ & _ & _ & H5 & _).
  assert (Hk : JS.parseInt (JS.trim " 1abc ") = Some 1) by reflexivity.
  assert (Hs : ({["u" := awaitingAccount threeAccounts]}
                  : gmap string UserSession.t) !! "u"
               = Some (awaitingAccount threeAccounts)) by reflexivity.
  split; [exact Hk |]. split.
  - destruct (H1 plainPlatform (Bot.mk accepting [food] [bank]) 9 "u" " 1abc "
                {["u" := awaitingAccount threeAccounts]}
                (awaitingAccount threeAccounts) 1 Hs eq_refl Hk)
      as (a & Ha & Hsel & _); [simpl; lia |].
    simpl in Ha. injection Ha as <-. exact Hsel.
  - destruct (H5 threeAccounts "3rd account"
                (Account.mk "a9" "3RD Account" "other" None None) 3
                eq_refl) as (b & Hb & Hsel); [simpl; lia | reflexivity |].
    simpl in Hb. injection Hb as <-. exact Hsel.
Defined.

(** C10 as stated fails: in a list of three accounts, the name
    [10 Downing St] begins with the in-range digit 1, and typing it selects
    that account by name, because the parsed number 10 is out of range. *)
Lemma digit_name_selected_by_name :
  In downing threeAccounts
  ∧ Bot.beginsWithInRangeDigit (Account.name downing) (List.length threeAccounts)
    = true
  ∧ Bot.selectAccount threeAccounts (JS.trim "10 downing st") = Bot.ByName downing.
Proof. split; [simpl; tauto |]. split; reflexivity. Qed.

(** The cleanup timer never touches the session map of state.ts. *)
Lemma cleanupTick_sessions now p :
  Index.sessions (Index.cleanupTick now p) = Index.sessions p.
Proof. reflexivity. Qed.

(** C1 fails on the code.  The sweep armed in index.ts runs over the map of
    the SessionManager, which no message ever fills; the sessions the
    engine reads and writes are in the map of state.ts.  A flow abandoned
    at instant 0 is expired one millisecond after the timeout, is still in
    the engine's map after the sweep, and the next message continues it. *)
Theorem sweep_leaves_engine_sessions (pf : Platform.t) (bot : Bot.t) :
  let now := 30 * 60 * 1000 + 1 in
  let p := Index.cleanupTick now process0 in
  SessionManager.expired (Index.sessionManager process0) now abandoned = true
  ∧ Index.sessions p !! "u" = Some abandoned
  ∧ UserSession.state <$>
      (Bot.sessions (Index.deliver pf bot (now + 1) "u" "1" p).1 !! "u")
    = Some SELECT_ACCOUNT.
Proof.
  intros now p. split; [reflexivity |]. split; [reflexivity |].
  vm_compute. reflexivity.
Qed.

(** C7.  Whatever the session of the identity holds, in particular in every
    state other than IDLE, a message that is [cancel] or [/cancel] after
    trimming and lower-casing is answered with the cancellation notice
    (the cross mark, then: Cancelled. Type, the word new in double quotes,
    to add a transaction.) and leaves the identity with a session in state
    IDLE without amount, name, account or transaction type; nothing is
    submitted. *)
Theorem cancel_resets_session (pf : Platform.t) (bot : Bot.t) (now : Z)
    (userId message : string) (sessions : gmap string UserSession.t) :
  JS.toLowerCase (JS.trim message) = "cancel"
  ∨ JS.toLowerCase (JS.trim message) = "/cancel" →
  let out := Bot.handleMessage pf bot now userId message sessions in
  let dq := String (ascii_of_nat 34) "" in
  Bot.reply out
  = "❌ Cancelled. Type " +:+ dq +:+ "new" +:+ dq +:+ " to add a transaction."
  ∧ Bot.submitted out = None
  ∧ ∃ s, Bot.sessions out !! userId = Some s
         ∧ UserSession.state s = IDLE
         ∧ UserSession.amount s = None
         ∧ UserSession.name s = None
         ∧ UserSession.accountId s = None
         ∧ UserSession.transactionType s = None.
Proof.
  intros Htext out dq. unfold out, Bot.handleMessage.
  destruct (State.getSession now userId sessions) as [session sessions'].
  assert (Bot.oneOf (JS.toLowerCase (JS.trim message)) ["/cancel"; "cancel"] = true)
    as -> by (destruct Htext as [-> | ->]; reflexivity).
  simpl. repeat split.
  exists (UserSession.fresh now). unfold State.resetSession.
  rewrite lookup_insert_eq. repeat split.
Qed.

(** Cancelling, in capitals and with spaces around, while the category is
    awaited. *)
Lemma cancel_resets_session_witness :
  let out :=
    Bot.handleMessage plainPlatform (Bot.mk accepting [food] [cash])
      7 "u" "  CANCEL " {["u" := awaitingCategory [food]]} in
  (JS.toLowerCase (JS.trim "  CANCEL ") = "cancel"
   ∨ JS.toLowerCase (JS.trim "  CANCEL ") = "/cancel")
  ∧ UserSession.state (awaitingCategory [food]) = SELECT_CATEGORY
  ∧ Bot.reply out
    = "❌ Cancelled. Type " +:+ String (ascii_of_nat 34) "" +:+ "new"
      +:+ String (ascii_of_nat 34) "" +:+ " to add a transaction."
  ∧ Bot.sessions out !! "u" = Some (UserSession.fresh 7).
Proof.
  intros out.
  assert (H : JS.toLowerCase (JS.trim "  CANCEL ") = "cancel"
              ∨ JS.toLowerCase (JS.trim "  CANCEL ") = "/cancel")
    by (left; reflexivity).
  split; [exact H |]. split; [reflexivity |].
  destruct (cancel_resets_session plainPlatform
              (Bot.mk accepting [food] [cash]) 7 "u" "  CANCEL "
              {["u" := awaitingCategory [food]]} H)
    as (Hreply & _ & s & Hs & _).
  split; [exact Hreply | reflexivity].
Defined.

(** C6.  When the session of the identity is in SELECT_CATEGORY and the
    transaction the message leads to is refused by [createTransaction], the
    reply is the failure message (the cross mark, then: Failed to create
    transaction. Please try again., an empty line, and Error: followed by
    the message of the response when it has one, otherwise by the message
    of the error), and the session map is exactly what it was: the
    identity keeps the same session, with its state, transaction type,
    account, amount and name. *)
Theorem failed_submission_keeps_session (pf : Platform.t) (bot : Bot.t)
    (now : Z) (userId message : string)
    (sessions : gmap string UserSession.t) (s : UserSession.t)
    (params : CreateTransactionParams.t) (error : JS.Error) :
  sessions !! userId = Some s →
  UserSession.state s = SELECT_CATEGORY →
  let out := Bot.handleMessage pf bot now userId message sessions in
  Bot.submitted out = Some params →
  SureAPI.createTransaction (Bot.sureApi bot) params = JS.Throw error →
  let newline := String (ascii_of_nat 10) "" in
  let detail :=
    match JS.responseDataMessage error with
    | Some (String c r) => String c r
    | _ => JS.message error
    end in
  Bot.reply out
  = "❌ Failed to create transaction. Please try again." +:+ newline
    +:+ newline +:+ "Error: " +:+ detail
  ∧ Bot.sessions out = sessions
  ∧ Bot.sessions out !! userId = Some s.
Proof.
  intros Hs Hst out. unfold out, Bot.handleMessage, State.getSession.
  rewrite Hs.
  destruct (Bot.oneOf _ ["/cancel"; "cancel"]); [discriminate |].
  destruct (Bot.oneOf _ ["/back"; "back"; "menu"]); [discriminate |].
  destruct (Bot.oneOf _ ["/help"; "help"]); [discriminate |].
  rewrite Hst. unfold Bot.handleSelectCategory, State.getSession. rewrite Hs.
  destruct (Bot.selected _) as [c|]; [| discriminate].
  match goal with |- context [SureAPI.createTransaction _ ?p] => set (q := p) end.
  destruct (SureAPI.createTransaction (Bot.sureApi bot) q) as [[]|e] eqn:Hq; simpl.
  - intros [= <-] Hthrow. congruence.
  - intros [= <-] Hthrow. rewrite Hq in Hthrow. injection Hthrow as ->.
    split; [| done].
    unfold Bot.failedToCreate, Bot.errorText, JS.orElse, Format.lines.
    by destruct (JS.responseDataMessage error) as [[|a r]|].
Qed.

(** The first category chosen while the finance service refuses every
    transaction. *)
Lemma failed_submission_keeps_session_witness :
  let sessions : gmap string UserSession.t := {["u" := awaitingCategory [food]]} in
  let bot := Bot.mk refusing [food] [cash] in
  let out := Bot.handleMessage plainPlatform bot 9 "u" "1" sessions in
  ∃ params,
    sessions !! "u" = Some (awaitingCategory [food])
    ∧ Bot.submitted out = Some params
    ∧ SureAPI.createTransaction refusing params
      = JS.Throw (JS.mkError "Failed to create transaction: timeout" None)
    ∧ Bot.reply out
      = "❌ Failed to create transaction. Please try again."
        +:+ String (ascii_of_nat 10) "" +:+ String (ascii_of_nat 10) ""
        +:+ "Error: Failed to create transaction: timeout"
    ∧ Bot.sessions out = sessions.
Proof.
  intros sessions bot out.
  eexists.
  assert (H1 : sessions !! "u" = Some (awaitingCategory [food])) by reflexivity.
  assert (H2 : UserSession.state (awaitingCategory [food]) = SELECT_CATEGORY)
    by reflexivity.
  assert (H3 : Bot.submitted out = Some (CreateTransactionParams.mk (Some "a1") ""
                 (JS.Fin true (Qmake 51 2)) (Some "Coffee") (Some "c2") None
                 (Some natureExpense))) by reflexivity.
  assert (H4 : SureAPI.createTransaction (Bot.sureApi bot)
                 (CreateTransactionParams.mk (Some "a1") ""
                    (JS.Fin true (Qmake 51 2)) (Some "Coffee") (Some "c2") None
                    (Some natureExpense))
               = JS.Throw (JS.mkError "Failed to create transaction: timeout" None))
    by reflexivity.
  destruct (failed_submission_keeps_session plainPlatform bot 9 "u" "1" sessions
              _ _ _ H1 H2 H3 H4) as (Hr & Hs & _).
  split; [exact H1 |]. split; [exact H3 |]. split; [exact H4 |].
  split; [exact Hr | exact Hs].
Defined.

(** C2 fails on the code.  With the categories [Salary] (income) and [Food]
    (expense), in that order, the rendered list shows [1. Food] and
    [2. Salary]; in SELECT_CATEGORY the input [1] submits the id of
    [Salary], the first entry of the unsorted list, while the name [FOOD]
    submits the id of [Food]. *)
Theorem category_number_and_name_disagree (pf : Platform.t) :
  let categories := [salary; food] in
  let bot := Bot.mk accepting categories [cash] in
  let sessions : gmap string UserSession.t :=
    {["u" := awaitingCategory categories]} in
  State.formatCategoriesList categories
  = Format.lines
      ["📁 *Select a category:*"; ""; "*Expenses:*"; "1. Food"; "";
       "*Income:*"; "2. Salary"; "";
       "Reply with the number or type the category name."; "";
       Bot.backHint]
  ∧ State.shownCategories categories = [(1%nat, food); (2%nat, salary)]
  ∧ CreateTransactionParams.category_id <$>
      Bot.submitted (Bot.handleMessage pf bot 9 "u" "1" sessions)
    = Some (Some (Category.id salary))
  ∧ CreateTransactionParams.category_id <$>
      Bot.submitted (Bot.handleMessage pf bot 9 "u" "FOOD" sessions)
    = Some (Some (Category.id food))
  ∧ Category.id salary ≠ Category.id food.
Proof.
  intros categories bot sessions.
  split; [reflexivity |].
  split; [reflexivity |]. split; [reflexivity |]. split; [reflexivity |].
  discriminate.
Qed.

(** The account step does resolve against the list stored in the session. *)
Lemma account_selection_reads_snapshot (pf : Platform.t) :
  let bot := Bot.mk accepting [food] [bank] in
  let sessions : gmap string UserSession.t := {["u" := awaitingAccount [cash]]} in
  UserSession.accountId <$>
    (Bot.sessions (Bot.handleMessage pf bot 9 "u" "1" sessions) !! "u")
  = Some (Some (Account.id cash)).
Proof. reflexivity. Qed.

(** With a list stored in the session, the account step does not depend on
    the engine's cache. *)
Lemma account_selection_ignores_live_cache bot bot' now userId message sessions s shown :
  sessions !! userId = Some s →
  UserSession.accounts s = Some shown →
  Bot.handleSelectAccount bot now userId message sessions
  = Bot.handleSelectAccount bot' now userId message sessions.
Proof.
  intros Hs Hshown. unfold Bot.handleSelectAccount, State.getSession.
  rewrite Hs. unfold Bot.accountsInUse. rewrite Hshown. reflexivity.
Qed.

(** The category step never reads the list stored in the session. *)
Lemma category_selection_ignores_snapshot pf bot now userId message sessions s shown :
  sessions !! userId = Some s →
  let s' :=
    UserSession.mk (UserSession.state s) (UserSession.transactionType s)
      (UserSession.accountId s) (UserSession.amount s) (UserSession.name s)
      shown (UserSession.accounts s) (UserSession.createdAt s)
      (UserSession.lastActivityAt s) in
  Bot.submitted
    (Bot.handleSelectCategory pf bot now userId message (<[userId := s']> sessions))
  = Bot.submitted (Bot.handleSelectCategory pf bot now userId message sessions).
Proof.
  intros Hs s'. unfold Bot.handleSelectCategory, State.getSession.
  rewrite lookup_insert_eq, Hs.
  destruct (Bot.selected _); [| reflexivity]. simpl.
  destruct (SureAPI.createTransaction _ _); reflexivity.
Qed.

(** C3 fails on the code for SELECT_CATEGORY.  The session holds the list
    that was shown ([Food], [Rent]) while the engine's cache now holds
    [Salary] only: the input [1] submits [Salary], which was never shown,
    and neither [2] nor the name [Rent], both on the list that was shown,
    selects anything. *)
Theorem category_selection_reads_live_cache (pf : Platform.t) :
  let shown := [food; rent] in
  let live := [salary] in
  let bot := Bot.mk accepting live [cash] in
  let sessions : gmap string UserSession.t := {["u" := awaitingCategory shown]} in
  UserSession.categories <$> (sessions !! "u") = Some (Some shown)
  ∧ CreateTransactionParams.category_id <$>
      Bot.submitted (Bot.handleMessage pf bot 9 "u" "1" sessions)
    = Some (Some (Category.id salary))
  ∧ Bot.reply (Bot.handleMessage pf bot 9 "u" "2" sessions) = Bot.invalidSelection
  ∧ Bot.reply (Bot.handleMessage pf bot 9 "u" "Rent" sessions) = Bot.invalidSelection
  ∧ CreateTransactionParams.category_id <$>
      Bot.submitted (Bot.handleMessage pf bot 9 "u" "salary" sessions)
    = Some (Some (Category.id salary)).
Proof.
  intros shown live bot sessions.
  repeat split.
Qed.

End BotFacts.

(** ** More about the rate limiter *)

Section RateLimiterBudget.
Import RateLimiter.

Lemma recent_length rl now l :
  (List.length (recent rl now l) <= List.length l)%nat.
Proof. unfold recent. apply length_filter. Qed.

Lemma recent_now rl now l :
  0 < windowMs rl →
  recent rl now (recent rl now l ++ [now]) = recent rl now l ++ [now].
Proof.
  intros Hw. unfold recent. rewrite filter_app, list_filter_filter.
  f_equal.
  - apply list_filter_iff. intros t. tauto.
  - rewrite filter_cons_True by lia. reflexivity.
Qed.

Lemma recent_now_closed rl now l :
  windowMs rl <= 0 →
  recent rl now (recent rl now l ++ [now]) = recent rl now l.
Proof.
  intros Hw. unfold recent. rewrite filter_app, list_filter_filter.
  rewrite filter_cons_False by lia. rewrite filter_nil, app_nil_r.
  apply list_filter_iff. intros t. tauto.
Qed.

Lemma getRemaining_other now u v rl :
  v ≠ u → getRemaining now v (isAllowed now u rl).2 = getRemaining now v rl.
Proof.
  intros Hv. destruct ((isAllowed now u rl).1) eqn:Hb.
  - destruct (isAllowed_admitted now u rl Hb) as (Hm & Hw & _ & Ho).
    unfold getRemaining. fold (stored (isAllowed now u rl).2 v).
    fold (stored rl v). rewrite (Ho v Hv). unfold recent. rewrite Hm, Hw.
    reflexivity.
  - rewrite (isAllowed_rejected now u rl Hb). reflexivity.
Qed.

Lemma remaining_refused now u rl :
  (isAllowed now u rl).1 = false ↔ getRemaining now u rl = 0.
Proof.
  assert (Hrem : getRemaining now u rl
    = Z.max 0 (maxAttempts rl
               - Z.of_nat (List.length (recent rl now (stored rl u)))))
    by reflexivity.
  rewrite <- not_true_iff_false, isAllowed_true_iff, Hrem. lia.
Qed.

(** X1: at one instant, [isAllowed] admits exactly when [getRemaining] is
    positive and refuses exactly when it is 0; [getRemaining] lies between
    0 and the budget. *)
Theorem remaining_matches_admission now u rl :
  0 <= getRemaining now u rl <= Z.max 0 (maxAttempts rl)
  ∧ ((isAllowed now u rl).1 = true ↔ 0 < getRemaining now u rl)
  ∧ ((isAllowed now u rl).1 = false ↔ getRemaining now u rl = 0).
Proof.
  assert (Hrem : getRemaining now u rl
    = Z.max 0 (maxAttempts rl
               - Z.of_nat (List.length (recent rl now (stored rl u)))))
    by reflexivity.
  pose proof (isAllowed_true_iff now u rl) as Hiff.
  split; [rewrite Hrem; lia|].
  split; [rewrite Hiff, Hrem; lia|].
  apply remaining_refused.
Qed.

(** X2: with a positive window, an admitted attempt lowers what remains
    for its identity by exactly one and leaves every other identity's
    budget as it was. *)
Theorem admitted_attempt_costs_one now u rl :
  0 < windowMs rl → (isAllowed now u rl).1 = true →
  getRemaining now u (isAllowed now u rl).2 = getRemaining now u rl - 1
  ∧ ∀ v, v ≠ u →
      getRemaining now v (isAllowed now u rl).2 = getRemaining now v rl.
Proof.
  intros Hpos Hb. split; [|intros v Hv; by apply getRemaining_other].
  destruct (isAllowed_admitted now u rl Hb) as (Hm & Hw & Hs & _).
  apply isAllowed_true_iff in Hb.
  unfold getRemaining. fold (stored (isAllowed now u rl).2 u).
  fold (stored rl u). rewrite Hs, Hm.
  assert (Hq : recent (isAllowed now u rl).2 now
                 (recent rl now (stored rl u) ++ [now])
               = recent rl now (stored rl u) ++ [now]).
  { unfold recent at 1. rewrite Hw. apply (recent_now rl now _ Hpos). }
  rewrite Hq, length_app. simpl. lia.
Qed.

Lemma admitted_attempt_costs_one_witness :
  getRemaining 5 "u" (isAllowed 5 "u" limiter3).2 = 3 - 1
  ∧ getRemaining 5 "v" (isAllowed 5 "u" limiter3).2 = 3.
Proof.
  assert (Hw : 0 < windowMs limiter3) by (simpl; lia).
  assert (Hb : (isAllowed 5 "u" limiter3).1 = true) by reflexivity.
  destruct (admitted_attempt_costs_one 5 "u" limiter3 Hw Hb) as [H1 H2].
  split; [exact H1|].
  assert (Hv : "v" ≠ "u") by discriminate.
  exact (H2 "v" Hv).
Defined.

(** X3: [reset] gives the identity its whole budget back, whatever it had
    used, and touches no other identity. *)
Theorem reset_restores_budget now u rl :
  getRemaining now u (reset u rl) = Z.max 0 (maxAttempts rl)
  ∧ ((isAllowed now u (reset u rl)).1 = true ↔ 0 < maxAttempts rl)
  ∧ ∀ v, v ≠ u →
      stored (reset u rl) v = stored rl v
      ∧ getRemaining now v (reset u rl) = getRemaining now v rl
      ∧ (isAllowed now v (reset u rl)).1 = (isAllowed now v rl).1.
Proof.
  assert (Hu : stored (reset u rl) u = []).
  { rewrite stored_reset. by rewrite decide_True. }
  assert (Hrem : getRemaining now u (reset u rl) = Z.max 0 (maxAttempts rl)).
  { unfold getRemaining. fold (stored (reset u rl) u). rewrite Hu.
    simpl. f_equal. lia. }
  split; [exact Hrem|]. split.
  - rewrite isAllowed_true_iff, Hu. simpl. reflexivity.
  - intros v Hv.
    assert (Hs : stored (reset u rl) v = stored rl v).
    { rewrite stored_reset. by rewrite decide_False. }
    split; [exact Hs|]. split.
    + unfold getRemaining. fold (stored (reset u rl) v). fold (stored rl v).
      by rewrite Hs.
    + apply eq_true_iff_eq. rewrite !isAllowed_true_iff, Hs. reflexivity.
Qed.

Lemma reset_restores_budget_witness :
  getRemaining 9 "u" (reset "u" (run limiter3 burst).2) = 3
  ∧ stored (reset "u" (run limiter3 burst).2) "v"
    = stored (run limiter3 burst).2 "v".
Proof.
  destruct (reset_restores_budget 9 "u" (run limiter3 burst).2)
    as (H1 & _ & H3).
  split; [exact H1|].
  assert (Hv : "v" ≠ "u") by discriminate.
  exact (proj1 (H3 "v" Hv)).
Defined.

(** X4: the cleanup sweep is invisible to callers: at the instant of the
    sweep or later, [isAllowed] and [getRemaining] answer as they would
    have without it; what it leaves holds no empty history and no attempt
    outside the window. *)
Theorem cleanup_is_unobservable now now' u rl :
  now <= now' →
  getRemaining now' u (cleanup now rl) = getRemaining now' u rl
  ∧ (isAllowed now' u (cleanup now rl)).1 = (isAllowed now' u rl).1
  ∧ ∀ l, userAttempts (cleanup now rl) !! u = Some l →
      l ≠ [] ∧ ∀ t, t ∈ l → now - t < windowMs rl.
Proof.
  intros Hle.
  assert (Hrec : recent (cleanup now rl) now' (stored (cleanup now rl) u)
                 = recent rl now' (stored rl u)).
  { rewrite stored_cleanup. unfold recent. simpl.
    by apply window_shrinks. }
  split; [|split].
  - unfold getRemaining. fold (stored (cleanup now rl) u). fold (stored rl u).
    by rewrite Hrec.
  - apply eq_true_iff_eq. rewrite !isAllowed_true_iff, Hrec. reflexivity.
  - intros l Hl. unfold cleanup in Hl. simpl in Hl.
    rewrite lookup_omap in Hl.
    destruct (userAttempts rl !! u) as [l0|]; [|discriminate]. simpl in Hl.
    destruct (recent rl now l0) as [|a l1] eqn:Hr; [discriminate|].
    injection Hl as <-. split; [discriminate|].
    intros t Ht. rewrite <- Hr in Ht. unfold recent in Ht.
    apply list_elem_of_filter in Ht. tauto.
Qed.

Lemma cleanup_is_unobservable_witness :
  getRemaining 2600 "u" (cleanup 2500 (run limiter3 (take 6 burst)).2)
  = getRemaining 2600 "u" (run limiter3 (take 6 burst)).2
  ∧ userAttempts (cleanup 2500 (run limiter3 (take 6 burst)).2) !! "u" = None.
Proof.
  assert (Hle : 2500 <= 2600) by lia.
  split; [|reflexivity].
  exact (proj1 (cleanup_is_unobservable 2500 2600 "u"
                  (run limiter3 (take 6 burst)).2 Hle)).
Defined.

(** *** Whole call sequences *)

Lemma exec_log log rl now c :
  (exec (log, rl) (now, c)).1
  = log ++ match c with
           | IsAllowed u => [Attempt now u (isAllowed now u rl).1]
           | GetRemaining _ | Cleanup => []
           | Reset u => [Forgot u]
           | ResetAll => [ForgotAll]
           end.
Proof.
  destruct c; simpl; rewrite ?app_nil_r; try reflexivity.
  by destruct (isAllowed now userId rl).
Qed.

(** One call at an instant not before the last one keeps the log
    justified and in time order. *)
Lemma exec_ordered m w log rl T now c :
  agrees m w log rl T → justified m w log →
  (∀ j t v b, log !! j = Some (Attempt t v b) → t <= T) →
  (∀ i j t t' v v' b b', (i <= j)%nat →
     log !! i = Some (Attempt t v b) → log !! j = Some (Attempt t' v' b') →
     t <= t') →
  T <= now →
  let log' := (exec (log, rl) (now, c)).1 in
  agrees m w log' (exec (log, rl) (now, c)).2 now
  ∧ justified m w log'
  ∧ (∀ j t v b, log' !! j = Some (Attempt t v b) → t <= now)
  ∧ (∀ i j t t' v v' b b', (i <= j)%nat →
       log' !! i = Some (Attempt t v b) → log' !! j = Some (Attempt t' v' b') →
       t <= t').
Proof.
  intros Hag Hj HT Hs HTn. cbv zeta.
  destruct (exec_keeps m w log rl T now c Hag Hj HTn) as [Hag' Hj'].
  pose proof (exec_log log rl now c) as Hlog.
  destruct (exec (log, rl) (now, c)) as [log1 rl1]. simpl in *.
  assert (Hnew : ∀ j t v b, log1 !! j = Some (Attempt t v b) →
            (j < List.length log)%nat ∧ log !! j = Some (Attempt t v b)
            ∨ (j = List.length log ∧ t = now)).
  { intros j t v b Hjl. rewrite Hlog in Hjl.
    apply lookup_app_Some in Hjl as [Hl | [Hge Hr]].
    - left. split; [by eapply lookup_lt_Some | done].
    - right. destruct c; simpl in Hr;
        try (rewrite lookup_nil in Hr; discriminate);
        apply list_lookup_singleton_Some in Hr as [Hz He];
        try discriminate; injection He as <- _ _; split; lia. }
  split; [done |]. split; [done |]. split.
  - intros j t v b Hjl.
    destruct (Hnew j t v b Hjl) as [[_ Hl] | [_ ->]]; [|lia].
    specialize (HT j t v b Hl). lia.
  - intros i j t t' v v' b b' Hij Hi Hj2.
    destruct (Hnew i t v b Hi) as [[Hil Hl] | [-> ->]];
      destruct (Hnew j t' v' b' Hj2) as [[Hjl Hl'] | [-> ->]].
    + by eapply (Hs i j).
    + specialize (HT i t v b Hl). lia.
    + lia.
    + lia.
Qed.

(** Along a clock that does not run backwards the outcomes are the
    justified ones and the log is in time order. *)
Lemma run_ordered m w calls : ∀ log rl T,
  agrees m w log rl T → justified m w log →
  (∀ j t v b, log !! j = Some (Attempt t v b) → t <= T) →
  (∀ i j t t' v v' b b', (i <= j)%nat →
     log !! i = Some (Attempt t v b) → log !! j = Some (Attempt t' v' b') →
     t <= t') →
  nondecreasing (T :: map fst calls) →
  let log' := (fold_left exec calls (log, rl)).1 in
  justified m w log'
  ∧ ∀ i j t t' v v' b b', (i <= j)%nat →
      log' !! i = Some (Attempt t v b) → log' !! j = Some (Attempt t' v' b') →
      t <= t'.
Proof.
  induction calls as [|[now c] calls IH]; intros log rl T Hag Hj HT Hs Hnd;
    [done |].
  change (fold_left exec ((now, c) :: calls) (log, rl))
    with (fold_left exec calls (exec (log, rl) (now, c))).
  assert (T <= now ∧ nondecreasing (now :: map fst calls)) as [HTn Hnd'].
  { simpl in Hnd. simpl. destruct Hnd. split; [lia | done]. }
  destruct (exec_ordered m w log rl T now c Hag Hj HT Hs HTn)
    as (Hag' & Hj' & HT' & Hs').
  destruct (exec (log, rl) (now, c)) as [log1 rl1].
  by apply (IH log1 rl1 now).
Qed.

Lemma run_fresh_ordered m w calls :
  nondecreasing (map fst calls) →
  let log := (run (mk ∅ m w (Some (w * 2))) calls).1 in
  justified m w log
  ∧ ∀ i j t t' v v' b b', (i <= j)%nat →
      log !! i = Some (Attempt t v b) → log !! j = Some (Attempt t' v' b') →
      t <= t'.
Proof.
  intros Hnd. unfold run.
  apply (run_ordered m w calls [] _ (hd 0 (map fst calls))).
  - split; [done | split; [done |]]. intros u now _.
    unfold stored; simpl. by rewrite lookup_empty.
  - intros i now u b Hi. by rewrite lookup_nil in Hi.
  - intros j t v b Hi. by rewrite lookup_nil in Hi.
  - intros i j t t' v v' b b' _ Hi. by rewrite lookup_nil in Hi.
  - destruct calls as [|[now c] calls']; [done |]. simpl in *.
    split; [lia | done].
Qed.

Lemma filter_length_le (P Q : Z → Prop) `{∀ t, Decision (P t)}
    `{∀ t, Decision (Q t)} (l : list Z) :
  (∀ t, t ∈ l → P t → Q t) →
  (List.length (filter P l) <= List.length (filter Q l))%nat.
Proof.
  induction l as [|a l IH]; intros HPQ; [done |].
  assert (IH' : (List.length (filter P l) <= List.length (filter Q l))%nat).
  { apply IH. intros t Ht. apply HPQ. by right. }
  destruct (decide (P a)) as [HP|HP].
  - rewrite (filter_cons_True P) by done.
    rewrite (filter_cons_True Q) by (apply HPQ; [left | done]).
    simpl. lia.
  - rewrite (filter_cons_False P) by done.
    destruct (decide (Q a)).
    + rewrite (filter_cons_True Q) by done. simpl. lia.
    + by rewrite (filter_cons_False Q) by done.
Qed.

(** In a justified log in time order, no window of length [w] holds more
    than [m] admitted attempts of one identity. *)
Lemma window_bound m w log :
  justified m w log →
  (∀ i j t t' v v' b b', (i <= j)%nat →
     log !! i = Some (Attempt t v b) → log !! j = Some (Attempt t' v' b') →
     t <= t') →
  ∀ u s,
    Z.of_nat (List.length (filter (λ t, s <= t < s + w) (admittedTimes u log)))
    <= Z.max 0 m.
Proof.
  induction log as [|e log IH] using rev_ind; intros Hj Hs u s.
  { simpl. lia. }
  assert (Hj0 : justified m w log).
  { intros i now v b Hi.
    assert (Hlt : (i < List.length log)%nat) by (by eapply lookup_lt_Some).
    specialize (Hj i now v b).
    rewrite lookup_app_l in Hj by done. specialize (Hj Hi).
    rewrite take_app_le in Hj by lia. exact Hj. }
  assert (Hs0 : ∀ i j t t' v v' b b', (i <= j)%nat →
            log !! i = Some (Attempt t v b) →
            log !! j = Some (Attempt t' v' b') → t <= t').
  { intros i j t t' v v' b b' Hij Hi Hj2. apply (Hs i j t t' v v' b b' Hij).
    - rewrite lookup_app_l; [done | by eapply lookup_lt_Some].
    - rewrite lookup_app_l; [done | by eapply lookup_lt_Some]. }
  specialize (IH Hj0 Hs0 u s).
  rewrite admittedTimes_snoc.
  destruct e as [now v b | v |]; simpl.
  - destruct (decide (v = u ∧ b = true)) as [[-> ->]|Hne]; [|exact IH].
    rewrite filter_app.
    destruct (decide (s <= now < s + w)) as [Hin|Hout].
    + rewrite filter_cons_True by done. rewrite filter_nil, length_app. simpl.
      assert (Hlast : (log ++ [Attempt now u true]) !! List.length log
                      = Some (Attempt now u true)).
      { rewrite lookup_app_r by lia. by rewrite Nat.sub_diag. }
      destruct (Hj _ _ _ _ Hlast) as [Hb _]. specialize (Hb eq_refl).
      rewrite take_app_le, firstn_all in Hb by lia.
      unfold budgetUsed in Hb.
      pose proof (filter_length_le (λ t, s <= t < s + w) (λ t, now - t < w)
                    (admittedTimes u log)) as Hle.
      assert (Hin' : ∀ t, t ∈ admittedTimes u log →
                s <= t < s + w → now - t < w) by (intros; lia).
      apply Hle in Hin'. lia.
    + rewrite filter_cons_False by done. rewrite filter_nil, app_nil_r.
      exact IH.
  - destruct (decide (v = u)); [simpl; lia | exact IH].
  - lia.
Qed.

(** X5: the guarantee a caller relies on: on any sequence of calls whose
    clock does not run backwards, no identity has more than [maxAttempts]
    admitted attempts (since its history was last reset) inside any window
    of [windowMs] milliseconds, wherever the window starts. *)
Theorem admissions_bounded_in_every_window (m w : Z) (calls : list (Z * call)) :
  nondecreasing (map fst calls) →
  ∀ u s,
    Z.of_nat (List.length
      (filter (λ t, s <= t < s + w)
         (admittedTimes u (run (mk ∅ m w (Some (w * 2))) calls).1)))
    <= Z.max 0 m.
Proof.
  intros Hnd. destruct (run_fresh_ordered m w calls Hnd) as [Hj Hs].
  by apply window_bound.
Qed.

Lemma admissions_bounded_in_every_window_witness :
  admittedTimes "u" (run limiter3 burst).1 = [0; 1; 3; 2600]
  ∧ Z.of_nat (List.length
      (filter (λ t, 0 <= t < 0 + 1000)
         (admittedTimes "u" (run limiter3 burst).1))) <= Z.max 0 3.
Proof.
  assert (H : nondecreasing (map fst burst)) by (simpl; lia).
  split; [reflexivity |].
  exact (admissions_bounded_in_every_window 3 1000 burst H "u" 0).
Defined.

(** X6: a window that is not positive switches the limiter off: when
    [windowMs <= 0] and [maxAttempts >= 1], every attempt of every call
    sequence is admitted. *)
Theorem nonpositive_window_never_refuses (m w : Z) (calls : list (Z * call)) :
  w <= 0 → 1 <= m → nondecreasing (map fst calls) →
  ∀ i now u b,
    (run (mk ∅ m w (Some (w * 2))) calls).1 !! i = Some (Attempt now u b) →
    b = true.
Proof.
  intros Hw Hm Hnd i now u b Hi.
  destruct (run_fresh_ordered m w calls Hnd) as [Hj Hs].
  apply (Hj i now u b Hi). unfold budgetUsed.
  replace (filter (λ t, now - t < w) _) with (@nil Z); [simpl; lia |].
  symmetry. apply filter_none. intros t Ht.
  apply admittedTimes_logged in Ht as [j Hjl].
  apply lookup_take_Some in Hjl as [Hjl Hlt].
  assert (t <= now) by (apply (Hs j i t now u u true b); [lia | done | done]).
  lia.
Qed.

Lemma nonpositive_window_never_refuses_witness :
  (run (mk ∅ 1 0 (Some (0 * 2)))
     [(7, IsAllowed "u"); (7, IsAllowed "u"); (7, IsAllowed "u")]).1
  = [Attempt 7 "u" true; Attempt 7 "u" true; Attempt 7 "u" true]
  ∧ ∀ i now u b,
      (run (mk ∅ 1 0 (Some (0 * 2)))
         [(7, IsAllowed "u"); (7, IsAllowed "u"); (7, IsAllowed "u")]).1 !! i
      = Some (Attempt now u b) → b = true.
Proof.
  split; [reflexivity |].
  apply (nonpositive_window_never_refuses 1 0); [lia | lia | simpl; lia].
Defined.

(** What the limiter holds for one identity never exceeds the budget. *)
Lemma exec_bounded st c :
  (∀ u, Z.of_nat (List.length (stored st.2 u)) <= Z.max 0 (maxAttempts st.2)) →
  maxAttempts (exec st c).2 = maxAttempts st.2
  ∧ ∀ u, Z.of_nat (List.length (stored (exec st c).2 u))
         <= Z.max 0 (maxAttempts st.2).
Proof.
  destruct st as [log rl]. destruct c as [now c]. simpl. intros Hb.
  destruct c as [u | u | u | |]; simpl.
  - pose proof (isAllowed_true_iff now u rl) as Hiff.
    pose proof (isAllowed_rejected now u rl) as Hrej.
    pose proof (isAllowed_admitted now u rl) as Hadm.
    destruct (isAllowed now u rl) as [b rl']; simpl in *.
    destruct b.
    + destruct (Hadm eq_refl) as (Hm' & _ & Hu & Hv). split; [done |].
      intros v. destruct (decide (v = u)) as [->|Hne].
      * rewrite Hu, length_app. simpl.
        assert (Z.of_nat (List.length (recent rl now (stored rl u)))
                < maxAttempts rl) by (by apply Hiff).
        lia.
      * rewrite Hv by done. apply Hb.
    + rewrite (Hrej eq_refl). split; [done | exact Hb].
  - split; [done | exact Hb].
  - split; [done |]. intros v. rewrite stored_reset.
    destruct (decide (u = v)); [simpl; lia | apply Hb].
  - split; [done |]. intros v. unfold stored. simpl. rewrite lookup_empty.
    simpl. lia.
  - split; [done |]. intros v. rewrite stored_cleanup.
    pose proof (recent_length rl now (stored rl v)). specialize (Hb v). lia.
Qed.

(** X7: the limiter's memory per identity is bounded: after any sequence
    of calls, with any clock, it holds at most [maxAttempts] timestamps
    for an identity. *)
Theorem history_never_exceeds_budget (m w : Z) (calls : list (Z * call)) u :
  Z.of_nat (List.length (stored (run (mk ∅ m w (Some (w * 2))) calls).2 u))
  <= Z.max 0 m.
Proof.
  unfold run.
  assert (Hgen : ∀ st,
    (∀ u, Z.of_nat (List.length (stored st.2 u)) <= Z.max 0 (maxAttempts st.2)) →
    maxAttempts (fold_left exec calls st).2 = maxAttempts st.2
    ∧ ∀ u, Z.of_nat (List.length (stored (fold_left exec calls st).2 u))
           <= Z.max 0 (maxAttempts st.2)).
  { induction calls as [|c calls IH]; intros st Hb; [done |].
    change (fold_left exec (c :: calls) st)
      with (fold_left exec calls (exec st c)).
    destruct (exec_bounded st c Hb) as [Hm Hb'].
    rewrite <- Hm in Hb'. destruct (IH _ Hb') as [Hm2 Hb2].
    rewrite Hm in Hm2, Hb2. done. }
  apply (Hgen ([], mk ∅ m w (Some (w * 2)))).
  intros v. unfold stored. simpl. rewrite lookup_empty. simpl. lia.
Qed.

End RateLimiterBudget.

(** ** The SessionManager of types.ts *)

Section SessionManagerFacts.
Import SessionManager.

Lemma sweep_lookup now sm u :
  sessions (clearExpiredSessions now sm) !! u
  = match sessions sm !! u with
    | Some s => if expired sm now s then None else Some s
    | None => None
    end.
Proof.
  unfold clearExpiredSessions. simpl.
  destruct (sessions sm !! u) as [s|] eqn:Hs.
  - destruct (expired sm now s) eqn:He.
    + apply map_lookup_filter_None. right. intros s' Hs' Hf. simpl in Hf.
      congruence.
    + apply map_lookup_filter_Some. split; [done | done].
  - apply map_lookup_filter_None. by left.
Qed.

Lemma stamped_not_expired sm t now s :
  now - t <= sessionTimeoutMs sm →
  expired sm now (UserSession.withLastActivityAt t s) = false.
Proof. intros H. unfold expired. simpl. lia. Qed.

(** X8: a session that was just read or written survives the sweep: after
    [getOrCreateSession], [updateSession] or a successful [getSession] at
    instant [t], a sweep at any instant [now] with
    [now - t <= sessionTimeoutMs] still holds the session, as that call
    returned it. *)
Theorem touched_session_survives_sweep sm t now u upd :
  now - t <= sessionTimeoutMs sm →
  sessions (clearExpiredSessions now (getOrCreateSession t u sm).2) !! u
    = Some (getOrCreateSession t u sm).1
  ∧ sessions (clearExpiredSessions now (updateSession t u upd sm).2) !! u
    = Some (updateSession t u upd sm).1
  ∧ (sessions (clearExpiredSessions now (getSession t u sm).2) !! u
     = (getSession t u sm).1).
Proof.
  intros Hle. rewrite !sweep_lookup. split; [|split].
  - unfold getOrCreateSession.
    destruct (sessions sm !! u) as [s|]; simpl; rewrite lookup_insert_eq.
    + by rewrite (stamped_not_expired _ t now s).
    + unfold expired. simpl.
      destruct (now - t >? sessionTimeoutMs sm) eqn:E; [lia | done].
  - unfold updateSession.
    destruct (getOrCreateSession t u sm) as [s sm1] eqn:Hg.
    assert (Ht : sessionTimeoutMs sm1 = sessionTimeoutMs sm).
    { unfold getOrCreateSession in Hg.
      destruct (sessions sm !! u); injection Hg as _ <-; done. }
    simpl. rewrite lookup_insert_eq.
    unfold expired. simpl. rewrite Ht.
    destruct (now - t >? sessionTimeoutMs sm) eqn:E; [lia | done].
  - unfold getSession.
    destruct (sessions sm !! u) as [s|] eqn:Hs; simpl.
    + rewrite lookup_insert_eq. by rewrite (stamped_not_expired _ t now s).
    + by rewrite Hs.
Qed.

Lemma touched_session_survives_sweep_witness :
  sessions (clearExpiredSessions 1800000
              (getOrCreateSession 0 "u" (constructor defaultSessionTimeoutMs)).2)
    !! "u" = Some (UserSession.fresh 0).
Proof.
  assert (H : 1800000 - 0
              <= sessionTimeoutMs (constructor defaultSessionTimeoutMs))
    by (vm_compute; discriminate).
  exact (proj1 (touched_session_survives_sweep
                  (constructor defaultSessionTimeoutMs) 0 1800000 "u"
                  UserSession.noUpdates H)).
Defined.

(** X9: the sweep removes the expired sessions and nothing else: a session
    is held afterwards exactly when it was held before and its last
    activity is at most [sessionTimeoutMs] old, and then it is unchanged;
    the number of sessions never grows, the settings stay, and a second
    sweep, at the same instant or an earlier one, changes nothing more. *)
Theorem sweep_removes_exactly_the_expired sm now :
  (∀ u s, sessions (clearExpiredSessions now sm) !! u = Some s
          ↔ sessions sm !! u = Some s
            ∧ now - UserSession.lastActivityAt s <= sessionTimeoutMs sm)
  ∧ getActiveSessions (clearExpiredSessions now sm) <= getActiveSessions sm
  ∧ sessionTimeoutMs (clearExpiredSessions now sm) = sessionTimeoutMs sm
  ∧ cleanupInterval (clearExpiredSessions now sm) = cleanupInterval sm
  ∧ (∀ earlier, earlier <= now →
       clearExpiredSessions earlier (clearExpiredSessions now sm)
       = clearExpiredSessions now sm)
  ∧ (∀ later, now <= later →
       clearExpiredSessions later (clearExpiredSessions now sm)
       = clearExpiredSessions later sm).
Proof.
  split; [|split; [|split; [done | split; [done | split]]]].
  - intros u s. rewrite sweep_lookup.
    destruct (sessions sm !! u) as [s'|]; [|split; [done | by intros [? _]]].
    unfold expired.
    destruct (now - UserSession.lastActivityAt s' >? sessionTimeoutMs sm) eqn:E.
    + split; [done | intros [[= ->] ?]; lia].
    + split; [intros [= ->]; split; [done | lia] | by intros [? _]].
  - unfold getActiveSessions, clearExpiredSessions. simpl.
    apply inj_le, map_size_filter.
  - intros earlier Hle. unfold clearExpiredSessions. simpl. f_equal.
    apply map_eq. intros u.
    destruct (filter (λ kv, expired sm now kv.2 = false) (sessions sm) !! u)
      as [s|] eqn:Hs.
    + apply map_lookup_filter_Some. split; [done |].
      apply map_lookup_filter_Some in Hs as [_ He]. simpl in *.
      unfold expired in *. simpl. lia.
    + apply map_lookup_filter_None. by left.
  - intros later Hle. unfold clearExpiredSessions. simpl. f_equal.
    apply map_eq. intros u.
    destruct (filter (λ kv, expired sm later kv.2 = false) (sessions sm) !! u)
      as [s|] eqn:Hs.
    + apply map_lookup_filter_Some in Hs as [Hs He]. simpl in *.
      apply map_lookup_filter_Some. split; [|done].
      apply map_lookup_filter_Some. split; [done |]. simpl.
      unfold expired in *. lia.
    + apply map_lookup_filter_None in Hs as [Hs | Hs].
      * apply map_lookup_filter_None. left.
        apply map_lookup_filter_None. by left.
      * apply map_lookup_filter_None. right. intros s Hsl.
        apply map_lookup_filter_Some in Hsl as [Hsl _]. by apply Hs.
Qed.

Lemma sweep_removes_exactly_the_expired_witness :
  sessions (clearExpiredSessions 1800001
              (mk {["u" := UserSession.fresh 0; "v" := UserSession.fresh 5]}
                  defaultSessionTimeoutMs None))
  = {["v" := UserSession.fresh 5]}
  ∧ clearExpiredSessions 1800001
      (clearExpiredSessions 1800001
         (mk {["u" := UserSession.fresh 0; "v" := UserSession.fresh 5]}
             defaultSessionTimeoutMs None))
    = clearExpiredSessions 1800001
        (mk {["u" := UserSession.fresh 0; "v" := UserSession.fresh 5]}
            defaultSessionTimeoutMs None).
Proof.
  split; [by vm_compute |].
  assert (H : 1800001 <= 1800001) by lia.
  exact (proj1 (proj2 (proj2 (proj2 (proj2
           (sweep_removes_exactly_the_expired
              (mk {["u" := UserSession.fresh 0; "v" := UserSession.fresh 5]}
                  defaultSessionTimeoutMs None) 1800001))))) 1800001 H).
Defined.

(** X10: operations on one identity: [resetSession] forgets it (a later
    [getSession] finds nothing, [getOrCreateSession] starts again from
    IDLE); [updateSession] followed by [getSession] returns what was
    written, stamped with the instant of the read, keeping [createdAt];
    and none of the four touches another identity's session. *)
Theorem session_manager_round_trips sm t t' u upd :
  (getSession t' u (resetSession u sm)).1 = None
  ∧ (getOrCreateSession t' u (resetSession u sm)).1 = UserSession.fresh t'
  ∧ (getSession t' u (updateSession t u upd sm).2).1
    = Some (UserSession.withLastActivityAt t' (updateSession t u upd sm).1)
  ∧ (∀ v, v ≠ u →
       sessions (resetSession u sm) !! v = sessions sm !! v
       ∧ sessions (getOrCreateSession t u sm).2 !! v = sessions sm !! v
       ∧ sessions (getSession t u sm).2 !! v = sessions sm !! v
       ∧ sessions (updateSession t u upd sm).2 !! v = sessions sm !! v).
Proof.
  split; [|split; [|split]].
  - unfold getSession, resetSession. simpl. by rewrite lookup_delete_eq.
  - unfold getOrCreateSession, resetSession. simpl. by rewrite lookup_delete_eq.
  - unfold updateSession. destruct (getOrCreateSession t u sm) as [s sm1].
    unfold getSession. simpl. by rewrite lookup_insert_eq.
  - intros v Hv. split; [|split; [|split]].
    + unfold resetSession. simpl. by rewrite lookup_delete_ne.
    + unfold getOrCreateSession. destruct (sessions sm !! u); simpl;
        by rewrite lookup_insert_ne.
    + unfold getSession. destruct (sessions sm !! u); simpl;
        [by rewrite lookup_insert_ne | done].
    + unfold updateSession, getOrCreateSession.
      destruct (sessions sm !! u); simpl; by rewrite !lookup_insert_ne.
Qed.

Lemma session_manager_round_trips_witness :
  (getSession 9 "u"
     (updateSession 3 "u" UserSession.noUpdates
        (constructor defaultSessionTimeoutMs)).2).1
  = Some (UserSession.mk IDLE None None None None None None 3 9)
  ∧ sessions (updateSession 3 "u" UserSession.noUpdates
                (constructor defaultSessionTimeoutMs)).2 !! "v" = None.
Proof.
  destruct (session_manager_round_trips
              (constructor defaultSessionTimeoutMs) 3 9 "u"
              UserSession.noUpdates) as (_ & _ & H3 & H4).
  split; [exact H3 |].
  assert (Hv : "v" ≠ "u") by discriminate.
  exact (proj2 (proj2 (proj2 (H4 "v" Hv)))).
Defined.

End SessionManagerFacts.

(** ** More about the parser *)

Section ParserShape.
Import Regex Parser.

Lemma length_str l : String.length (JS.str l) = List.length l.
Proof. induction l as [|a l IH]; simpl; [done | by rewrite IH]. Qed.

Lemma solid_ends l :
  solid l →
  negb (JS.isWhiteSpace (hd " "%char l)) = true
  ∧ negb (JS.isWhiteSpace (List.last l " "%char)) = true.
Proof.
  intros [(a & l1 & -> & Ha) (l2 & z & Hl & Hz)]. split.
  - simpl. by rewrite Ha.
  - rewrite Hl, last_last. by rewrite Hz.
Qed.

Lemma tryPatterns_Some ps validated res :
  tryPatterns ps validated = Some res →
  ∃ i p m, In (i, p) ps ∧ Regex.exec p validated = Some m
           ∧ candidate i m = Some res.
Proof.
  induction ps as [|[i p] ps IH]; simpl; [done |]. intros H.
  destruct (Regex.exec p validated) as [m|] eqn:Hm.
  - destruct (candidate i m) as [r|] eqn:Hc.
    + injection H as <-. exists i, p, m. by split; [left |].
    + destruct (IH H) as (j & q & m' & Hin & ?). exists j, q, m'.
      by split; [right |].
  - destruct (IH H) as (j & q & m' & Hin & ?). exists j, q, m'.
    by split; [right |].
Qed.

Lemma candidate_name_first i a b m res :
  (i = 2 ∨ i = 3)%nat → g1 m = Some a → g2 m = Some b →
  candidate i m = Some res →
  JS.isNaN (JS.parseFloatChars (stripAmount b)) = false
  ∧ (1 <= List.length (JS.trimChars a) <= 255)%nat
  ∧ res = Parsed (JS.abs (JS.parseFloatChars (stripAmount b)))
            (JS.str (JS.trimChars a)).
Proof.
  intros Hi Ha Hb. unfold candidate. rewrite Ha, Hb. simpl.
  assert (((i =? 2)%nat || (i =? 3)%nat)%bool = true) as ->
    by (destruct Hi as [-> | ->]; done).
  destruct (JS.isNaN _); simpl; [done |].
  destruct (0 <? _)%nat eqn:H0; simpl; [|done].
  destruct (_ <=? 255)%nat eqn:H1; simpl; [|done].
  intros [= <-]. apply Nat.ltb_lt in H0. apply Nat.leb_le in H1.
  split; [done | split; [lia | done]].
Qed.

Lemma nameOk_trimmed raw :
  (1 <= List.length (JS.trimChars raw) <= 255)%nat →
  Forall (λ x, dot x = true) raw →
  Forall (λ x, isDangerous x = false) raw →
  nameOk (JS.trimChars raw) = true.
Proof.
  intros Hlen Hdot Hclean. unfold nameOk.
  destruct (trimChars_shape raw) as (_ & _ & _ & _ & _ & [Hnil | Hsolid]).
  { rewrite Hnil in Hlen. simpl in Hlen. lia. }
  destruct (solid_ends _ Hsolid) as [-> ->].
  assert ((0 <? List.length (JS.trimChars raw))%nat = true) as ->
    by (apply Nat.ltb_lt; lia).
  assert ((List.length (JS.trimChars raw) <=? 255)%nat = true) as ->
    by (apply Nat.leb_le; lia).
  rewrite Forall_forallb; [done |].
  apply trimChars_Forall.
  assert (Hboth : Forall (λ x, dot x = true ∧ isDangerous x = false) raw)
    by (by apply Forall_and).
  eapply Forall_impl; [exact Hboth |].
  intros x [Hx1 Hx2]. simpl in *. unfold dot in Hx1. by rewrite Hx1, Hx2.
Qed.

Lemma gapOk_intro sp : sp ≠ [] → spaces sp → gapOk sp = true.
Proof.
  intros Hne Hsp. unfold gapOk. rewrite (Forall_forallb _ _ Hsp).
  by destruct sp.
Qed.

Lemma sanitise_Forall l : Forall (λ x, isDangerous x = false) (sanitise l).
Proof.
  unfold sanitise. induction l as [|a l IH]; simpl; [constructor |].
  destruct (isDangerous a) eqn:Ha; simpl; [done | by constructor].
Qed.

Lemma validateInput_Some input validated :
  validateInput input = Some validated →
  validated = sanitise (JS.trimChars (JS.chars input))
  ∧ (List.length (JS.trimChars (JS.chars input)) <= 500)%nat
  ∧ Forall (λ x, isDangerous x = false) validated.
Proof.
  unfold validateInput. destruct input as [|c input]; [done |].
  cbv zeta.
  set (trimmed := JS.trimChars (JS.chars (String c input))).
  destruct ((List.length trimmed =? 0)%nat || (500 <? List.length trimmed)%nat)%bool
    eqn:Hlen; [done |].
  destruct (List.length (sanitise trimmed) =? 0)%nat; [done |].
  intros Heq. injection Heq as <-.
  apply orb_false_iff in Hlen as [_ Hlen]. apply Nat.ltb_ge in Hlen.
  split; [done | split; [done |]].
  apply sanitise_Forall.
Qed.

(** Every result comes from an amount, white space and a name, in one of
    the two orders. *)
Lemma tryPatterns_shape validated res :
  Forall (λ x, isDangerous x = false) validated →
  tryPatterns patterns validated = Some res →
  ∃ dollar minus ip fp sp raw,
    amountOk ip fp = true ∧ gapOk sp = true
    ∧ (validated = amountText dollar minus ip fp ++ sp ++ raw
       ∨ validated = raw ++ sp ++ amountText dollar minus ip fp)
    ∧ res = Parsed (JS.toDouble false (decimalValue ip fp))
              (JS.str (JS.trimChars raw))
    ∧ nameOk (JS.trimChars raw) = true.
Proof.
  intros Hclean Hres.
  destruct (tryPatterns_Some _ _ _ Hres) as (i & p & m & Hin & Hexec & Hcand).
  apply exec_sound in Hexec.
  assert (Hamount : ∀ w c c', matches dollarNumber w c c' ∨ matches number w c c' →
            ∃ dollar minus ip fp, w = amountText dollar minus ip fp
                                  ∧ amountOk ip fp = true).
  { intros w c c' [H | H]; [by eapply dollarNumber_inv |].
    destruct (number_inv _ _ _ H) as (minus & ip & fp & ? & ?).
    by exists false, minus, ip, fp. }
  simpl in Hin.
  destruct Hin as [[= <- <-] | [[= <- <-] | [[= <- <-] | [[= <- <-] | []]]]].
  - destruct (amount_first_inv _ _ _ _ Hexec)
      as (a & sp & b & c1 & Hv & Ha & Hne & Hsp & _ & Hdot & Hg1 & Hg2).
    destruct (Hamount a _ _ (or_intror Ha)) as (dollar & minus & ip & fp & -> & Hok).
    destruct (candidate_amount_first 0 _ _ _ _ (or_introl eq_refl) Hg1 Hg2 Hcand)
      as (_ & Hlen & ->).
    rewrite (amount_read _ _ _ _ Hok), abs_toDouble.
    exists dollar, minus, ip, fp, sp, b.
    split; [done | split; [by apply gapOk_intro | split; [by left | split; [done |]]]].
    apply nameOk_trimmed; [done | done |].
    rewrite Hv in Hclean. apply Forall_app in Hclean as [_ Hclean].
    by apply Forall_app in Hclean as [_ Hclean].
  - destruct (amount_first_inv _ _ _ _ Hexec)
      as (a & sp & b & c1 & Hv & Ha & Hne & Hsp & _ & Hdot & Hg1 & Hg2).
    destruct (Hamount a _ _ (or_introl Ha)) as (dollar & minus & ip & fp & -> & Hok).
    destruct (candidate_amount_first 1 _ _ _ _ (or_intror eq_refl) Hg1 Hg2 Hcand)
      as (_ & Hlen & ->).
    rewrite (amount_read _ _ _ _ Hok), abs_toDouble.
    exists dollar, minus, ip, fp, sp, b.
    split; [done | split; [by apply gapOk_intro | split; [by left | split; [done |]]]].
    apply nameOk_trimmed; [done | done |].
    rewrite Hv in Hclean. apply Forall_app in Hclean as [_ Hclean].
    by apply Forall_app in Hclean as [_ Hclean].
  - destruct (name_first_inv number _ _ _ eq_refl Hexec)
      as (a & sp & b & Hv & _ & Hdot & Hne & Hsp & Hb & Hg1 & Hg2).
    destruct (Hamount b _ _ (or_intror Hb)) as (dollar & minus & ip & fp & -> & Hok).
    destruct (candidate_name_first 2 _ _ _ _ (or_introl eq_refl) Hg1 Hg2 Hcand)
      as (_ & Hlen & ->).
    rewrite (amount_read _ _ _ _ Hok), abs_toDouble.
    exists dollar, minus, ip, fp, sp, a.
    split; [done | split; [by apply gapOk_intro | split; [by right | split; [done |]]]].
    apply nameOk_trimmed; [done | done |].
    rewrite Hv in Hclean. by apply Forall_app in Hclean as [Hclean _].
  - destruct (name_first_inv dollarNumber _ _ _ eq_refl Hexec)
      as (a & sp & b & Hv & _ & Hdot & Hne & Hsp & Hb & Hg1 & Hg2).
    destruct (Hamount b _ _ (or_introl Hb)) as (dollar & minus & ip & fp & -> & Hok).
    destruct (candidate_name_first 3 _ _ _ _ (or_intror eq_refl) Hg1 Hg2 Hcand)
      as (_ & Hlen & ->).
    rewrite (amount_read _ _ _ _ Hok), abs_toDouble.
    exists dollar, minus, ip, fp, sp, a.
    split; [done | split; [by apply gapOk_intro | split; [by right | split; [done |]]]].
    apply nameOk_trimmed; [done | done |].
    rewrite Hv in Hclean. by apply Forall_app in Hclean as [Hclean _].
Qed.

(** The amount and the name of every result. *)
Lemma parse_result input res :
  parseTransactionDetails input = Some res →
  ∃ x name, res = Parsed x (JS.str name)
            ∧ JS.isMagnitude x = true
            ∧ (1 <= List.length name <= 255)%nat.
Proof.
  unfold parseTransactionDetails.
  destruct (validateInput input) as [validated|] eqn:Hv; [|done]. intros Hres.
  destruct (validateInput_Some _ _ Hv) as (_ & _ & Hclean).
  destruct (tryPatterns_shape _ _ Hclean Hres)
    as (dollar & minus & ip & fp & sp & raw & _ & _ & _ & -> & Hname).
  eexists _, _. split; [done |]. split; [apply isMagnitude_toDouble |].
  apply nameOk_inv in Hname as (Hne & Hlen & _).
  destruct (JS.trimChars raw); [done | simpl in *; lia].
Qed.

(** X11: what [parseTransactionDetails] accepts.  Whenever it returns a
    result, the input, trimmed (at most 500 characters) and with the
    characters of the sanitation removed, is an amount text, white space
    and a rest, in one of the two orders; the amount returned is the
    double nearest to the value of the amount text without its sign (a
    number without sign: an infinity when that value is [2^1024 - 2^970]
    or more, otherwise a finite double such that no double is nearer to
    it), and the name returned is the rest, trimmed: 1 to 255 characters,
    with no line terminator, none of the removed characters and no white
    space at either end. *)
Theorem parse_accepts_amount_and_name_only input res :
  parseTransactionDetails input = Some res →
  ∃ dollar minus ip fp sp raw,
    amountOk ip fp = true ∧ gapOk sp = true
    ∧ (List.length (JS.trimChars (JS.chars input)) <= 500)%nat
    ∧ (sanitise (JS.trimChars (JS.chars input))
         = amountText dollar minus ip fp ++ sp ++ raw
       ∨ sanitise (JS.trimChars (JS.chars input))
         = raw ++ sp ++ amountText dollar minus ip fp)
    ∧ res = Parsed (JS.toDouble false (decimalValue ip fp))
              (JS.str (JS.trimChars raw))
    ∧ JS.isMagnitude (amount res) = true
    ∧ JS.rounds (decimalValue ip fp) (amount res)
    ∧ nameOk (JS.trimChars raw) = true.
Proof.
  unfold parseTransactionDetails.
  destruct (validateInput input) as [validated|] eqn:Hv; [|done]. intros Hres.
  destruct (validateInput_Some _ _ Hv) as (Heq & Hlen & Hclean).
  destruct (tryPatterns_shape _ _ Hclean Hres)
    as (dollar & minus & ip & fp & sp & raw & H1 & H2 & H3 & H4 & H5).
  exists dollar, minus, ip, fp, sp, raw. rewrite <- Heq.
  do 5 (split; [done |]). rewrite H4. cbn [amount].
  split; [apply isMagnitude_toDouble |].
  split; [apply toDouble_rounds, decimalValue_nonneg | done].
Qed.

Lemma parse_accepts_amount_and_name_only_witness :
  ∃ dollar minus ip fp sp raw,
    amountOk ip fp = true ∧ gapOk sp = true
    ∧ (List.length (JS.trimChars (JS.chars " Lunch  -12.5 ")) <= 500)%nat
    ∧ (sanitise (JS.trimChars (JS.chars " Lunch  -12.5 "))
         = amountText dollar minus ip fp ++ sp ++ raw
       ∨ sanitise (JS.trimChars (JS.chars " Lunch  -12.5 "))
         = raw ++ sp ++ amountText dollar minus ip fp)
    ∧ Parsed (JS.Fin false (Qmake 25 2)) "Lunch"
      = Parsed (JS.toDouble false (decimalValue ip fp))
          (JS.str (JS.trimChars raw))
    ∧ JS.isMagnitude (amount (Parsed (JS.Fin false (Qmake 25 2)) "Lunch"))
      = true
    ∧ JS.rounds (decimalValue ip fp)
        (amount (Parsed (JS.Fin false (Qmake 25 2)) "Lunch"))
    ∧ nameOk (JS.trimChars raw) = true.
Proof.
  assert (H : parseTransactionDetails " Lunch  -12.5 "
              = Some (Parsed (JS.Fin false (Qmake 25 2)) "Lunch"))
    by (by vm_compute).
  exact (parse_accepts_amount_and_name_only " Lunch  -12.5 " _ H).
Defined.

(** *** White space around the input, and the patterns that decide *)

Lemma parse_depends_on_trim m1 m2 :
  JS.trim m1 = JS.trim m2 →
  parseTransactionDetails m1 = parseTransactionDetails m2.
Proof.
  intros H. unfold parseTransactionDetails. rewrite !validateInput_trimmed.
  assert (JS.trimChars (JS.chars m1) = JS.trimChars (JS.chars m2)) as ->; [|done].
  unfold JS.trim in H. apply (f_equal JS.chars) in H.
  by rewrite !chars_str in H.
Qed.





End ParserShape.

(** ** Numbers as they are printed and read back *)

Section PrintedNumbers.

Lemma digitsValue_snoc radix l : ∀ acc d,
  JS.digitsValue radix acc (l ++ [d]) = (JS.digitsValue radix acc l * radix + d)%N.
Proof. induction l as [|x l IH]; intros acc d; simpl; [done | apply IH]. Qed.

Lemma pretty_N_char_digit k :
  (k < 10)%N →
  JS.isDigit (pretty_N_char k) = true ∧ JS.digitVal (pretty_N_char k) = k.
Proof.
  intros Hk.
  assert (k = 0 ∨ k = 1 ∨ k = 2 ∨ k = 3 ∨ k = 4 ∨ k = 5 ∨ k = 6 ∨ k = 7
          ∨ k = 8 ∨ k = 9)%N as Hc by lia.
  repeat (destruct Hc as [-> | Hc]; [by vm_compute |]). subst. by vm_compute.
Qed.

(** The decimal digits [pretty] writes in front of [s]. *)
Lemma pretty_N_go_digits x : ∀ s,
  ∃ ds, pretty_N_go x s = JS.str ds +:+ s
        ∧ Forall (λ a, JS.isDigit a = true) ds
        ∧ JS.digitsValue 10 0 (map JS.digitVal ds) = x
        ∧ ((0 < x)%N → ds ≠ []).
Proof.
  induction (N.lt_wf_0 x) as [x _ IH]; intros s.
  destruct (decide (x = 0%N)) as [->|Hx].
  - exists []. rewrite pretty_N_go_0. repeat split; [constructor | lia].
  - rewrite pretty_N_go_step by lia.
    destruct (IH (x `div` 10)%N) with (s := String (pretty_N_char (x `mod` 10)) s)
      as (ds & Heq & Hds & Hval & _).
    { apply N.div_lt; lia. }
    destruct (pretty_N_char_digit (x `mod` 10)%N) as [Hd Hv].
    { apply N.mod_lt. lia. }
    exists (ds ++ [pretty_N_char (x `mod` 10)]). split; [|split; [|split]].
    + rewrite Heq. unfold JS.str. generalize (pretty_N_char (x `mod` 10)).
      clear. intros c.
      induction ds as [|a ds IHds]; simpl; [done |].
      change (String a (string_of_list_ascii ds +:+ String c s)
              = String a (string_of_list_ascii (ds ++ [c]) +:+ s)).
      by rewrite IHds.
    + apply Forall_app. split; [done | by constructor].
    + rewrite map_app. simpl. rewrite digitsValue_snoc, Hval, Hv.
      pose proof (N.div_mod x 10). lia.
    + intros _. by destruct ds.
Qed.

Lemma pretty_nat_digits (n : nat) :
  ∃ d ds, JS.chars (pretty n) = d :: ds
          ∧ Forall (λ a, JS.isDigit a = true) (d :: ds)
          ∧ JS.digitsValue 10 0 (map JS.digitVal (d :: ds)) = N.of_nat n.
Proof.
  unfold pretty, pretty_nat, pretty, pretty_N.
  destruct (decide (N.of_nat n = 0%N)) as [Hz|Hnz].
  - exists "0"%char, []. rewrite Hz. split; [done |].
    split; [by repeat constructor | done].
  - destruct (pretty_N_go_digits (N.of_nat n) "") as (ds & Heq & Hds & Hval & Hne).
    destruct ds as [|d ds]; [exfalso; apply Hne; [lia | done] |].
    exists d, ds. rewrite Heq. split; [|done].
    change (String.append (JS.str (d :: ds)) "") with (JS.str (d :: ds) +:+ "").
    assert (Happ : ∀ t, t +:+ "" = t).
    { clear. induction t as [|a t IHt]; [done |].
      change (String a (t +:+ "") = String a t). by rewrite IHt. }
    rewrite Happ. apply chars_str.
Qed.

Lemma digits_no_hex_prefix d ds :
  Forall (λ a, JS.isDigit a = true) (d :: ds) →
  JS.stripHexPrefix (d :: ds) = None.
Proof.
  intros Hall. destruct ds as [|e ds]; [done |].
  apply Forall_cons in Hall as [_ Hall]. apply Forall_cons in Hall as [He _].
  unfold JS.stripHexPrefix.
  assert (Ascii.eqb e "x" = false ∧ Ascii.eqb e "X" = false) as [-> ->].
  { clear -He. each_char e; try discriminate He; by vm_compute. }
  by rewrite andb_false_r.
Qed.

(** [parseInt] reads a printed number back. *)
Lemma parseInt_pretty (n : nat) : JS.parseInt (pretty n) = Some (Z.of_nat n).
Proof.
  destruct (pretty_nat_digits n) as (d & ds & Hc & Hall & Hval).
  unfold JS.parseInt. rewrite Hc. unfold JS.parseIntChars.
  pose proof Hall as Hall'. apply Forall_cons in Hall' as [Hd _].
  destruct (digit_facts d Hd) as (Hws & _ & Hm & Hp & _).
  rewrite (dropWhile_stop _ _ _ Hws).
  unfold JS.readSign. rewrite Hm, Hp.
  rewrite (digits_no_hex_prefix d ds Hall).
  unfold JS.takeDec. rewrite (takeWhile_whole _ _ Hall).
  rewrite Hval. simpl map. cbv iota. f_equal. lia.
Qed.

Lemma trim_pretty (n : nat) : JS.trim (pretty n) = pretty n.
Proof.
  destruct (pretty_nat_digits n) as (d & ds & Hc & Hall & _).
  unfold JS.trim. rewrite Hc, trimChars_solid.
  - rewrite <- Hc. apply str_chars.
  - split.
    + exists d, ds. split; [done |].
      apply Forall_cons in Hall as [Hd _]. by destruct (digit_facts d Hd).
    + destruct (exists_last (l := d :: ds)) as (l' & z & Hl); [done |].
      exists l', z. split; [done |].
      rewrite Hl in Hall. apply Forall_app in Hall as [_ Hz].
      apply Forall_cons in Hz as [Hz _]. by destruct (digit_facts z Hz).
Qed.

End PrintedNumbers.

(** ** More about the engine *)

Section EngineFacts.
Import Scenario.

Lemma getSession_present now u ss s :
  ss !! u = Some s → State.getSession now u ss = (s, ss).
Proof. intros H. unfold State.getSession. by rewrite H. Qed.

Lemma getSession_absent now u ss :
  ss !! u = None →
  State.getSession now u ss
  = (UserSession.fresh now, <[u := UserSession.fresh now]> ss).
Proof. intros H. unfold State.getSession. by rewrite H. Qed.

Lemma getSession_holds now u ss :
  (State.getSession now u ss).2 !! u = Some (State.getSession now u ss).1.
Proof.
  unfold State.getSession. destruct (ss !! u) as [s|] eqn:H; simpl; [done |].
  by rewrite lookup_insert_eq.
Qed.

Lemma getSession_other now u v ss :
  v ≠ u → (State.getSession now u ss).2 !! v = ss !! v.
Proof.
  intros Hv. unfold State.getSession. destruct (ss !! u); simpl; [done |].
  by rewrite lookup_insert_ne.
Qed.

Lemma updateSession_present now u upd ss s :
  ss !! u = Some s →
  State.updateSession now u upd ss
  = (UserSession.withLastActivityAt now (UserSession.spread s upd),
     <[u := UserSession.withLastActivityAt now (UserSession.spread s upd)]> ss).
Proof. intros H. unfold State.updateSession. by rewrite (getSession_present _ _ _ _ H). Qed.

(** The engine works on the map [getSession] leaves. *)
Lemma handleMessage_getSession pf bot now u m ss :
  Bot.handleMessage pf bot now u m ss
  = Bot.handleMessage pf bot now u m (State.getSession now u ss).2.
Proof.
  unfold Bot.handleMessage at 2.
  rewrite (getSession_present now u _ _ (getSession_holds now u ss)).
  unfold Bot.handleMessage.
  destruct (State.getSession now u ss) as [s ss'] eqn:Hg. simpl. done.
Qed.

(** What one message does to the session map and what it submits, for an
    identity that has a session: the branches of [handleMessage] and of
    the five handlers, without the reply texts. *)
Lemma handleMessage_effect pf bot now u m ss s :
  ss !! u = Some s →
  let out := Bot.handleMessage pf bot now u m ss in
  let text := JS.toLowerCase (JS.trim m) in
  let upd p :=
    <[u := UserSession.withLastActivityAt now (UserSession.spread s p)]> ss in
  (Bot.sessions out, Bot.submitted out)
  = if (Bot.oneOf text ["/cancel"; "cancel"]
        || Bot.oneOf text ["/back"; "back"; "menu"])%bool
    then (<[u := UserSession.fresh now]> ss, None)
    else if Bot.oneOf text ["/help"; "help"] then (ss, None)
    else
      match UserSession.state s with
      | IDLE =>
          if Bot.oneOf text ["new"; "/add"; "add"] then
            match Bot.accounts bot with
            | [] => (ss, None)
            | _ => (upd (UserSession.mkPartial (Some SELECT_TYPE) None None
                           None None None None None None), None)
            end
          else (ss, None)
      | SELECT_TYPE =>
          if Bot.oneOf text ["1"; "expense"; "expenses"] then
            (upd (UserSession.mkPartial (Some SELECT_ACCOUNT) (Some expense)
                    None None None None (Some (Bot.accounts bot)) None None),
             None)
          else if Bot.oneOf text ["2"; "income"] then
            (upd (UserSession.mkPartial (Some SELECT_ACCOUNT) (Some income)
                    None None None None (Some (Bot.accounts bot)) None None),
             None)
          else (ss, None)
      | SELECT_ACCOUNT =>
          match Bot.selected (Bot.selectAccount (Bot.accountsInUse bot s)
                                (JS.trim m)) with
          | None => (ss, None)
          | Some a =>
              (upd (UserSession.mkPartial (Some ENTER_DETAILS) None
                      (Some (Account.id a)) None None None None None None),
               None)
          end
      | ENTER_DETAILS =>
          match Parser.parseTransactionDetails m with
          | None => (ss, None)
          | Some parsed =>
              (upd (UserSession.mkPartial (Some SELECT_CATEGORY) None None
                      (Some (Parser.amount parsed)) (Some (Parser.name parsed))
                      (Some (Bot.categories bot)) None None None), None)
          end
      | SELECT_CATEGORY =>
          match Bot.selected (Bot.selectCategory (Bot.categories bot)
                                (JS.trim m)) with
          | None => (ss, None)
          | Some c =>
              let params := Conversation.paramsFor pf now s c in
              (match SureAPI.createTransaction (Bot.sureApi bot) params with
               | JS.Normal _ => <[u := UserSession.fresh now]> ss
               | JS.Throw _ => ss
               end, Some params)
          end
      end.
Proof.
  intros Hs. cbv zeta. unfold Bot.handleMessage.
  rewrite (getSession_present _ _ _ _ Hs).
  destruct (Bot.oneOf _ ["/cancel"; "cancel"]); [done |].
  destruct (Bot.oneOf _ ["/back"; "back"; "menu"]); [done |].
  destruct (Bot.oneOf _ ["/help"; "help"]); [done |].
  rewrite orb_false_l.
  destruct (UserSession.state s).
  - unfold Bot.handleIdle.
    destruct (Bot.oneOf _ ["new"; "/add"; "add"]).
    + destruct (Bot.accounts bot); [done |].
      by rewrite (updateSession_present _ _ _ _ _ Hs).
    + by repeat case_match.
  - unfold Bot.handleSelectType.
    destruct (Bot.oneOf _ ["1"; "expense"; "expenses"]).
    { by rewrite (updateSession_present _ _ _ _ _ Hs). }
    destruct (Bot.oneOf _ ["2"; "income"]); [|done].
    by rewrite (updateSession_present _ _ _ _ _ Hs).
  - unfold Bot.handleSelectAccount.
    rewrite (getSession_present _ _ _ _ Hs).
    destruct (Bot.selected _); [|done].
    by rewrite (updateSession_present _ _ _ _ _ Hs).
  - unfold Bot.handleEnterDetails.
    destruct (Parser.parseTransactionDetails m); [|done].
    by rewrite (updateSession_present _ _ _ _ _ Hs).
  - unfold Bot.handleSelectCategory.
    rewrite (getSession_present _ _ _ _ Hs).
    destruct (Bot.selected _); [|done].
    unfold Conversation.paramsFor. cbv zeta.
    by destruct (SureAPI.createTransaction _ _).
Qed.

Lemma handleMessage_effect_fresh pf bot now u m ss :
  ∃ s, (State.getSession now u ss).2 !! u = Some s
       ∧ s = (State.getSession now u ss).1
       ∧ Bot.handleMessage pf bot now u m ss
         = Bot.handleMessage pf bot now u m (State.getSession now u ss).2.
Proof.
  exists (State.getSession now u ss).1.
  split; [apply getSession_holds | split; [done | apply handleMessage_getSession]].
Qed.

(** The reply, too, is read from the sender's own session only. *)
Lemma handleMessage_local pf bot now u m ss1 ss2 :
  ss1 !! u = ss2 !! u →
  Bot.reply (Bot.handleMessage pf bot now u m ss1)
  = Bot.reply (Bot.handleMessage pf bot now u m ss2)
  ∧ Bot.submitted (Bot.handleMessage pf bot now u m ss1)
    = Bot.submitted (Bot.handleMessage pf bot now u m ss2)
  ∧ Bot.sessions (Bot.handleMessage pf bot now u m ss1) !! u
    = Bot.sessions (Bot.handleMessage pf bot now u m ss2) !! u.
Proof.
  intros Heq.
  rewrite (handleMessage_getSession pf bot now u m ss1),
          (handleMessage_getSession pf bot now u m ss2).
  pose proof (getSession_holds now u ss1) as H1.
  pose proof (getSession_holds now u ss2) as H2.
  assert (Hs : (State.getSession now u ss1).1 = (State.getSession now u ss2).1).
  { unfold State.getSession. rewrite Heq. by destruct (ss2 !! u). }
  rewrite Hs in H1.
  generalize dependent (State.getSession now u ss1).2. intros m1 H1.
  generalize dependent (State.getSession now u ss2).2. intros m2 H2.
  generalize dependent (State.getSession now u ss2).1. intros s _ H1 H2.
  clear Heq ss1 ss2.
  unfold Bot.handleMessage.
  rewrite (getSession_present _ _ _ _ H1), (getSession_present _ _ _ _ H2).
  unfold State.resetSession.
  destruct (Bot.oneOf _ ["/cancel"; "cancel"]);
    [simpl; by rewrite !lookup_insert_eq |].
  destruct (Bot.oneOf _ ["/back"; "back"; "menu"]);
    [simpl; by rewrite !lookup_insert_eq |].
  destruct (Bot.oneOf _ ["/help"; "help"]); [simpl; by rewrite H1, H2 |].
  destruct (UserSession.state s).
  - unfold Bot.handleIdle.
    rewrite (updateSession_present _ _ _ _ _ H1),
            (updateSession_present _ _ _ _ _ H2).
    repeat case_match; simpl; rewrite ?lookup_insert_eq, ?H1, ?H2; done.
  - unfold Bot.handleSelectType.
    rewrite !(updateSession_present _ _ _ _ _ H1),
            !(updateSession_present _ _ _ _ _ H2).
    repeat case_match; simpl; rewrite ?lookup_insert_eq, ?H1, ?H2; done.
  - unfold Bot.handleSelectAccount.
    rewrite (getSession_present _ _ _ _ H1), (getSession_present _ _ _ _ H2).
    destruct (Bot.selected _); [|simpl; by rewrite H1, H2].
    rewrite (updateSession_present _ _ _ _ _ H1),
            (updateSession_present _ _ _ _ _ H2).
    simpl. by rewrite !lookup_insert_eq.
  - unfold Bot.handleEnterDetails.
    destruct (Parser.parseTransactionDetails m); [|simpl; by rewrite H1, H2].
    rewrite (updateSession_present _ _ _ _ _ H1),
            (updateSession_present _ _ _ _ _ H2).
    simpl. by rewrite !lookup_insert_eq.
  - unfold Bot.handleSelectCategory.
    rewrite (getSession_present _ _ _ _ H1), (getSession_present _ _ _ _ H2).
    destruct (Bot.selected _); [|simpl; by rewrite H1, H2].
    cbv zeta. destruct (SureAPI.createTransaction _ _); simpl.
    + unfold State.resetSession. by rewrite !lookup_insert_eq.
    + by rewrite H1, H2.
Qed.

Lemma handleMessage_other pf bot now u m ss v :
  v ≠ u → Bot.sessions (Bot.handleMessage pf bot now u m ss) !! v = ss !! v.
Proof.
  intros Hv.
  destruct (handleMessage_effect_fresh pf bot now u m ss) as (s & Hs & _ & ->).
  pose proof (handleMessage_effect pf bot now u m _ s Hs) as He.
  cbv zeta in He. rewrite <- (getSession_other now u v ss Hv).
  revert He. generalize (Bot.handleMessage pf bot now u m (State.getSession now u ss).2).
  intros out He.
  repeat case_match; injection He as -> _;
    rewrite ?lookup_insert_ne by done; done.
Qed.

(** X13: one sender's messages never touch another sender's conversation.
    [handleMessage] for [u] leaves the session of every other identity as
    it was, and its reply, what it submits and the session it leaves for
    [u] are read from the session of [u] alone; so, over a whole sequence
    of messages from the start of the process, the session an identity
    ends with is the one its own messages alone would have produced. *)
Theorem conversations_do_not_interfere pf :
  (∀ bot now u m ss v, v ≠ u →
     Bot.sessions (Bot.handleMessage pf bot now u m ss) !! v = ss !! v)
  ∧ (∀ bot now u m ss1 ss2, ss1 !! u = ss2 !! u →
       Bot.reply (Bot.handleMessage pf bot now u m ss1)
       = Bot.reply (Bot.handleMessage pf bot now u m ss2)
       ∧ Bot.submitted (Bot.handleMessage pf bot now u m ss1)
         = Bot.submitted (Bot.handleMessage pf bot now u m ss2)
       ∧ Bot.sessions (Bot.handleMessage pf bot now u m ss1) !! u
         = Bot.sessions (Bot.handleMessage pf bot now u m ss2) !! u)
  ∧ (∀ ms v,
       (Conversation.run pf ms).2 !! v
       = (Conversation.run pf
            (List.filter (λ m, String.eqb (Conversation.sender m) v) ms)).2
         !! v).
Proof.
  split; [intros; by apply handleMessage_other |].
  split; [intros; by apply handleMessage_local |].
  intros ms v. unfold Conversation.run.
  assert (Hgen : ∀ l1 l2 ss1 ss2, ss1 !! v = ss2 !! v →
    (fold_left (Conversation.step pf) ms (l1, ss1)).2 !! v
    = (fold_left (Conversation.step pf)
         (List.filter (λ m, String.eqb (Conversation.sender m) v) ms)
         (l2, ss2)).2 !! v).
  { induction ms as [|m ms IH]; intros l1 l2 ss1 ss2 Heq; [done |].
    simpl. destruct (String.eqb_spec (Conversation.sender m) v) as [Hm | Hm].
    - simpl. apply IH. unfold Conversation.step. simpl. rewrite Hm.
      by apply handleMessage_local.
    - apply IH. unfold Conversation.step. simpl.
      rewrite handleMessage_other by done. done. }
  by apply Hgen.
Qed.

Lemma conversations_do_not_interfere_witness :
  Bot.sessions (Bot.handleMessage plainPlatform
                  (Bot.mk accepting [food] [cash]) 7 "u" "new"
                  {["v" := awaitingAccount [cash]]}) !! "v"
  = ({["v" := awaitingAccount [cash]]} : gmap string UserSession.t) !! "v"
  ∧ UserSession.state <$>
      Bot.sessions (Bot.handleMessage plainPlatform
                      (Bot.mk accepting [food] [cash]) 7 "u" "new"
                      {["v" := awaitingAccount [cash]]}) !! "u"
    = Some SELECT_TYPE.
Proof.
  assert (Hv : "v" ≠ "u") by discriminate.
  split; [|by vm_compute].
  exact (proj1 (conversations_do_not_interfere plainPlatform)
           (Bot.mk accepting [food] [cash]) 7 "u" "new"
           {["v" := awaitingAccount [cash]]} "v" Hv).
Defined.

(** *** What a session holds, and what is submitted *)

Lemma selectFrom_In {A} (nameOf : A → string) (items : list A) text x :
  Bot.selected (Bot.selectFrom nameOf items text) = Some x → In x items.
Proof.
  unfold Bot.selectFrom. destruct (Bot.indexInRange _ _).
  - destruct (items !! _) as [y|] eqn:Hy; simpl; [|done]. intros [= <-].
    apply list_elem_of_In. by eapply list_elem_of_lookup_2.
  - destruct (List.find _ items) as [y|] eqn:Hy; simpl; [|done]. intros [= <-].
    by apply find_some in Hy as [Hy _].
Qed.

Lemma insert_complete (ss : gmap string UserSession.t) u x :
  (∀ v s, ss !! v = Some s → Conversation.complete s) →
  Conversation.complete x →
  ∀ v s, <[u := x]> ss !! v = Some s → Conversation.complete s.
Proof.
  intros Hall Hx v s. destruct (decide (v = u)) as [-> | Hv].
  - rewrite lookup_insert_eq. by intros [= <-].
  - rewrite lookup_insert_ne by done. apply Hall.
Qed.

Lemma getSession_complete now u (ss : gmap string UserSession.t) :
  (∀ v s, ss !! v = Some s → Conversation.complete s) →
  ∀ v s, (State.getSession now u ss).2 !! v = Some s → Conversation.complete s.
Proof.
  intros Hall. unfold State.getSession.
  destruct (ss !! u); simpl; [done |]. by apply insert_complete.
Qed.

Lemma abs_magnitude x : JS.isMagnitude x = true → JS.abs x = x.
Proof. destruct x as [|[]|[] q]; done. Qed.

Lemma paramsFor_wellFormed pf now s c :
  UserSession.state s = SELECT_CATEGORY → Conversation.complete s →
  Conversation.wellFormed (Conversation.paramsFor pf now s c).
Proof.
  intros Hst Hc. unfold Conversation.complete in Hc. rewrite Hst in Hc.
  destruct Hc as ([ty Hty] & (shown & a & _ & _ & Hacc) & (x & Hx & Hmag)
                  & (nm & Hnm & Hlen)).
  unfold Conversation.wellFormed, Conversation.paramsFor. simpl.
  rewrite Hty, Hacc, Hx, Hnm. simpl. rewrite (abs_magnitude x Hmag).
  split; [by eexists |]. split; [by exists nm |]. split; [by eexists |].
  exists x. split; [done |]. destruct ty; simpl; [by left | by right].
Qed.

(** One message keeps every session complete, and what it submits is
    well formed. *)
Lemma handleMessage_complete pf bot now u m ss :
  (∀ v s, ss !! v = Some s → Conversation.complete s) →
  (∀ v s, Bot.sessions (Bot.handleMessage pf bot now u m ss) !! v = Some s →
     Conversation.complete s)
  ∧ (∀ p, Bot.submitted (Bot.handleMessage pf bot now u m ss) = Some p →
       Conversation.wellFormed p).
Proof.
  intros Hall0.
  pose proof (getSession_complete now u ss Hall0) as Hall.
  destruct (handleMessage_effect_fresh pf bot now u m ss) as (s & Hs & _ & ->).
  pose proof (Hall u s Hs) as Hcs.
  pose proof (handleMessage_effect pf bot now u m _ s Hs) as He.
  cbv zeta in He.
  generalize dependent (State.getSession now u ss).2. intros ss' Hall Hs.
  generalize (Bot.handleMessage pf bot now u m ss'). intros out.
  destruct (_ || _)%bool;
    [intros [= -> ->]; split; [by apply insert_complete | done] |].
  destruct (Bot.oneOf _ ["/help"; "help"]); [intros [= -> ->]; by split |].
  destruct (UserSession.state s) eqn:Hst.
  - destruct (Bot.oneOf _ _); [|intros [= -> ->]; by split].
    destruct (Bot.accounts bot); intros [= -> ->]; [by split |].
    split; [|done]. apply insert_complete; [done |].
    unfold Conversation.complete. by simpl.
  - destruct (Bot.oneOf _ ["1"; "expense"; "expenses"]).
    { intros [= -> ->]. split; [|done]. apply insert_complete; [done |].
      unfold Conversation.complete. simpl. by split; eexists. }
    destruct (Bot.oneOf _ ["2"; "income"]); intros [= -> ->]; [|by split].
    split; [|done]. apply insert_complete; [done |].
    unfold Conversation.complete. simpl. by split; eexists.
  - destruct (Bot.selected _) as [a|] eqn:Ha; intros [= -> ->]; [|by split].
    split; [|done]. apply insert_complete; [done |].
    unfold Conversation.complete in *. rewrite Hst in Hcs. simpl.
    destruct Hcs as [[ty Hty] [shown Hshown]]. rewrite Hty. simpl.
    split; [by eexists |].
    exists shown, a. simpl. rewrite Hshown. simpl. split; [done |].
    split; [|done].
    rewrite selectAccount_selectFrom in Ha. apply selectFrom_In in Ha.
    unfold Bot.accountsInUse in Ha. by rewrite Hshown in Ha.
  - destruct (Parser.parseTransactionDetails m) as [parsed|] eqn:Hp;
      intros [= -> ->]; [|by split].
    split; [|done]. apply insert_complete; [done |].
    unfold Conversation.complete in *. rewrite Hst in Hcs. simpl.
    destruct Hcs as [[ty Hty] (shown & a & Hshown & Hin & Hacc)].
    rewrite Hty. simpl. split; [by eexists |].
    split; [exists shown, a; simpl; by rewrite Hshown, Hacc |].
    destruct (parse_result _ _ Hp) as (x & name & -> & Hmag & Hlen).
    simpl. split; [by exists x |]. eexists. split; [done |].
    by rewrite length_str.
  - destruct (Bot.selected _) as [c|] eqn:Hc; [|intros [= -> ->]; by split].
    intros [= -> ->]. split.
    + destruct (SureAPI.createTransaction _ _); [|done].
      by apply insert_complete.
    + intros p [= <-]. by apply paramsFor_wellFormed.
Qed.

(** Every sequence of messages keeps what one message keeps. *)
Lemma fold_keeps_complete pf ms : ∀ l ss,
  (∀ v s, ss !! v = Some s → Conversation.complete s) →
  (∀ out p, In out l → Bot.submitted out = Some p → Conversation.wellFormed p) →
  (∀ v s, (fold_left (Conversation.step pf) ms (l, ss)).2 !! v = Some s →
     Conversation.complete s)
  ∧ (∀ out p, In out (fold_left (Conversation.step pf) ms (l, ss)).1 →
       Bot.submitted out = Some p → Conversation.wellFormed p).
Proof.
  induction ms as [|m ms IH]; intros l ss Hss Hl; [by split |].
  simpl. unfold Conversation.step at 2. simpl.
  destruct (handleMessage_complete pf (Conversation.bot m)
              (Conversation.at_ m) (Conversation.sender m)
              (Conversation.text m) ss Hss) as [Hss' Hp].
  apply IH; [done |].
  intros out p Hin. apply in_app_or in Hin as [Hin | [<- | []]].
  - by apply Hl.
  - apply Hp.
Qed.

(** *** The account of a transaction was shown to its sender *)








(** X15: one message moves a conversation by at most one stage.  Whatever
    the message, [handleMessage] leaves the session map as [getSession]
    found or made it, or puts the sender's session back to a new IDLE one
    (cancel, back, or a transaction the service took), or moves the
    session to the next stage, stamped with the instant of the message and
    with its creation instant kept.  It never skips a stage, the only way
    back is to a new IDLE session, and it submits a transaction from the
    state SELECT_CATEGORY only. *)
Theorem flow_moves_one_stage_at_a_time pf bot now u m ss :
  let before := (State.getSession now u ss).1 in
  let held := (State.getSession now u ss).2 in
  let out := Bot.handleMessage pf bot now u m ss in
  (Bot.sessions out = held
   ∨ Bot.sessions out = <[u := UserSession.fresh now]> held
   ∨ ∃ after, Bot.sessions out = <[u := after]> held
       ∧ Conversation.stage (UserSession.state after)
         = S (Conversation.stage (UserSession.state before))
       ∧ UserSession.createdAt after = UserSession.createdAt before
       ∧ UserSession.lastActivityAt after = now)
  ∧ (Bot.submitted out = None
     ∨ UserSession.state before = SELECT_CATEGORY).
Proof.
  cbv zeta.
  destruct (handleMessage_effect_fresh pf bot now u m ss) as (s & Hs & <- & ->).
  pose proof (handleMessage_effect pf bot now u m _ s Hs) as He.
  cbv zeta in He. revert He.
  generalize (Bot.handleMessage pf bot now u m (State.getSession now u ss).2).
  generalize (State.getSession now u ss).2.
  intros held out.
  destruct (_ || _)%bool; [intros [= -> ->]; split; [right |]; by left |].
  destruct (Bot.oneOf _ ["/help"; "help"]);
    [intros [= -> ->]; split; by left |].
  destruct (UserSession.state s) eqn:Hst.
  - destruct (Bot.oneOf _ _); [|intros [= -> ->]; split; by left].
    destruct (Bot.accounts bot); intros [= -> ->]; [split; by left |].
    split; [|by left]. right. right. eexists. by split.
  - destruct (Bot.oneOf _ ["1"; "expense"; "expenses"]).
    { intros [= -> ->]. split; [|by left]. right. right. eexists. by split. }
    destruct (Bot.oneOf _ ["2"; "income"]); intros [= -> ->];
      [|split; by left].
    split; [|by left]. right. right. eexists. by split.
  - destruct (Bot.selected _); intros [= -> ->]; [|split; by left].
    split; [|by left]. right. right. eexists. by split.
  - destruct (Parser.parseTransactionDetails m); intros [= -> ->];
      [|split; by left].
    split; [|by left]. right. right. eexists. by split.
  - destruct (Bot.selected _); [|intros [= -> ->]; split; by left].
    intros [= -> ->]. split; [|by right].
    destruct (SureAPI.createTransaction _ _); [right |]; by left.
Qed.

(** *** What of a message the engine reads *)

Lemma selectFrom_lower {A} (nameOf : A → string) (items : list A) t1 t2 :
  JS.toLowerCase t1 = JS.toLowerCase t2 →
  Bot.selectFrom nameOf items t1 = Bot.selectFrom nameOf items t2.
Proof.
  intros H. unfold Bot.selectFrom.
  rewrite <- (parseInt_toLowerCase t1), <- (parseInt_toLowerCase t2), H.
  done.
Qed.

(** X16: surrounding white space never matters, and letter case matters
    only in the details.  Two messages with the same trimmed text get the
    same outcome (reply, sessions, submission) in every state; two
    messages whose trimmed texts differ only in letter case get the same
    outcome in every state but ENTER_DETAILS, where the name is kept as
    typed. *)
Theorem white_space_and_case_are_ignored pf bot now u ss m1 m2 :
  (JS.trim m1 = JS.trim m2 →
   Bot.handleMessage pf bot now u m1 ss = Bot.handleMessage pf bot now u m2 ss)
  ∧ (JS.toLowerCase (JS.trim m1) = JS.toLowerCase (JS.trim m2) →
     UserSession.state (State.getSession now u ss).1 ≠ ENTER_DETAILS →
     Bot.handleMessage pf bot now u m1 ss
     = Bot.handleMessage pf bot now u m2 ss).
Proof.
  assert (Hgen : JS.toLowerCase (JS.trim m1) = JS.toLowerCase (JS.trim m2) →
    JS.trim m1 = JS.trim m2
    ∨ UserSession.state (State.getSession now u ss).1 ≠ ENTER_DETAILS →
    Bot.handleMessage pf bot now u m1 ss
    = Bot.handleMessage pf bot now u m2 ss).
  { intros Hlow Hor.
    rewrite (handleMessage_getSession pf bot now u m1 ss),
            (handleMessage_getSession pf bot now u m2 ss).
    pose proof (getSession_holds now u ss) as Hs. revert Hs Hor.
    generalize (State.getSession now u ss).1.
    generalize (State.getSession now u ss).2.
    intros held s Hs Hor.
    unfold Bot.handleMessage. rewrite (getSession_present _ _ _ _ Hs), Hlow.
    destruct (Bot.oneOf _ ["/cancel"; "cancel"]); [done |].
    destruct (Bot.oneOf _ ["/back"; "back"; "menu"]); [done |].
    destruct (Bot.oneOf _ ["/help"; "help"]); [done |].
    destruct (UserSession.state s) eqn:Hst.
    - unfold Bot.handleIdle. by rewrite Hlow.
    - unfold Bot.handleSelectType. by rewrite Hlow.
    - unfold Bot.handleSelectAccount. rewrite (getSession_present _ _ _ _ Hs).
      rewrite !selectAccount_selectFrom.
      by rewrite (selectFrom_lower Account.name _ _ _ Hlow).
    - unfold Bot.handleEnterDetails.
      destruct Hor as [Htrim | Hne]; [|done].
      by rewrite (parse_depends_on_trim _ _ Htrim).
    - unfold Bot.handleSelectCategory. rewrite (getSession_present _ _ _ _ Hs).
      rewrite !selectCategory_selectFrom.
      by rewrite (selectFrom_lower Category.name _ _ _ Hlow). }
  split.
  - intros Htrim. apply Hgen; [by rewrite Htrim | by left].
  - intros Hlow Hne. apply Hgen; [done | by right].
Qed.

Lemma white_space_and_case_are_ignored_witness :
  Bot.handleMessage plainPlatform Dialogue.shopBot 3 "u" "  CASH "
    {["u" := awaitingAccount [cash]]}
  = Bot.handleMessage plainPlatform Dialogue.shopBot 3 "u" "cash"
      {["u" := awaitingAccount [cash]]}.
Proof.
  apply (proj2 (white_space_and_case_are_ignored plainPlatform Dialogue.shopBot
                  3 "u" {["u" := awaitingAccount [cash]]} "  CASH " "cash")).
  - reflexivity.
  - vm_compute. discriminate.
Defined.

(** *** The numbers shown and the entries they select *)

Lemma numbered_lookup {A} (l : list A) : ∀ k i,
  State.numbered k l !! i = (λ x, (S (k + i), x)) <$> l !! i.
Proof.
  induction l as [|x l IH]; intros k [|i]; simpl; try done.
  - by rewrite Nat.add_0_r.
  - rewrite IH. by rewrite Nat.add_succ_r.
Qed.

Lemma numbered_app {A} (l1 l2 : list A) : ∀ k,
  State.numbered k (l1 ++ l2)
  = State.numbered k l1 ++ State.numbered (k + List.length l1) l2.
Proof.
  induction l1 as [|x l1 IH]; intros k; simpl.
  - by rewrite Nat.add_0_r.
  - rewrite IH. by rewrite Nat.add_succ_r.
Qed.

Lemma numbered_In {A} (l : list A) k n x :
  In (n, x) (State.numbered k l) ↔ ∃ i, l !! i = Some x ∧ n = S (k + i).
Proof.
  rewrite <- list_elem_of_In, list_elem_of_lookup. split.
  - intros [i Hi]. rewrite numbered_lookup in Hi.
    destruct (l !! i) as [y|] eqn:Hy; [|done]. injection Hi as <- <-.
    by exists i.
  - intros (i & Hi & ->). exists i. by rewrite numbered_lookup, Hi.
Qed.

(** Replying with the number printed for position [i] selects position
    [i], and nothing else does so by index. *)
Lemma selectFrom_pretty {A} (nameOf : A → string) (items : list A) i x :
  Bot.selectFrom nameOf items (pretty (S i)) = Bot.ByIndex x
  ↔ items !! i = Some x.
Proof.
  unfold Bot.selectFrom. rewrite parseInt_pretty. simpl fmap.
  replace (Z.of_nat (S i) - 1) with (Z.of_nat i) by lia.
  unfold Bot.indexInRange. simpl default. rewrite Nat2Z.id.
  destruct (items !! i) as [y|] eqn:Hy.
  - assert (Hlt : (i < List.length items)%nat) by (by eapply lookup_lt_Some).
    assert (((0 <=? Z.of_nat i) && (Z.of_nat i <? Z.of_nat (List.length items)))
            = true) as -> by lia.
    split; [by intros [= ->] | by intros [= ->]].
  - apply lookup_ge_None in Hy.
    assert (((0 <=? Z.of_nat i) && (Z.of_nat i <? Z.of_nat (List.length items)))
            = false) as -> by lia.
    split; [|done]. by destruct (List.find _ items).
Qed.

(** X17: the number shown next to an account selects that account.  When
    a sender in SELECT_TYPE picks the kind of transaction, the reply is
    the list [formatAccountsList] prints of the engine's accounts, each
    with its number; replying with the number of an entry, to whatever
    engine handles the next message, moves the session to ENTER_DETAILS
    with that entry's account id. *)
Theorem shown_account_number_selects_it pf bot bot' now now' u m1 ss s n a :
  ss !! u = Some s → UserSession.state s = SELECT_TYPE →
  Bot.oneOf (JS.toLowerCase (JS.trim m1))
    ["1"; "expense"; "expenses"; "2"; "income"] = true →
  In (n, a) (State.numbered 0 (Bot.accounts bot)) →
  let out1 := Bot.handleMessage pf bot now u m1 ss in
  let out2 := Bot.handleMessage pf bot' now' u (pretty n) (Bot.sessions out1) in
  Bot.reply out1 = State.formatAccountsList (Bot.accounts bot)
  ∧ ∃ s2, Bot.sessions out2 !! u = Some s2
          ∧ UserSession.state s2 = ENTER_DETAILS
          ∧ UserSession.accountId s2 = Some (Account.id a).
Proof.
  intros Hs Hst Hm1 Hin. cbv zeta.
  apply numbered_In in Hin as (i & Hi & ->). simpl in Hi.
  change (S (0 + i)) with (S i).
  assert (Hcmd : Bot.oneOf (JS.toLowerCase (JS.trim m1)) ["/cancel"; "cancel"] = false
                 ∧ Bot.oneOf (JS.toLowerCase (JS.trim m1)) ["/back"; "back"; "menu"] = false
                 ∧ Bot.oneOf (JS.toLowerCase (JS.trim m1)) ["/help"; "help"] = false).
  { unfold Bot.oneOf in *. simpl in *.
    repeat match type of Hm1 with
    | (?a =? ?b)%string || _ = true =>
        destruct (String.eqb_spec a b) as [E | _];
        [rewrite E; by vm_compute | simpl in Hm1]
    end. done. }
  destruct Hcmd as (Hc1 & Hc2 & Hc3).
  (* the first message *)
  assert (H1 : ∃ ty,
    Bot.handleMessage pf bot now u m1 ss
    = Bot.Out (State.formatAccountsList (Bot.accounts bot))
        (<[u := UserSession.withLastActivityAt now
                  (UserSession.spread s
                     (UserSession.mkPartial (Some SELECT_ACCOUNT) (Some ty)
                        None None None None (Some (Bot.accounts bot))
                        None None))]> ss) None).
  { unfold Bot.handleMessage. rewrite (getSession_present _ _ _ _ Hs).
    rewrite Hc1, Hc2, Hc3, Hst. unfold Bot.handleSelectType.
    rewrite !(updateSession_present _ _ _ _ _ Hs).
    destruct (Bot.oneOf _ ["1"; "expense"; "expenses"]) eqn:He;
      [by exists expense |].
    destruct (Bot.oneOf _ ["2"; "income"]) eqn:Hi2; [by exists income |].
    exfalso. unfold Bot.oneOf in *. simpl in *.
    repeat match goal with
    | H : _ || _ = false |- _ => apply orb_false_iff in H as [? ?]
    end.
    repeat match goal with
    | H : (?a =? ?b)%string = false |- _ => rewrite H in Hm1; clear H
    end. done. }
  destruct H1 as [ty ->]. simpl. split; [done |].
  (* the second message *)
  set (s1 := UserSession.withLastActivityAt now _).
  assert (Hs1 : (<[u := s1]> ss) !! u = Some s1) by apply lookup_insert_eq.
  destruct (number_is_no_command (pretty (S i)) _
              (parseInt_pretty (S i))) as (Hn1 & Hn2 & Hn3).
  pose proof (handleMessage_effect pf bot' now' u (pretty (S i)) _ s1 Hs1)
    as He.
  cbv zeta in He. rewrite trim_pretty, Hn1, Hn2, Hn3 in He.
  assert (Hst1 : UserSession.state s1 = SELECT_ACCOUNT) by reflexivity.
  assert (Huse : Bot.accountsInUse bot' s1 = Bot.accounts bot) by reflexivity.
  rewrite orb_false_l, Hst1, Huse, selectAccount_selectFrom in He.
  rewrite (proj2 (selectFrom_pretty Account.name (Bot.accounts bot) i a) Hi) in He.
  cbn [Bot.selected] in He. injection He as He _.
  rewrite He, lookup_insert_eq.
  eexists. split; [done |]. by split.
Qed.

Lemma shown_account_number_selects_it_witness :
  ∃ s2, Bot.sessions
          (Bot.handleMessage plainPlatform (Bot.mk accepting [] [])
             9 "u" (pretty 2%nat)
             (Bot.sessions
                (Bot.handleMessage plainPlatform
                   (Bot.mk accepting [food] [cash; bank]) 8 "u" "Expense"
                   {["u" := abandoned]}))) !! "u" = Some s2
        ∧ UserSession.state s2 = ENTER_DETAILS
        ∧ UserSession.accountId s2 = Some (Account.id bank).
Proof.
  assert (Hs : ({["u" := abandoned]} : gmap string UserSession.t) !! "u"
               = Some abandoned) by reflexivity.
  assert (Hin : In (2%nat, bank)
                  (State.numbered 0
                     (Bot.accounts (Bot.mk accepting [food] [cash; bank]))))
    by (simpl; tauto).
  exact (proj2 (shown_account_number_selects_it plainPlatform
                  (Bot.mk accepting [food] [cash; bank])
                  (Bot.mk accepting [] []) 8 9 "u" "Expense"
                  {["u" := abandoned]} abandoned 2%nat bank
                  Hs eq_refl eq_refl Hin)).
Defined.

Lemma shownCategories_numbered cs :
  State.shownCategories cs
  = State.numbered 0 (State.expenseCategories cs ++ State.incomeCategories cs).
Proof. unfold State.shownCategories. by rewrite numbered_app. Qed.

(** X18: when the number shown next to a category selects that category.
    [formatCategoriesList] numbers the expense categories first and the
    income categories after them; [handleSelectCategory] counts along the
    engine's list as it is.  The two agree on every number shown exactly
    when the engine's list starts with its expense categories followed by
    its income categories; and then, in SELECT_CATEGORY, replying with the
    number shown for a category submits a transaction with that
    category's id. *)
Theorem category_numbers_agree_iff_grouped :
  (∀ cs,
     (∀ n c, In (n, c) (State.shownCategories cs) →
             Bot.selectCategory cs (pretty n) = Bot.ByIndex c)
     ↔ ∃ rest, cs = State.expenseCategories cs
                    ++ State.incomeCategories cs ++ rest)
  ∧ (∀ pf bot now u ss s n c rest,
       ss !! u = Some s → UserSession.state s = SELECT_CATEGORY →
       Bot.categories bot
       = State.expenseCategories (Bot.categories bot)
         ++ State.incomeCategories (Bot.categories bot) ++ rest →
       In (n, c) (State.shownCategories (Bot.categories bot)) →
       CreateTransactionParams.category_id <$>
         Bot.submitted (Bot.handleMessage pf bot now u (pretty n) ss)
       = Some (Some (Category.id c))).
Proof.
  assert (Hif : ∀ cs rest n c,
    cs = State.expenseCategories cs ++ State.incomeCategories cs ++ rest →
    In (n, c) (State.shownCategories cs) →
    ∃ i, n = S i ∧ cs !! i = Some c).
  { intros cs rest n c Hcs Hin. rewrite shownCategories_numbered in Hin.
    apply numbered_In in Hin as (i & Hi & ->). exists i. split; [done |].
    rewrite Hcs, app_assoc. by apply lookup_app_l_Some. }
  split.
  - intros cs. split.
    + intros H.
      set (shown := State.expenseCategories cs ++ State.incomeCategories cs).
      assert (Hlook : ∀ i c, shown !! i = Some c → cs !! i = Some c).
      { intros i c Hi.
        assert (Hin : In (S i, c) (State.shownCategories cs)).
        { rewrite shownCategories_numbered. apply numbered_In. by exists i. }
        specialize (H _ _ Hin). rewrite selectCategory_selectFrom in H.
        by apply selectFrom_pretty in H. }
      exists (drop (List.length shown) cs). rewrite app_assoc. fold shown.
      rewrite <- (take_drop (List.length shown) cs) at 1. f_equal.
      apply list_eq. intros i.
      destruct (shown !! i) as [c|] eqn:Hi.
      * rewrite lookup_take_lt by (by eapply lookup_lt_Some). by apply Hlook.
      * apply lookup_ge_None in Hi. apply lookup_ge_None.
        rewrite length_take. lia.
    + intros [rest Hcs] n c Hin.
      destruct (Hif cs rest n c Hcs Hin) as (i & -> & Hi).
      rewrite selectCategory_selectFrom. by apply selectFrom_pretty.
  - intros pf bot now u ss s n c rest Hs Hst Hcs Hin.
    destruct (Hif _ rest n c Hcs Hin) as (i & -> & Hi).
    destruct (category_chosen_by_number pf bot now u (pretty (S i)) ss s
                (Z.of_nat (S i)) Hs Hst) as (c' & Hc' & Hsub).
    + by rewrite trim_pretty, parseInt_pretty.
    + apply lookup_lt_Some in Hi. lia.
    + replace (Z.to_nat (Z.of_nat (S i) - 1)) with i in Hc' by lia.
      rewrite Hi in Hc'. by injection Hc' as <-.
Qed.

Lemma category_numbers_agree_iff_grouped_witness :
  State.shownCategories [food; rent; salary]
  = [(1%nat, food); (2%nat, rent); (3%nat, salary)]
  ∧ CreateTransactionParams.category_id <$>
      Bot.submitted
        (Bot.handleMessage plainPlatform
           (Bot.mk accepting [food; rent; salary] [cash]) 5 "u" (pretty 3%nat)
           {["u" := awaitingCategory [food; rent; salary]]})
    = Some (Some (Category.id salary)).
Proof.
  split; [reflexivity |].
  assert (Hs : ({["u" := awaitingCategory [food; rent; salary]]}
                  : gmap string UserSession.t) !! "u"
               = Some (awaitingCategory [food; rent; salary])) by reflexivity.
  assert (Hin : In (3%nat, salary)
                  (State.shownCategories
                     (Bot.categories (Bot.mk accepting [food; rent; salary] [cash]))))
    by (simpl; tauto).
  exact (proj2 category_numbers_agree_iff_grouped plainPlatform
           (Bot.mk accepting [food; rent; salary] [cash]) 5 "u"
           {["u" := awaitingCategory [food; rent; salary]]}
           (awaitingCategory [food; rent; salary]) 3%nat salary [] Hs eq_refl eq_refl Hin).
Defined.

End EngineFacts.

(** ** Configuration *)

Section ConfigFacts.
Import Config.

Lemma digitsOf_digits s :
  Forall (λ a, JS.isDigit a = true) (JS.chars (digitsOf s)).
Proof.
  unfold digitsOf. rewrite chars_str.
  induction (JS.chars s) as [|a l IH]; simpl; [constructor |].
  destruct (JS.isDigit a) eqn:Ha; [by constructor | done].
Qed.

Lemma checkNumbers_clean nums :
  (checkNumbers nums).1 = [] →
  (checkNumbers nums).2 = map digitsOf nums
  ∧ Forall (λ n, digitsOf n ≠ "") nums.
Proof.
  induction nums as [|num rest IH]; simpl; [by split |].
  destruct (checkNumbers rest) as [errors allowed]. simpl in *.
  destruct (String.length (digitsOf num) =? 0)%nat eqn:Hlen; simpl; [done |].
  intros He. destruct (IH He) as [-> Hall]. split; [done |].
  constructor; [|done]. intros Hz. rewrite Hz in Hlen. done.
Qed.

Lemma checkNumbers_errors nums :
  Forall (λ n, digitsOf n ≠ "") nums → (checkNumbers nums).1 = [].
Proof.
  induction 1 as [|num rest Hn _ IH]; simpl; [done |].
  destruct (checkNumbers rest) as [errors allowed]. simpl in *.
  destruct (String.length (digitsOf num) =? 0)%nat eqn:Hlen; simpl; [|done].
  exfalso. apply Hn. apply Nat.eqb_eq in Hlen.
  by destruct (digitsOf num).
Qed.

Lemma falsy_false x : falsy x = false → ∃ c r, x = Some (String c r).
Proof. destruct x as [[|c r]|]; simpl; try done. intros _. by exists c, r. Qed.

Lemma loadConfig_level e :
  existsb (String.eqb (JS.orElse (LOG_LEVEL e) "info")) validLogLevels = true
  ↔ In (JS.orElse (LOG_LEVEL e) "info") validLogLevels.
Proof.
  rewrite existsb_exists. split.
  - intros (x & Hx & Heq). apply String.eqb_eq in Heq. by subst.
  - intros Hin. exists (JS.orElse (LOG_LEVEL e) "info").
    split; [done | apply String.eqb_refl].
Qed.

(** What a configuration that was returned holds. *)
Lemma loadConfig_Normal e logs cfg :
  loadConfig e = (logs, JS.Normal cfg) →
  (∃ c r, JS.trim <$> SURE_BASE_URL e = Some (String c r)
          ∧ sureBaseUrl cfg = String c r)
  ∧ (∃ c r, JS.trim <$> SURE_API_KEY e = Some (String c r)
            ∧ sureApiKey cfg = String c r)
  ∧ In (logLevel cfg) validLogLevels
  ∧ logLevel cfg = JS.orElse (LOG_LEVEL e) "info"
  ∧ allowedPhoneNumbers cfg = map digitsOf (entries e)
  ∧ Forall (λ n, digitsOf n ≠ "") (entries e)
  ∧ logs = match allowedPhoneNumbers cfg with
           | [] => [LogWarn noNumbersWarning]
           | _ => []
           end.
Proof.
  unfold loadConfig. cbv zeta.
  pose proof (loadConfig_level e) as Hlevel.
  pose proof (checkNumbers_clean (entries e)) as Hclean.
  destruct (checkNumbers (entries e)) as [phoneErrors allowed].
  cbn [fst snd] in Hclean.
  destruct (falsy (JS.trim <$> SURE_BASE_URL e)) eqn:Hb; [done |].
  destruct (falsy (JS.trim <$> SURE_API_KEY e)) eqn:Hk; [done |].
  destruct (existsb (String.eqb (JS.orElse (LOG_LEVEL e) "info")) validLogLevels)
    eqn:Hl; [|done].
  cbn [app]. destruct phoneErrors as [|err errs]; [|done].
  destruct (Hclean eq_refl) as [-> Hall].
  destruct (falsy_false _ Hb) as (cb & rb & Hbase).
  destruct (falsy_false _ Hk) as (ck & rk & Hkey).
  intros [= <- <-]. simpl. rewrite Hbase, Hkey. simpl.
  split; [by exists cb, rb |]. split; [by exists ck, rk |].
  split; [by apply Hlevel |]. done.
Qed.

(** X19: what [loadConfig] accepts and what it returns.  It returns a
    configuration exactly when SURE_BASE_URL and SURE_API_KEY are set and
    not blank, LOG_LEVEL is unset, empty or one of the six level names,
    and every non-blank entry of ALLOWED_PHONE_NUMBERS holds a digit.  The
    configuration returned holds the two values trimmed, and one number
    for every entry, in the order of the entries: the digits of the
    entry, never empty; a warning is logged exactly when there is no
    number. *)
Theorem loadConfig_accepts_and_returns e :
  ((∃ logs cfg, loadConfig e = (logs, JS.Normal cfg))
   ↔ falsy (JS.trim <$> SURE_BASE_URL e) = false
     ∧ falsy (JS.trim <$> SURE_API_KEY e) = false
     ∧ In (JS.orElse (LOG_LEVEL e) "info") validLogLevels
     ∧ Forall (λ n, digitsOf n ≠ "") (entries e))
  ∧ (∀ logs cfg, loadConfig e = (logs, JS.Normal cfg) →
       Some (sureBaseUrl cfg) = JS.trim <$> SURE_BASE_URL e
       ∧ sureBaseUrl cfg ≠ ""
       ∧ Some (sureApiKey cfg) = JS.trim <$> SURE_API_KEY e
       ∧ sureApiKey cfg ≠ ""
       ∧ In (logLevel cfg) validLogLevels
       ∧ allowedPhoneNumbers cfg = map digitsOf (entries e)
       ∧ Forall (λ n, n ≠ "" ∧ Forall (λ a, JS.isDigit a = true) (JS.chars n))
           (allowedPhoneNumbers cfg)
       ∧ (logs = [LogWarn noNumbersWarning] ↔ allowedPhoneNumbers cfg = [])
       ∧ (logs = [] ↔ allowedPhoneNumbers cfg ≠ [])).
Proof.
  split.
  - split.
    + intros (logs & cfg & H).
      destruct (loadConfig_Normal _ _ _ H)
        as ((cb & rb & Hb & _) & (ck & rk & Hk & _) & Hin & Hlv & _ & Hall & _).
      rewrite Hb, Hk, <- Hlv. done.
    + intros (Hb & Hk & Hin & Hall). unfold loadConfig. cbv zeta.
      rewrite Hb, Hk. apply loadConfig_level in Hin. rewrite Hin.
      pose proof (checkNumbers_errors (entries e) Hall) as Herr.
      destruct (checkNumbers (entries e)) as [phoneErrors allowed].
      cbn [fst] in Herr. rewrite Herr. cbn [app]. by eexists _, _.
  - intros logs cfg H.
    destruct (loadConfig_Normal _ _ _ H)
      as ((cb & rb & Hb & Hb') & (ck & rk & Hk & Hk') & Hin & _ & Hnum & Hall & ->).
    rewrite Hb, Hk, Hb', Hk'.
    split; [done |]. split; [done |]. split; [done |]. split; [done |].
    split; [done |]. split; [done |]. split.
    + rewrite Hnum. clear -Hall.
      induction Hall as [|n l Hn _ IH]; simpl; constructor; [|done].
      split; [done | apply digitsOf_digits].
    + destruct (allowedPhoneNumbers cfg); split; split; done.
Qed.

Lemma loadConfig_accepts_and_returns_witness :
  loadConfig (Env (Some " https://sure.example ") (Some "key") None
                (Some "+1 (555) 010-9999, ,4915112345678"))
  = ([], JS.Normal (mk "https://sure.example" "key"
                      ["15550109999"; "4915112345678"] "info"))
  ∧ allowedPhoneNumbers
      (mk "https://sure.example" "key" ["15550109999"; "4915112345678"] "info")
    = map digitsOf
        (entries (Env (Some " https://sure.example ") (Some "key") None
                    (Some "+1 (555) 010-9999, ,4915112345678"))).
Proof.
  assert (H : loadConfig (Env (Some " https://sure.example ") (Some "key") None
                            (Some "+1 (555) 010-9999, ,4915112345678"))
              = ([], JS.Normal (mk "https://sure.example" "key"
                                  ["15550109999"; "4915112345678"] "info")))
    by (by vm_compute).
  split; [exact H |].
  exact (proj1 (proj2 (proj2 (proj2 (proj2 (proj2
           (proj2 (loadConfig_accepts_and_returns _) _ _ H))))))).
Defined.


End ConfigFacts.

(** ** The HTTP client *)

Section ClientFacts.
Import Client.

Lemma Qden_Qred_inject k : Qden (Qred (inject_Z k)) = 1%positive.
Proof.
  unfold Qred, inject_Z.
  pose proof (Z.ggcd_correct_divisors k 1) as Hdiv.
  pose proof (Z.ggcd_gcd k 1) as Hgcd.
  destruct (Z.ggcd k 1) as [g [aa bb]]. simpl in *.
  rewrite Z.gcd_1_r in Hgcd. subst g. destruct Hdiv as [_ Hbb].
  assert (bb = 1) as -> by lia. reflexivity.
Qed.

Lemma isInteger_iff neg q :
  isInteger (JS.Fin neg q) = true
  ↔ ∃ n : Z, (if neg then Qopp q else q) == inject_Z n.
Proof.
  unfold isInteger. rewrite Pos.eqb_eq. split.
  - intros Hden.
    assert (Hq : q == inject_Z (Qnum (Qred q))).
    { rewrite <- (Qred_correct q) at 1.
      destruct (Qred q) as [a d]. simpl in *. by subst. }
    destruct neg; [exists (- Qnum (Qred q))%Z | by eexists].
    rewrite Hq at 1. unfold Qeq. simpl. lia.
  - intros [n Hn].
    assert (Hq : q == inject_Z (if neg then - n else n)%Z).
    { destruct neg; [|done].
      rewrite <- (Qopp_involutive q), Hn. unfold Qeq. simpl. lia. }
    apply Qred_complete in Hq. rewrite Hq. apply Qden_Qred_inject.
Qed.

(** X20: [getTransactions] asks the service exactly when the limit is an
    integer from 1 to 100, then once and with that limit; for every other
    limit (NaN and the infinities among them) it asks nothing and throws
    the wrapped limit error.  The limit 5 the engine passes is asked. *)
Theorem getTransactions_checks_the_limit c limit :
  (((∃ neg q n, limit = JS.Fin neg q
                ∧ (if neg then Qopp q else q) == inject_Z n
                ∧ 1 <= n <= 100)
    ∧ (getTransactions c limit).1
      = [Http.GET "/api/v1/transactions" (Some limit)])
   ∨ ((∀ neg q n, limit = JS.Fin neg q →
         (if neg then Qopp q else q) == inject_Z n → n < 1 ∨ 100 < n)
      ∧ getTransactions c limit
        = ([], JS.Throw (JS.mkError
             "Failed to fetch transactions: Limit must be an integer between 1 and 100"
             None))))
  ∧ (getTransactions c (JS.Fin false (inject_Z 5))).1
    = [Http.GET "/api/v1/transactions" (Some (JS.Fin false (inject_Z 5)))].
Proof.
  assert (Hok : (negb (isInteger limit) || ltInt limit 1 || gtInt limit 100)%bool
                = false
                ↔ ∃ neg q n, limit = JS.Fin neg q
                             ∧ (if neg then Qopp q else q) == inject_Z n
                             ∧ 1 <= n <= 100).
  { rewrite !orb_false_iff, negb_false_iff. split.
    - intros [[Hint Hlt] Hgt]. destruct limit as [| |neg q]; try done.
      apply isInteger_iff in Hint as [n Hn]. exists neg, q, n.
      split; [done |]. split; [done |].
      unfold ltInt, gtInt in *. apply negb_false_iff in Hlt, Hgt.
      apply Qle_bool_iff in Hlt, Hgt. rewrite Hn in Hlt, Hgt.
      rewrite <- Zle_Qle in Hlt, Hgt. lia.
    - intros (neg & q & n & -> & Hn & Hrange). split; [split |].
      + apply isInteger_iff. by exists n.
      + unfold ltInt. apply negb_false_iff, Qle_bool_iff.
        rewrite Hn, <- Zle_Qle. lia.
      + unfold gtInt. apply negb_false_iff, Qle_bool_iff.
        rewrite Hn, <- Zle_Qle. lia. }
  split; [|done]. unfold getTransactions.
  destruct (negb (isInteger limit) || ltInt limit 1 || gtInt limit 100)%bool
    eqn:Hchk.
  - right. split; [|done]. intros neg q n Hl Hn.
    destruct (decide (1 <= n <= 100)) as [Hr|Hr]; [|lia].
    assert (true = false); [|done]. apply Hok. by exists neg, q, n.
  - left. split; [by apply Hok | done].
Qed.

Lemma invalid_None c params :
  invalid c params = None
  ↔ (∃ a r, CreateTransactionParams.account_id params = Some (String a r))
    ∧ CreateTransactionParams.date params ≠ ""
    ∧ Http.dateParses (http c) (CreateTransactionParams.date params) = true
    ∧ ∃ name, CreateTransactionParams.name params = Some name
              ∧ (1 <= String.length name <= 255)%nat.
Proof.
  unfold invalid.
  destruct (CreateTransactionParams.account_id params) as [[|a r]|];
    cbn [Config.falsy].
  1,3: split; [done | by intros ((? & ? & ?) & _)].
  destruct (CreateTransactionParams.date params) as [|d ds] eqn:Hd.
  { split; [done | by intros (_ & ? & _)]. }
  destruct (CreateTransactionParams.name params) as [[|n ns]|];
    cbn [Config.falsy].
  1,3: split; [done |]; intros (_ & _ & _ & name & Hn & Hlen);
       injection Hn as <- || discriminate Hn; simpl in Hlen; lia.
  change (default "" (Some (String n ns))) with (String n ns).
  destruct (255 <? String.length (String n ns))%nat eqn:Hlen.
  - split; [done |]. intros (_ & _ & _ & name & [= <-] & Hl).
    apply Nat.ltb_lt in Hlen. lia.
  - apply Nat.ltb_ge in Hlen.
    destruct (Http.dateParses _ _); split; try done.
    + intros _. split; [by eexists _, _ |]. split; [done |]. split; [done |].
      eexists. split; [done |]. simpl in *. lia.
    + by intros (_ & _ & ? & _).
Qed.

(** The error a failed check of [createTransaction] ends in. *)
Lemma createFailed_plain reason :
  JS.isPrefix (JS.chars "Failed to fetch") (JS.chars reason) = false →
  createFailed (plain reason)
  = JS.mkError ("Failed to create transaction: " +:+ reason) None.
Proof.
  intros Hpre. unfold createFailed, plain. cbn [Http.message Http.response].
  by rewrite Hpre.
Qed.

(** X21: [createTransaction] checks before it sends.  It posts the
    transaction, once and as given, exactly when the account id and the
    date are not empty, the name has 1 to 255 characters and the date
    parses, and then returns the data of the response when the service
    answers.  In every other case it sends nothing and throws an error
    without a response, whose message names the first check that fails,
    in the order account id, date, name, length of the name, validity of
    the date, behind the words of the method. *)
Theorem createTransaction_checks_before_sending c params :
  let account := default "" (CreateTransactionParams.account_id params) in
  let date := CreateTransactionParams.date params in
  let name := default "" (CreateTransactionParams.name params) in
  let refuses reason :=
    createTransaction c params
    = ([], JS.Throw (JS.mkError ("Failed to create transaction: " +:+ reason)
                       None)) in
  ((createTransaction c params).1 = [Http.POST "/api/v1/transactions" params]
   ↔ account ≠ "" ∧ date ≠ "" ∧ (1 <= String.length name <= 255)%nat
     ∧ Http.dateParses (http c) date = true)
  ∧ (∀ data, (createTransaction c params).1 ≠ [] →
       Http.postTransaction (http c) params = Http.Ok data →
       (createTransaction c params).2 = JS.Normal data)
  ∧ (account = "" → refuses "account_id is required")
  ∧ (account ≠ "" → date = "" → refuses "date is required")
  ∧ (account ≠ "" → date ≠ "" → name = "" → refuses "name is required")
  ∧ (account ≠ "" → date ≠ "" → (255 < String.length name)%nat →
     refuses "name must be 255 characters or less")
  ∧ (account ≠ "" → date ≠ "" → (1 <= String.length name <= 255)%nat →
     Http.dateParses (http c) date = false →
     refuses "date must be a valid ISO 8601 date").
Proof.
  cbv zeta. unfold createTransaction, invalid.
  destruct (CreateTransactionParams.account_id params) as [[|a r]|];
    cbn [Config.falsy default from_option id].
  1,3: rewrite createFailed_plain by reflexivity; simpl;
       split; [split; [done | by intros [? _]] |];
       repeat (split; [done |]); done.
  destruct (CreateTransactionParams.date params) as [|d ds].
  { rewrite createFailed_plain by reflexivity. simpl.
    split; [split; [done | by intros (_ & ? & _)] |].
    repeat (split; [done |]). done. }
  destruct (CreateTransactionParams.name params) as [[|n ns]|];
    cbn [Config.falsy default from_option id].
  1,3: rewrite createFailed_plain by reflexivity; simpl;
       split; [split; [done | intros (_ & _ & ? & _); lia] |];
       split; [done |]; split; [done |]; split; [done |]; split; [done |];
       split; [intros; lia | intros; lia].
  destruct (255 <? String.length (String n ns))%nat eqn:Hlen.
  { apply Nat.ltb_lt in Hlen. rewrite createFailed_plain by reflexivity.
    split; [split; [done | intros (_ & _ & ? & _); lia] |].
    split; [done |]. split; [done |]. split; [done |]. split; [done |].
    split; [done | intros; lia]. }
  apply Nat.ltb_ge in Hlen.
  destruct (Http.dateParses (http c) (String d ds)) eqn:Hdate.
  - cbn [fst snd].
    split; [split; [intros _; repeat split; try done; simpl; lia | done] |].
    split; [by intros data _ -> |].
    split; [done |]. split; [done |]. split; [done |].
    split; [intros; lia | done].
  - rewrite createFailed_plain by reflexivity. cbn [fst snd].
    split; [split; [done | by intros (_ & _ & _ & ?)] |].
    split; [done |]. split; [done |]. split; [done |]. split; [done |].
    split; [intros; lia | done].
Qed.

(** *** The engine and the client *)

(** X22: the engine and the client agree on names.  No transaction the
    engine submits, in any conversation, fails the client's checks of the
    name (the parser already bounds it by the same 255 characters): the
    only checks of [createTransaction] that can stop it are an empty
    account id and the date; when the account id is not empty and the date
    parses, the transaction is posted. *)
Theorem engine_output_passes_the_name_checks pf ms c out p :
  In out (Conversation.run pf ms).1 → Bot.submitted out = Some p →
  (invalid c p = None ∧ (createTransaction c p).1
                        = [Http.POST "/api/v1/transactions" p])
  ∨ invalid c p = Some "account_id is required"
  ∨ invalid c p = Some "date is required"
  ∨ invalid c p = Some "date must be a valid ISO 8601 date".
Proof.
  intros Hin Hsub.
  assert (Hwf : Conversation.wellFormed p).
  { unfold Conversation.run in Hin.
    eapply (fold_keeps_complete pf ms [] ∅); [| | exact Hin | exact Hsub].
    - intros v s. by rewrite lookup_empty.
    - by intros ? ? []. }
  destruct Hwf as ([id Hid] & (name & Hname & Hlen) & _).
  unfold createTransaction, invalid. rewrite Hid, Hname.
  destruct id as [|a r]; cbn [Config.falsy]; [tauto |].
  destruct (CreateTransactionParams.date p) as [|d ds] eqn:Hd; [tauto |].
  destruct name as [|n ns]; [simpl in Hlen; lia |]. cbn [Config.falsy].
  change (default "" (Some (String n ns))) with (String n ns).
  assert ((255 <? String.length (String n ns))%nat = false) as ->
    by (apply Nat.ltb_ge; lia).
  destruct (Http.dateParses _ _); [by left | tauto].
Qed.

Lemma engine_output_passes_the_name_checks_witness :
  ∃ out p, In out (Conversation.run Dialogue.calendar Dialogue.lunch).1
           ∧ Bot.submitted out = Some p
           ∧ invalid Dialogue.client p = None
           ∧ (createTransaction Dialogue.client p).1
             = [Http.POST "/api/v1/transactions" p].
Proof.
  assert (Hlast : Bot.submitted
                    (List.last (Conversation.run Dialogue.calendar Dialogue.lunch).1
                       (Bot.Out "" ∅ None))
                  = Some (CreateTransactionParams.mk (Some "a1") "2024-05-01"
                            (JS.Fin true (Qmake 25 2)) (Some "Lunch")
                            (Some "c2") None (Some natureExpense)))
    by (by vm_compute).
  assert (Hin : In (List.last (Conversation.run Dialogue.calendar Dialogue.lunch).1
                      (Bot.Out "" ∅ None))
                  (Conversation.run Dialogue.calendar Dialogue.lunch).1).
  { apply (proj1 (list_elem_of_In _ _)).
    assert (Hsome : List.last (Conversation.run Dialogue.calendar Dialogue.lunch).1
                      (Bot.Out "" ∅ None)
                    = default (Bot.Out "" ∅ None)
                        ((Conversation.run Dialogue.calendar Dialogue.lunch).1
                           !! 4%nat)) by reflexivity.
    rewrite Hsome.
    destruct ((Conversation.run Dialogue.calendar Dialogue.lunch).1 !! 4%nat)
      as [o|] eqn:Ho; [|by vm_compute in Ho].
    simpl. by eapply list_elem_of_lookup_2. }
  eexists _, _. split; [exact Hin |]. split; [exact Hlast |].
  destruct (engine_output_passes_the_name_checks Dialogue.calendar
              Dialogue.lunch Dialogue.client _ _ Hin Hlast)
    as [H | [H | [H | H]]]; [exact H | | |]; by vm_compute in H.
Defined.

(** X23: a configuration that was loaded starts the client.  With the
    base URL and the key of a configuration [loadConfig] returned,
    [new SureAPI] does not throw: both are set and not blank. *)
Theorem loaded_configuration_starts_the_client e logs cfg http :
  Config.loadConfig e = (logs, JS.Normal cfg) →
  constructor http (Config.sureBaseUrl cfg) (Config.sureApiKey cfg)
  = JS.Normal (mk (Config.sureBaseUrl cfg) (Config.sureApiKey cfg) 30000 http).
Proof.
  intros H.
  destruct (loadConfig_Normal _ _ _ H)
    as ((cb & rb & _ & ->) & (ck & rk & _ & ->) & _).
  reflexivity.
Qed.

Lemma loaded_configuration_starts_the_client_witness :
  constructor Dialogue.service "https://sure.example" "key"
  = JS.Normal Dialogue.client.
Proof.
  assert (H : Config.loadConfig
                (Config.Env (Some " https://sure.example ") (Some "key") None
                   (Some "+1 (555) 010-9999, ,4915112345678"))
              = ([], JS.Normal (Config.mk "https://sure.example" "key"
                                  ["15550109999"; "4915112345678"] "info")))
    by (by vm_compute).
  exact (loaded_configuration_starts_the_client _ _ _ Dialogue.service H).
Defined.

End ClientFacts.

(** ** The handler of incoming messages *)

Section InboxFacts.
Import Inbox.

(** The attempts to send and the state left, without the calls. *)
Lemma onMessage_unfold w c msg st :
  onMessage w c msg st
  = match message msg with
    | None => ([], st)
    | Some body =>
        if match keyId msg with
           | Some (String a r) =>
               bool_decide (String a r ∈ sentMessageIds st)
           | _ => false
           end
        then
          ([], St (sentMessageIds st ∖ {[default "" (keyId msg)]})
                  (rateLimiter st) (sessions st))
        else
          match remoteJid msg with
          | Some (String a r) =>
              let sender := String a r in
              let phoneNumber := phoneNumberOf sender in
              if (String.length phoneNumber =? 0)%nat then ([], st)
              else if unauthorized w phoneNumber then ([], st)
              else
                let '(allowed, limiter) :=
                  RateLimiter.isAllowed (atLimit c) phoneNumber (rateLimiter st) in
                let st := St (sentMessageIds st) limiter (sessions st) in
                if negb allowed then
                  let remaining :=
                    RateLimiter.getRemaining (atRemaining c) phoneNumber limiter in
                  send w msg sender (tooManyRequests remaining) st
                else
                  match textOf body with
                  | EmptyString => ([], st)
                  | text =>
                      if negb (botReady w) then send w msg sender notConfigured st
                      else
                        let out :=
                          Bot.handleMessage (pf w) (bot w) (atHandle c) sender
                            text (sessions st) in
                        send w msg sender (Bot.reply out)
                          (St (sentMessageIds st) (rateLimiter st)
                              (Bot.sessions out))
                  end
          | _ => ([], st)
          end
    end.
Proof.
  unfold onMessage, handle.
  destruct (message msg) as [body|]; [|done].
  destruct (match keyId msg with Some (String a r) => _ | _ => false end);
    [done |].
  destruct (remoteJid msg) as [[|a r]|]; [done | | done].
  destruct (String.length _ =? 0)%nat; [done |].
  destruct (unauthorized _ _); [done |].
  destruct (RateLimiter.isAllowed _ _ _) as [allowed limiter].
  destruct allowed; simpl; [|done].
  destruct (textOf body); [done |].
  by destruct (botReady w).
Qed.

Lemma remember_keeps id st :
  rateLimiter (remember id st) = rateLimiter st
  ∧ sessions (remember id st) = sessions st
  ∧ sentMessageIds st ⊆ sentMessageIds (remember id st).
Proof.
  unfold remember. destruct id as [[|a r]|]; simpl; try done.
  split; [done | split; [done | set_solver]].
Qed.

Lemma onError_keeps w msg sends st :
  rateLimiter (onError w msg sends st).2 = rateLimiter st
  ∧ sessions (onError w msg sends st).2 = sessions st
  ∧ ∃ more, (onError w msg sends st).1 = sends ++ more
            ∧ (List.length more <= 1)%nat
            ∧ ∀ jid text, In (jid, text) more → remoteJid msg = Some jid.
Proof.
  unfold onError. destruct (remoteJid msg) as [[|a r]|].
  1,3: split; [done | split; [done |]]; exists []; rewrite app_nil_r;
       split; [done | split; [simpl; lia | by intros ? ? []]].
  destruct (Socket.sendMessage _ _ _) as [id|e]; simpl.
  - destruct (remember_keeps id st) as (-> & -> & _).
    split; [done | split; [done |]]. eexists. split; [done |].
    split; [simpl; lia |]. intros jid text [[= <- <-] | []]. done.
  - split; [done | split; [done |]]. eexists. split; [done |].
    split; [simpl; lia |]. intros jid text [[= <- <-] | []]. done.
Qed.

Lemma send_keeps w msg jid text st :
  rateLimiter (send w msg jid text st).2 = rateLimiter st
  ∧ sessions (send w msg jid text st).2 = sessions st
  ∧ ∃ more, (send w msg jid text st).1 = (jid, text) :: more
            ∧ (List.length more <= 1)%nat
            ∧ ∀ jid' text', In (jid', text') more → remoteJid msg = Some jid'.
Proof.
  unfold send. destruct (Socket.sendMessage _ _ _) as [id|e]; simpl.
  - destruct (remember_keeps id st) as (-> & -> & _).
    split; [done | split; [done |]]. exists []. split; [done |].
    split; [simpl; lia | by intros ? ? []].
  - destruct (onError_keeps w msg [(jid, text)] st) as (-> & -> & more & -> & ?).
    split; [done | split; [done |]]. by exists more.
Qed.

(** X24: the handler answers the sender of the message and nobody else.
    For one incoming message it attempts at most two sends (the reply,
    and the apology when sending the reply failed), each of them to the
    [remoteJid] of that message. *)
Theorem replies_go_to_the_sender_only w c msg st :
  (List.length (onMessage w c msg st).1 <= 2)%nat
  ∧ ∀ jid text, In (jid, text) (onMessage w c msg st).1 →
                remoteJid msg = Some jid.
Proof.
  rewrite !onMessage_unfold; cbv zeta.
  destruct (message msg) as [body|]; [|split; [simpl; lia | by intros ? ? []]].
  destruct (match keyId msg with Some (String a r) => _ | _ => false end);
    [split; [simpl; lia | by intros ? ? []] |].
  destruct (remoteJid msg) as [[|a r]|] eqn:Hjid.
  1,3: split; [simpl; lia | by intros ? ? []].
  destruct (String.length _ =? 0)%nat; [split; [simpl; lia | by intros ? ? []] |].
  destruct (unauthorized _ _); [split; [simpl; lia | by intros ? ? []] |].
  destruct (RateLimiter.isAllowed _ _ _) as [allowed limiter].
  assert (Hsend : ∀ text st',
    (List.length (send w msg (String a r) text st').1 <= 2)%nat
    ∧ ∀ jid text', In (jid, text') (send w msg (String a r) text st').1 →
                   Some (String a r) = Some jid).
  { intros text st'.
    destruct (send_keeps w msg (String a r) text st') as (_ & _ & more & -> & Hlen & Hto).
    split; [simpl; lia |]. intros jid text' [[= <- <-] | Hin]; [done |].
    rewrite <- Hjid. by eapply Hto. }
  destruct allowed; simpl; [|apply Hsend].
  destruct (textOf body); [split; [simpl; lia | by intros ? ? []] |].
  destruct (botReady w); simpl; apply Hsend.
Qed.

Lemma replies_go_to_the_sender_only_witness :
  (onMessage Dialogue.desk Dialogue.noon
     (Dialogue.hello "15550109999@s.whatsapp.net") start).1
  = [("15550109999@s.whatsapp.net",
      Bot.reply (Bot.handleMessage Dialogue.calendar Dialogue.shopBot 100
                   "15550109999@s.whatsapp.net" "new" ∅))]
  ∧ remoteJid (Dialogue.hello "15550109999@s.whatsapp.net")
    = Some "15550109999@s.whatsapp.net".
Proof.
  assert (H : (onMessage Dialogue.desk Dialogue.noon
                 (Dialogue.hello "15550109999@s.whatsapp.net") start).1
              = [("15550109999@s.whatsapp.net",
                  Bot.reply (Bot.handleMessage Dialogue.calendar
                               Dialogue.shopBot 100
                               "15550109999@s.whatsapp.net" "new" ∅))])
    by (by vm_compute).
  split; [exact H |].
  apply (proj2 (replies_go_to_the_sender_only Dialogue.desk Dialogue.noon
                  (Dialogue.hello "15550109999@s.whatsapp.net") start)
           _ (Bot.reply (Bot.handleMessage Dialogue.calendar Dialogue.shopBot
                           100 "15550109999@s.whatsapp.net" "new" ∅))).
  rewrite H. by left.
Defined.

Lemma unauthorized_false w p :
  unauthorized w p = false
  ↔ Config.allowedPhoneNumbers (config w) = []
    ∨ In p (Config.allowedPhoneNumbers (config w)).
Proof.
  unfold unauthorized. rewrite andb_false_iff, negb_false_iff, existsb_exists.
  split.
  - intros [Hlen | (x & Hx & Heq)].
    + left. by destruct (Config.allowedPhoneNumbers (config w)).
    + right. apply String.eqb_eq in Heq. by subst.
  - intros [-> | Hin]; [by left |]. right. exists p.
    split; [done | apply String.eqb_refl].
Qed.

(** X25: a sender that is not on a non-empty allow-list costs nothing:
    its message gets no reply, uses none of the rate budget and neither
    creates nor changes a session. *)
Theorem unlisted_senders_cost_nothing w c msg st sender :
  remoteJid msg = Some sender →
  Config.allowedPhoneNumbers (config w) ≠ [] →
  ¬ In (phoneNumberOf sender) (Config.allowedPhoneNumbers (config w)) →
  (onMessage w c msg st).1 = []
  ∧ rateLimiter (onMessage w c msg st).2 = rateLimiter st
  ∧ sessions (onMessage w c msg st).2 = sessions st.
Proof.
  intros Hjid Hne Hnot. rewrite !onMessage_unfold; cbv zeta.
  destruct (message msg) as [body|]; [|done].
  destruct (match keyId msg with Some (String a r) => _ | _ => false end);
    [done |].
  rewrite Hjid. destruct sender as [|a r]; [done |].
  destruct (String.length _ =? 0)%nat; [done |].
  destruct (unauthorized w (phoneNumberOf (String a r))) eqn:Hun; [done |].
  apply unauthorized_false in Hun as [? | ?]; done.
Qed.

Lemma unlisted_senders_cost_nothing_witness :
  (onMessage Dialogue.desk Dialogue.noon
     (Dialogue.hello "15550100000@s.whatsapp.net") start).1 = []
  ∧ rateLimiter (onMessage Dialogue.desk Dialogue.noon
                   (Dialogue.hello "15550100000@s.whatsapp.net") start).2
    = rateLimiter start
  ∧ sessions (onMessage Dialogue.desk Dialogue.noon
                (Dialogue.hello "15550100000@s.whatsapp.net") start).2
    = sessions start.
Proof.
  assert (Hjid : remoteJid (Dialogue.hello "15550100000@s.whatsapp.net")
                 = Some "15550100000@s.whatsapp.net") by reflexivity.
  assert (Hne : Config.allowedPhoneNumbers (config Dialogue.desk) ≠ [])
    by discriminate.
  assert (Hnot : ¬ In (phoneNumberOf "15550100000@s.whatsapp.net")
                     (Config.allowedPhoneNumbers (config Dialogue.desk))).
  { vm_compute. intros [H | [H | []]]; discriminate H. }
  exact (unlisted_senders_cost_nothing Dialogue.desk Dialogue.noon
           (Dialogue.hello "15550100000@s.whatsapp.net") start _
           Hjid Hne Hnot).
Defined.

(** X26: how the allow-list is read.  For a configuration [loadConfig]
    returned, a sender is let through exactly when ALLOWED_PHONE_NUMBERS
    has no entry at all, or the digits before the [@] of its address are
    the digits of one of the entries; so an entry may be written with
    [+], spaces or dashes.  With no entry, [loadConfig] logs that the bot
    will ignore all messages, and the handler lets every sender through. *)
Theorem allow_list_is_read_as_digits e logs cfg w :
  Config.loadConfig e = (logs, JS.Normal cfg) → config w = cfg →
  (∀ sender,
     unauthorized w (phoneNumberOf sender) = false
     ↔ Config.entries e = []
       ∨ ∃ entry, In entry (Config.entries e)
                  ∧ Config.digitsOf entry = phoneNumberOf sender)
  ∧ (Config.entries e = [] →
       logs = [Config.LogWarn Config.noNumbersWarning]
       ∧ ∀ p, unauthorized w p = false).
Proof.
  intros Hload Hw.
  destruct (loadConfig_Normal _ _ _ Hload) as (_ & _ & _ & _ & Hnum & _ & Hlogs).
  split.
  - intros sender. rewrite unauthorized_false, Hw, Hnum. split.
    + intros [Hnil | Hin].
      * left. by destruct (Config.entries e).
      * right. apply in_map_iff in Hin as (entry & Heq & Hin). by exists entry.
    + intros [-> | (entry & Hin & Heq)]; [by left |]. right.
      rewrite <- Heq. by apply in_map.
  - intros Hnil. rewrite Hnum, Hnil in Hlogs. split; [done |].
    intros p. apply unauthorized_false. left. by rewrite Hw, Hnum, Hnil.
Qed.

Lemma allow_list_is_read_as_digits_witness :
  unauthorized
    (Setup (Config.mk "https://sure.example" "key"
              ["15550109999"; "4915112345678"] "info")
       Dialogue.calendar Dialogue.shopBot true Dialogue.quiet)
    (phoneNumberOf "15550109999@s.whatsapp.net") = false.
Proof.
  assert (H : Config.loadConfig
                (Config.Env (Some " https://sure.example ") (Some "key") None
                   (Some "+1 (555) 010-9999, ,4915112345678"))
              = ([], JS.Normal (Config.mk "https://sure.example" "key"
                                  ["15550109999"; "4915112345678"] "info")))
    by (by vm_compute).
  apply (proj1 (allow_list_is_read_as_digits _ _ _
                  (Setup (Config.mk "https://sure.example" "key"
                            ["15550109999"; "4915112345678"] "info")
                     Dialogue.calendar Dialogue.shopBot true Dialogue.quiet)
                  H eq_refl)
           "15550109999@s.whatsapp.net").
  right. exists "+1 (555) 010-9999". split; [|by vm_compute].
  vm_compute. by left.
Defined.

(** The way to the engine. *)
Lemma engine_gates w c msg st :
  sessions (onMessage w c msg st).2 ≠ sessions st →
  ∃ body sender a r,
    message msg = Some body ∧ remoteJid msg = Some sender
    ∧ sender = String a r
    ∧ match keyId msg with
      | Some (String a r) => bool_decide (String a r ∈ sentMessageIds st)
      | _ => false
      end = false
    ∧ (String.length (phoneNumberOf sender) =? 0)%nat = false
    ∧ unauthorized w (phoneNumberOf sender) = false
    ∧ (RateLimiter.isAllowed (atLimit c) (phoneNumberOf sender)
         (rateLimiter st)).1 = true
    ∧ textOf body ≠ "" ∧ botReady w = true
    ∧ sessions (onMessage w c msg st).2
      = Bot.sessions (Bot.handleMessage (pf w) (bot w) (atHandle c) sender
                        (textOf body) (sessions st)).
Proof.
  rewrite !onMessage_unfold; cbv zeta.
  destruct (message msg) as [body|]; [|done].
  destruct (match keyId msg with Some (String a r) => _ | _ => false end)
    eqn:Hecho; [done |].
  destruct (remoteJid msg) as [[|a r]|] eqn:Hjid; [done | | done].
  destruct (String.length _ =? 0)%nat eqn:Hlen; [done |].
  destruct (unauthorized w _) eqn:Hun; [done |].
  destruct (RateLimiter.isAllowed _ _ _) as [allowed limiter] eqn:Hlim.
  destruct allowed; simpl.
  2:{ destruct (send_keeps w msg (String a r)
                  (tooManyRequests
                     (RateLimiter.getRemaining (atRemaining c)
                        (phoneNumberOf (String a r)) limiter))
                  (St (sentMessageIds st) limiter (sessions st)))
        as (_ & -> & _). done. }
  destruct (textOf body) as [|t ts] eqn:Htext; [done |].
  destruct (botReady w) eqn:Hready; simpl.
  2:{ destruct (send_keeps w msg (String a r) notConfigured
                  (St (sentMessageIds st) limiter (sessions st)))
        as (_ & -> & _). done. }
  intros _. exists body, (String a r), a, r.
  rewrite Htext, Hlim.
  do 9 (split; [done |]).
  match goal with
  | |- sessions (send w msg ?j ?t ?s).2 = _ =>
      destruct (send_keeps w msg j t s) as (_ & -> & _)
  end. done.
Qed.

(** The message is not one the handler sent. *)
Lemma not_own_message msg st :
  match keyId msg with
  | Some (String a r) => bool_decide (String a r ∈ sentMessageIds st)
  | _ => false
  end = false
  ↔ ∀ id, keyId msg = Some id → id ≠ "" → id ∉ sentMessageIds st.
Proof.
  destruct (keyId msg) as [[|a r]|].
  - split; [by intros _ id [= <-] | done].
  - rewrite bool_decide_eq_false. split.
    + by intros Hn id [= <-] _.
    + intros H. by apply H.
  - split; [by intros _ id | done].
Qed.

(** X27: the engine runs for admitted messages only.  For one message
    [bot.handleMessage] is called at most once, and exactly when the
    message has a body, is not one the handler sent, has a sender with a
    number that the allow-list lets through, [isAllowed] admits it, its
    text is not empty and the engine is ready; the call is for that sender
    and that text, on the session map as it is.  So a message the limiter
    refuses never reaches the engine.  The reply of the call is what is
    sent first, to the sender, and the session map the call leaves is the
    one kept; without a call the session map stays as it was. *)
Theorem engine_runs_for_admitted_messages_only w c msg st :
  (∀ call,
     In call (engineCalls w c msg st)
     ↔ ∃ body sender,
         message msg = Some body
         ∧ (∀ id, keyId msg = Some id → id ≠ "" → id ∉ sentMessageIds st)
         ∧ remoteJid msg = Some sender
         ∧ phoneNumberOf sender ≠ ""
         ∧ unauthorized w (phoneNumberOf sender) = false
         ∧ (RateLimiter.isAllowed (atLimit c) (phoneNumberOf sender)
              (rateLimiter st)).1 = true
         ∧ textOf body ≠ "" ∧ botReady w = true
         ∧ call = Call sender (textOf body)
                    (Bot.handleMessage (pf w) (bot w) (atHandle c) sender
                       (textOf body) (sessions st)))
  ∧ (List.length (engineCalls w c msg st) <= 1)%nat
  ∧ (∀ sender, remoteJid msg = Some sender →
       (RateLimiter.isAllowed (atLimit c) (phoneNumberOf sender)
          (rateLimiter st)).1 = false →
       engineCalls w c msg st = [])
  ∧ (engineCalls w c msg st = [] →
       sessions (onMessage w c msg st).2 = sessions st)
  ∧ (∀ call, In call (engineCalls w c msg st) →
       sessions (onMessage w c msg st).2 = Bot.sessions (callResult call)
       ∧ ∃ more, (onMessage w c msg st).1
                 = (callUser call, Bot.reply (callResult call)) :: more).
Proof.
  unfold engineCalls, onMessage, handle.
  destruct (message msg) as [body|] eqn:Hbody.
  2:{ split; [intros call; split; [done | by intros (? & ? & ? & _)] |].
      split; [simpl; lia | split; [done | split; [done | by intros ? []]]]. }
  pose proof (not_own_message msg st) as Hown.
  destruct (match keyId msg with Some (String a r) => _ | _ => false end).
  { split; [intros call; split; [done |] |].
    - intros (? & ? & _ & Hn & _). by apply Hown in Hn.
    - split; [simpl; lia | split; [done | split; [done | by intros ? []]]]. }
  destruct (remoteJid msg) as [[|a r]|] eqn:Hjid.
  1,3: split; [intros call; split; [done |];
               intros (? & ? & _ & _ & [= <-] & Hp & _); by apply Hp |];
       split; [simpl; lia | split; [done | split; [done | by intros ? []]]].
  cbv zeta.
  destruct (String.length (phoneNumberOf (String a r)) =? 0)%nat eqn:Hlen.
  { apply Nat.eqb_eq in Hlen.
    split; [intros call; split; [done |] |].
    - intros (? & ? & _ & _ & [= <-] & Hp & _). apply Hp.
      by destruct (phoneNumberOf (String a r)).
    - split; [simpl; lia | split; [done | split; [done | by intros ? []]]]. }
  destruct (unauthorized w (phoneNumberOf (String a r))) eqn:Hun.
  { split; [intros call; split; [done |] |].
    - intros (? & ? & _ & _ & [= <-] & _ & Hu & _). congruence.
    - split; [simpl; lia | split; [done | split; [done | by intros ? []]]]. }
  destruct (RateLimiter.isAllowed _ _ _) as [allowed limiter] eqn:Hlim.
  destruct allowed; cbn [negb fst snd].
  2:{ match goal with
      | |- context [send w msg ?j ?t ?s] =>
          destruct (send_keeps w msg j t s) as (_ & Hss & _)
      end.
      split; [intros call; split; [done |] |].
      - intros (? & ? & _ & _ & [= <-] & _ & _ & Hl & _).
        by rewrite Hlim in Hl.
      - split; [simpl; lia |]. split; [done |]. split; [by rewrite Hss |].
        by intros call []. }
  destruct (textOf body) as [|t ts] eqn:Htext.
  { split; [intros call; split; [done |] |].
    - intros (? & ? & [= <-] & _ & _ & _ & _ & _ & Ht & _). by apply Ht.
    - split; [simpl; lia | split; [done | split; [done | by intros ? []]]]. }
  destruct (botReady w) eqn:Hready; cbn [negb fst snd].
  2:{ match goal with
      | |- context [send w msg ?j ?t ?s] =>
          destruct (send_keeps w msg j t s) as (_ & Hss & _)
      end.
      split; [intros call; split; [done |] |].
      - intros (? & ? & _ & _ & _ & _ & _ & _ & _ & Hr & _). congruence.
      - split; [simpl; lia |]. split; [done |]. split; [by rewrite Hss |].
        by intros call []. }
  match goal with
  | |- context [send w msg ?j ?t ?s] =>
      destruct (send_keeps w msg j t s) as (_ & Hss & more & Hsent & _)
  end.
  split; [| split; [simpl; lia | split; [| split; [done |]]]].
  - intros call. split.
    + intros [<- | []]. exists body, (String a r).
      rewrite Htext.
      split; [done |]. split; [by apply Hown |]. split; [done |].
      split; [intros Hp; by rewrite Hp in Hlen |].
      split; [done |]. split; [by rewrite Hlim |].
      split; [done |]. split; [done |]. done.
    + intros (body' & sender & [= <-] & _ & [= <-] & _ & _ & _ & _ & _ & ->).
      rewrite Htext. by left.
  - intros sender [= <-] Href. by rewrite Hlim in Href.
  - intros call [<- | []]. cbn [fst snd callResult callUser].
    split; [by rewrite Hss |]. exists more. by rewrite Hsent.
Qed.

(** The first message of a number in a process from its start, and its
    thirty-first within the minute. *)
Lemma engine_runs_for_admitted_messages_only_witness :
  let jid := "15550109999@s.whatsapp.net" in
  let st :=
    (run (replicate 30 (Dialogue.desk, Dialogue.noon, Dialogue.hello jid))).2 in
  engineCalls Dialogue.desk Dialogue.noon (Dialogue.hello jid) start
  = [Call jid "new"
       (Bot.handleMessage Dialogue.calendar Dialogue.shopBot 100 jid "new" ∅)]
  ∧ engineCalls Dialogue.desk Dialogue.noon (Dialogue.hello jid) st = [].
Proof.
  intros jid st.
  split; [by vm_compute |].
  apply (proj1 (proj2 (proj2 (engine_runs_for_admitted_messages_only
                                Dialogue.desk Dialogue.noon
                                (Dialogue.hello jid) st)))
           jid eq_refl).
  by vm_compute.
Defined.



(** X29: the handler does not answer its own messages.  The id the
    socket returns for a message the handler sent is kept; an incoming
    message with an id that is kept is dropped without a reply, without
    use of the rate budget and without a change of any session, and the
    id is then forgotten. *)
Theorem own_messages_are_not_answered w c msg st :
  (∀ jid text id,
     In (jid, text) (onMessage w c msg st).1 →
     Socket.sendMessage (socket w) jid text = JS.Normal (Some id) →
     id ≠ "" → id ∈ sentMessageIds (onMessage w c msg st).2)
  ∧ (∀ id, message msg ≠ None → keyId msg = Some id → id ≠ "" →
       id ∈ sentMessageIds st →
       onMessage w c msg st
       = ([], St (sentMessageIds st ∖ {[id]}) (rateLimiter st) (sessions st))).
Proof.
  assert (Hrem : ∀ id st', id ≠ "" → id ∈ sentMessageIds (remember (Some id) st')).
  { intros [|a r] st' Hne; [done |]. simpl. set_solver. }
  assert (Hsend : ∀ j t st' jid text id,
    In (jid, text) (send w msg j t st').1 →
    Socket.sendMessage (socket w) jid text = JS.Normal (Some id) →
    id ≠ "" → id ∈ sentMessageIds (send w msg j t st').2).
  { intros j t st' jid text id. unfold send.
    destruct (Socket.sendMessage (socket w) j t) as [i|e] eqn:Hfirst; simpl.
    - intros [[= <- <-] | []] Hres Hne. rewrite Hfirst in Hres.
      injection Hres as ->. by apply Hrem.
    - unfold onError. destruct (remoteJid msg) as [[|a r]|]; simpl.
      1,3: intros [[= <- <-] | []] Hres; rewrite Hfirst in Hres; done.
      destruct (Socket.sendMessage (socket w) (String a r) errorText)
        as [i|e'] eqn:Hsecond; simpl.
      + intros [[= <- <-] | [[= <- <-] | []]] Hres Hne.
        * rewrite Hfirst in Hres. done.
        * rewrite Hsecond in Hres. injection Hres as ->. by apply Hrem.
      + intros [[= <- <-] | [[= <- <-] | []]] Hres Hne.
        * rewrite Hfirst in Hres. done.
        * rewrite Hsecond in Hres. done. }
  split.
  - intros jid text id. rewrite !onMessage_unfold; cbv zeta.
    destruct (message msg) as [body|]; [|by intros []].
    destruct (match keyId msg with Some (String a r) => _ | _ => false end);
      [by intros [] |].
    destruct (remoteJid msg) as [[|a r]|]; [by intros [] | | by intros []].
    destruct (String.length _ =? 0)%nat; [by intros [] |].
    destruct (unauthorized _ _); [by intros [] |].
    destruct (RateLimiter.isAllowed _ _ _) as [allowed limiter].
    destruct allowed; simpl; [|apply Hsend].
    destruct (textOf body); [by intros [] |].
    destruct (botReady w); simpl; apply Hsend.
  - intros id Hmsg Hkey Hne Hin. rewrite !onMessage_unfold; cbv zeta.
    destruct (message msg) as [body|]; [|done]. rewrite Hkey.
    destruct id as [|a r]; [done |]. simpl.
    by rewrite bool_decide_eq_true_2.
Qed.

Lemma own_messages_are_not_answered_witness :
  "m1" ∈ sentMessageIds
           (onMessage Dialogue.desk Dialogue.noon
              (Dialogue.hello "15550109999@s.whatsapp.net") start).2
  ∧ onMessage Dialogue.desk Dialogue.noon
      (WA (Some (Content (Some "new") None)) (Some "m1")
          (Some "15550109999@s.whatsapp.net"))
      (onMessage Dialogue.desk Dialogue.noon
         (Dialogue.hello "15550109999@s.whatsapp.net") start).2
    = ([], St (sentMessageIds
                 (onMessage Dialogue.desk Dialogue.noon
                    (Dialogue.hello "15550109999@s.whatsapp.net") start).2
               ∖ {["m1"]})
              (rateLimiter
                 (onMessage Dialogue.desk Dialogue.noon
                    (Dialogue.hello "15550109999@s.whatsapp.net") start).2)
              (sessions
                 (onMessage Dialogue.desk Dialogue.noon
                    (Dialogue.hello "15550109999@s.whatsapp.net") start).2)).
Proof.
  assert (Hsent : In ("15550109999@s.whatsapp.net",
                      Bot.reply (Bot.handleMessage Dialogue.calendar
                                   Dialogue.shopBot 100
                                   "15550109999@s.whatsapp.net" "new" ∅))
                    (onMessage Dialogue.desk Dialogue.noon
                       (Dialogue.hello "15550109999@s.whatsapp.net") start).1).
  { assert (H : (onMessage Dialogue.desk Dialogue.noon
                   (Dialogue.hello "15550109999@s.whatsapp.net") start).1
                = [("15550109999@s.whatsapp.net",
                    Bot.reply (Bot.handleMessage Dialogue.calendar
                                 Dialogue.shopBot 100
                                 "15550109999@s.whatsapp.net" "new" ∅))])
      by (by vm_compute).
    rewrite H. by left. }
  assert (Hne : "m1" ≠ "") by discriminate.
  assert (Hin : "m1" ∈ sentMessageIds
                  (onMessage Dialogue.desk Dialogue.noon
                     (Dialogue.hello "15550109999@s.whatsapp.net") start).2).
  { exact (proj1 (own_messages_are_not_answered Dialogue.desk Dialogue.noon
                    (Dialogue.hello "15550109999@s.whatsapp.net") start)
             _ _ "m1" Hsent eq_refl Hne). }
  split; [exact Hin |].
  apply (proj2 (own_messages_are_not_answered Dialogue.desk Dialogue.noon
                  (WA (Some (Content (Some "new") None)) (Some "m1")
                      (Some "15550109999@s.whatsapp.net")) _) "m1");
    [discriminate | reflexivity | exact Hne | exact Hin].
Defined.

(** *** The load on the engine *)

Lemma onMessage_limiter w c msg st :
  rateLimiter (onMessage w c msg st).2
  = match attempt w msg st with
    | Some p => (RateLimiter.isAllowed (atLimit c) p (rateLimiter st)).2
    | None => rateLimiter st
    end.
Proof.
  rewrite !onMessage_unfold; cbv zeta. unfold attempt.
  destruct (message msg) as [body|]; [|done].
  destruct (match keyId msg with Some (String a r) => _ | _ => false end);
    [done |].
  destruct (remoteJid msg) as [[|a r]|]; [done | | done].
  destruct (String.length _ =? 0)%nat; [done |].
  destruct (unauthorized w _); [done |].
  destruct (RateLimiter.isAllowed _ _ _) as [allowed limiter]. simpl.
  destruct allowed; simpl.
  2:{ match goal with
      | |- rateLimiter (send w msg ?j ?t ?s).2 = _ =>
          by destruct (send_keeps w msg j t s) as (-> & _)
      end. }
  destruct (textOf body); [done |].
  destruct (botReady w); simpl;
    match goal with
    | |- rateLimiter (send w msg ?j ?t ?s).2 = _ =>
        by destruct (send_keeps w msg j t s) as (-> & _)
    end.
Qed.

Lemma filter_app_pairs (p : string) (l1 l2 : list (Z * string)) :
  map fst (filter (λ e, e.2 = p) (l1 ++ l2))
  = map fst (filter (λ e, e.2 = p) l1) ++ map fst (filter (λ e, e.2 = p) l2).
Proof. by rewrite filter_app, map_app. Qed.

Lemma window_of_pairs (p : string) (s w : Z) (l : list (Z * string)) :
  List.length (filter (λ e, e.2 = p ∧ s <= e.1 < s + w) l)
  = List.length (filter (λ t, s <= t < s + w)
                   (map fst (filter (λ e, e.2 = p) l))).
Proof.
  induction l as [|[t q] l IH]; [done |].
  destruct (decide (q = p)) as [Hq | Hq].
  - rewrite (filter_cons_True (λ e, e.2 = p)) by done. simpl map.
    destruct (decide (s <= t < s + w)) as [Hin | Hout].
    + rewrite !filter_cons_True by done. simpl. by rewrite IH.
    + rewrite !filter_cons_False by (simpl; tauto). done.
  - rewrite (filter_cons_False (λ e, e.2 = p)) by done.
    rewrite filter_cons_False by (simpl; tauto). done.
Qed.

(** The limiter of the handler keeps a justified log of its attempts, in
    time order, whose admitted attempts are the journal. *)
Lemma journal_logged ms : ∀ st log T J,
  RateLimiter.agrees 30 60000 log (rateLimiter st) T →
  RateLimiter.justified 30 60000 log →
  (∀ j t v b, log !! j = Some (RateLimiter.Attempt t v b) → t <= T) →
  (∀ i j t t' v v' b b', (i <= j)%nat →
     log !! i = Some (RateLimiter.Attempt t v b) →
     log !! j = Some (RateLimiter.Attempt t' v' b') → t <= t') →
  (∀ p, RateLimiter.admittedTimes p log = map fst (filter (λ e, e.2 = p) J)) →
  RateLimiter.nondecreasing (T :: map (λ m, atLimit m.1.2) ms) →
  ∃ log',
    RateLimiter.justified 30 60000 log'
    ∧ (∀ i j t t' v v' b b', (i <= j)%nat →
         log' !! i = Some (RateLimiter.Attempt t v b) →
         log' !! j = Some (RateLimiter.Attempt t' v' b') → t <= t')
    ∧ ∀ p, RateLimiter.admittedTimes p log'
           = map fst (filter (λ e, e.2 = p) (J ++ journal ms st)).
Proof.
  induction ms as [|[[w c] msg] ms IH]; intros st log T J Hag Hj HT Hs HJ Hnd.
  { exists log. simpl. rewrite app_nil_r. done. }
  assert (T <= atLimit c
          ∧ RateLimiter.nondecreasing (atLimit c :: map (λ m, atLimit m.1.2) ms))
    as [HTc Hnd'].
  { simpl in Hnd. simpl. destruct Hnd. split; [lia | done]. }
  simpl journal. pose proof (onMessage_limiter w c msg st) as Hlim.
  unfold admitted. destruct (attempt w msg st) as [q|].
  - destruct (exec_ordered 30 60000 log (rateLimiter st) T (atLimit c)
                (RateLimiter.IsAllowed q) Hag Hj HT Hs HTc)
      as (Hag' & Hj' & HT' & Hs').
    pose proof (exec_log log (rateLimiter st) (atLimit c)
                  (RateLimiter.IsAllowed q)) as Hlog.
    simpl in Hag', Hj', HT', Hs', Hlog.
    destruct (RateLimiter.isAllowed (atLimit c) q (rateLimiter st))
      as [b limiter] eqn:Hb.
    simpl in *. rewrite <- Hlim in Hag'.
    destruct (IH (onMessage w c msg st).2
                (log ++ [RateLimiter.Attempt (atLimit c) q b]) (atLimit c)
                (J ++ (if b then [(atLimit c, q)] else []))
                Hag' Hj' HT' Hs') as (log' & H1 & H2 & H3); [| done |].
    + intros p. rewrite admittedTimes_snoc, filter_app_pairs, HJ. simpl.
      destruct b.
      * destruct (decide (q = p ∧ true = true)) as [[-> _] | Hne].
        -- by rewrite filter_cons_True.
        -- rewrite filter_cons_False; [by rewrite app_nil_r |].
           simpl. intros ->. by apply Hne.
      * destruct (decide (q = p ∧ false = true)) as [[_ ?] | _]; [done |].
        by rewrite app_nil_r.
    + exists log'. split; [done |]. split; [done |].
      intros p. rewrite H3. by rewrite <- app_assoc.
  - rewrite <- Hlim in Hag.
    destruct (IH (onMessage w c msg st).2 log (atLimit c) J) as (log' & H1 & H2 & H3);
      try done.
    + destruct Hag as (Hm & Hw & Hag). split; [done | split; [done |]].
      intros u now Hnow. apply Hag. lia.
    + intros j t v b Hjl. specialize (HT j t v b Hjl). lia.
    + by exists log'.
Qed.

(** X30: the load the handler puts on the engine.  In a process from its
    start, with a clock that does not run backwards, the limiter lets at
    most 30 messages of one number through to the text check and the
    engine in any 60 seconds, whatever the senders do; and the engine
    changes a session only for a message that was let through. *)
Theorem engine_load_is_bounded ms :
  RateLimiter.nondecreasing (map (λ m, atLimit m.1.2) ms) →
  (∀ p s,
     Z.of_nat (List.length (filter (λ e, e.2 = p ∧ s <= e.1 < s + 60000)
                              (journal ms start))) <= 30)
  ∧ (∀ w c msg st, sessions (onMessage w c msg st).2 ≠ sessions st →
       ∃ sender, remoteJid msg = Some sender
                 ∧ admitted w c msg st = [(atLimit c, phoneNumberOf sender)]).
Proof.
  intros Hnd. split.
  - intros p s.
    destruct (journal_logged ms start [] (hd 0 (map (λ m, atLimit m.1.2) ms)) [])
      as (log' & Hj & Hs & HJ).
    + split; [done | split; [done |]]. intros u now _.
      unfold RateLimiter.stored. simpl. by rewrite lookup_empty.
    + intros i now u b Hi. by rewrite lookup_nil in Hi.
    + intros j t v b Hi. by rewrite lookup_nil in Hi.
    + intros i j t t' v v' b b' _ Hi. by rewrite lookup_nil in Hi.
    + done.
    + destruct ms as [|[[w c] msg] ms']; [done |]. simpl in *.
      split; [lia | done].
    + pose proof (window_bound 30 60000 log' Hj Hs p s) as Hbound.
      rewrite HJ in Hbound. simpl app in Hbound.
      rewrite window_of_pairs. lia.
  - intros w c msg st Hch.
    destruct (engine_gates w c msg st Hch)
      as (body & sender & a & r & Hbody & Hjid & Hsender & Hecho & Hphone
          & Hun & Hlim & _).
    exists sender. split; [done |].
    unfold admitted, attempt. rewrite Hbody, Hecho, Hjid, Hsender.
    rewrite <- Hsender, Hphone, Hun. by rewrite Hlim.
Qed.

Lemma engine_load_is_bounded_witness :
  journal [(Dialogue.desk, Dialogue.noon,
            Dialogue.hello "15550109999@s.whatsapp.net");
           (Dialogue.desk, Clock 200 200 200,
            Dialogue.hello "15550109999@s.whatsapp.net")] start
  = [(100, "15550109999"); (200, "15550109999")]
  ∧ Z.of_nat (List.length
      (filter (λ e, e.2 = "15550109999" ∧ 100 <= e.1 < 100 + 60000)
         (journal [(Dialogue.desk, Dialogue.noon,
                    Dialogue.hello "15550109999@s.whatsapp.net");
                   (Dialogue.desk, Clock 200 200 200,
                    Dialogue.hello "15550109999@s.whatsapp.net")] start)))
    <= 30.
Proof.
  split; [by vm_compute |].
  assert (Hnd : RateLimiter.nondecreasing
                  (map (λ m : setup * clock * WAMessage, atLimit m.1.2)
                     [(Dialogue.desk, Dialogue.noon,
                       Dialogue.hello "15550109999@s.whatsapp.net");
                      (Dialogue.desk, Clock 200 200 200,
                       Dialogue.hello "15550109999@s.whatsapp.net")]))
    by (simpl; lia).
  apply (proj1 (engine_load_is_bounded _ Hnd)).
Defined.

End InboxFacts.
